(** * Neural simulation engine: BiologicalNeuron and BiologicalNeuronProcessor

    A shallow embedding of [src/models/BiologicalNeuron.ts] and of
    [src/modules/BiologicalNeuronProcessor.ts], and the properties of the
    engine that the specification states about them.

    Numbers.  A JavaScript [number] is modelled as a real number of [R]:
    [Math.exp], [Math.sin], [Math.max], [Math.min] and [Math.abs] are [exp],
    [sin], [Rmax], [Rmin] and [Rabs], and a comparison is decided with
    [Rlt_dec].  Rounding, NaN and the infinities are outside this model, with
    two exceptions that the code relies on: the initial [lastSpikeTime] of a
    neuron is [-Infinity], modelled by the constructor [NegInfinity], and the
    firing-rate calculation divides by an interval that can be zero, which is
    modelled on IEEE-754 binary64 floats in [FiringRate].

    Objects.  A neuron is a mutable object shared by a region's map and by the
    processor's [allNeurons] map; the model keeps one store of neurons (in
    insertion order, looked up by [id]) and regions hold the ids.  Every method
    is a function from the state before to the state after, and a read of
    [getState().V] or [getState().lastSpikeTime] is a read of the field.

    The conductance-based mode ([updateHodgkinHuxley], its gating variables
    and the optional channel parameters) is never called by the processor; it
    is embedded apart, in [HodgkinHuxley].  The constructor's synapse
    generation draws from [Math.random]; the generated synapses are a
    parameter of [create]. *)

From Stdlib Require Import Reals Lra Lia List String Bool Arith ZArith.
From Stdlib Require Import DecimalString Floats.
Import ListNotations.

Open Scope R_scope.

(* ================================================================== *)
(** ** JavaScript primitives *)

Module JS.

(** [x < y] on numbers. *)
Definition ltb (x y : R) : bool := if Rlt_dec x y then true else false.

(** [x <= y] on numbers. *)
Definition leb (x y : R) : bool := if Rle_dec x y then true else false.

(** [x > y] on numbers. *)
Definition gtb (x y : R) : bool := ltb y x.

(** Truncation toward zero. *)
Definition trunc (x : R) : Z :=
  if Rle_dec 0 x then Int_part x else (- Int_part (- x))%Z.

(** The remainder operator [x % m]: the result has the sign of [x]. *)
Definition rem (x m : R) : R := x - m * IZR (trunc (x / m)).

(** [s.includes(sub)]. *)
Definition includes (s sub : string) : bool :=
  match index 0 sub s with Some _ => true | None => false end.

(** [`${i}`] for a loop counter. *)
Definition string_of_nat (i : nat) : string :=
  NilEmpty.string_of_uint (Nat.to_uint i).

End JS.

(** A time stamp that may be [-Infinity]. *)
Inductive SpikeTime : Type :=
| NegInfinity : SpikeTime
| Finite : R -> SpikeTime.

(** [now - last < bound], where [now] and [bound] are finite. *)
Definition within (now : R) (last : SpikeTime) (bound : R) : bool :=
  match last with
  | NegInfinity => false
  | Finite t => JS.ltb (now - t) bound
  end.

(* ================================================================== *)
(** ** Synapse (interface of BiologicalNeuronProcessor.ts) *)

Inductive SynapseType : Type := excitatory | inhibitory.

Module Synapse.

Record t : Type := mk {
  preId : string;
  postId : string;
  weight : R;
  delay : R;
  type : SynapseType;
  plasticity : R;
  preTrace : R;
  postTrace : R
}.

Definition set_weight (x : R) (s : t) : t :=
  mk (preId s) (postId s) x (delay s) (type s) (plasticity s)
     (preTrace s) (postTrace s).

Definition set_preTrace (x : R) (s : t) : t :=
  mk (preId s) (postId s) (weight s) (delay s) (type s) (plasticity s)
     x (postTrace s).

Definition set_postTrace (x : R) (s : t) : t :=
  mk (preId s) (postId s) (weight s) (delay s) (type s) (plasticity s)
     (preTrace s) x.

End Synapse.

(* ================================================================== *)
(** ** BiologicalNeuron.ts *)

Inductive NeuronType : Type := pyramidal | interneuron | sensory | motor.

Module BiologicalNeuron.

Record NeuronParameters : Type := mkParams {
  C : R;
  gL : R;
  EL : R;
  VT : R;
  deltaT : R;
  a : R;
  b : R;
  tau_w : R;
  Vr : R;
  Vpeak : R;
  tau_plus : R;
  tau_minus : R;
  A_plus : R;
  A_minus : R
}.

(** A queued synaptic input [{time, weight}]. *)
Record QueuedInput : Type := mkInput {
  time : R;
  qweight : R
}.

Record t : Type := mk {
  id : string;
  type : NeuronType;
  params : NeuronParameters;
  V : R;
  w : R;
  lastSpikeTime : SpikeTime;
  spikeTrace : R;
  currentTime : R;
  synapticCurrent : R;
  excitatoryInputs : list QueuedInput;
  inhibitoryInputs : list QueuedInput
}.

(** The [switch] of [initializeByType]: the parameters after the
    type-specific adjustments. *)
Definition adjustByType (ty : NeuronType) (p : NeuronParameters)
  : NeuronParameters :=
  match ty with
  | pyramidal =>
      mkParams (C p) (gL p) (EL p) (VT p) (deltaT p) 0.02 5 (tau_w p)
               (Vr p) (Vpeak p) (tau_plus p) (tau_minus p)
               (A_plus p) (A_minus p)
  | interneuron =>
      mkParams (C p) (gL p) (EL p) (VT p) (deltaT p) 0.1 0.2 10
               (Vr p) (Vpeak p) (tau_plus p) (tau_minus p)
               (A_plus p) (A_minus p)
  | sensory =>
      mkParams (C p) (gL p) (EL p) (VT p) 3 0.02 10 (tau_w p)
               (Vr p) (Vpeak p) (tau_plus p) (tau_minus p)
               (A_plus p) (A_minus p)
  | motor =>
      mkParams (C p) (gL p) (EL p) (VT p) (deltaT p) 0.03 8 (tau_w p)
               (Vr p) (Vpeak p) (tau_plus p) (tau_minus p)
               (A_plus p) (A_minus p)
  end.

(** [initializeByType()]: [V] at the leak potential, [w] at 0, then the
    adjustments of the parameters (which do not touch [EL]). *)
Definition initializeByType (nr : t) : t :=
  mk (id nr) (type nr) (adjustByType (type nr) (params nr))
     (EL (params nr)) 0 (lastSpikeTime nr) (spikeTrace nr) (currentTime nr)
     (synapticCurrent nr) (excitatoryInputs nr) (inhibitoryInputs nr).

(** The constructor: the field initialisers ([V] and [w] have none and are
    assigned by [initializeByType]), then [initializeByType]. *)
Definition new (i : string) (ty : NeuronType) (p : NeuronParameters) : t :=
  initializeByType (mk i ty p 0 0 NegInfinity 0 0 0 [] []).

(** The membrane derivative of the AdEx equation. *)
Definition dV (p : NeuronParameters) (v w0 I_ext Isyn : R) : R :=
  (- gL p * (v - EL p)
   + gL p * deltaT p * exp ((v - VT p) / deltaT p)
   - w0 + I_ext + Isyn) / C p.

(** The adaptation derivative. *)
Definition dw (p : NeuronParameters) (v w0 : R) : R :=
  (a p * (v - EL p) - w0) / tau_w p.

(** [updateAdEx(dt, I_ext)]: the state after, and the returned flag. *)
Definition updateAdEx (dt I_ext : R) (nr : t) : t * bool :=
  let p := params nr in
  let spiked := JS.gtb (V nr) (Vpeak p) in
  let v1 := if spiked then Vr p else V nr in
  let w1 := if spiked then w nr + b p else w nr in
  let last1 := if spiked then Finite (currentTime nr) else lastSpikeTime nr in
  let trace1 := if spiked then 1 else spikeTrace nr in
  let dv := dV p v1 w1 I_ext (synapticCurrent nr) in
  let dw0 := dw p v1 w1 in
  (mk (id nr) (type nr) p
      (v1 + dv * dt)
      (w1 + dw0 * dt)
      last1
      (trace1 * exp (- dt / tau_plus p))
      (currentTime nr)
      (synapticCurrent nr * exp (- dt / 5))
      (excitatoryInputs nr) (inhibitoryInputs nr),
   spiked).

(** [applySTDP(presynapticSpike, postsynapticSpike, synapse)]: the synapse
    after the call.  The statements run in the source's order, so both
    weight changes read the traces as they were on entry. *)
Definition applySTDP (nr : t) (presynapticSpike postsynapticSpike : bool)
           (s : Synapse.t) : Synapse.t :=
  let p := params nr in
  let s1 :=
    if presynapticSpike && JS.gtb (Synapse.postTrace s) 0
    then Synapse.set_weight
           (Synapse.weight s + A_plus p * Synapse.postTrace s) s
    else s in
  let s2 :=
    if postsynapticSpike && JS.gtb (Synapse.preTrace s1) 0
    then Synapse.set_weight
           (Synapse.weight s1 - A_minus p * Synapse.preTrace s1) s1
    else s1 in
  let s3 :=
    if presynapticSpike
    then Synapse.set_preTrace 1 s2
    else Synapse.set_preTrace
           (Synapse.preTrace s2 * exp (- 1 / tau_plus p)) s2 in
  let s4 :=
    if postsynapticSpike
    then Synapse.set_postTrace 1 s3
    else Synapse.set_postTrace
           (Synapse.postTrace s3 * exp (- 1 / tau_minus p)) s3 in
  Synapse.set_weight (Rmax 0 (Rmin (Synapse.weight s4) 2)) s4.

(** [receiveInput(weight, delay, isExcitatory)]. *)
Definition receiveInput (weight delay : R) (isExcitatory : bool) (nr : t)
  : t :=
  let arrivalTime := currentTime nr + delay in
  if isExcitatory
  then mk (id nr) (type nr) (params nr) (V nr) (w nr) (lastSpikeTime nr)
          (spikeTrace nr) (currentTime nr) (synapticCurrent nr)
          (excitatoryInputs nr ++ [mkInput arrivalTime weight])
          (inhibitoryInputs nr)
  else mk (id nr) (type nr) (params nr) (V nr) (w nr) (lastSpikeTime nr)
          (spikeTrace nr) (currentTime nr) (synapticCurrent nr)
          (excitatoryInputs nr)
          (inhibitoryInputs nr ++ [mkInput arrivalTime weight]).

(** One pass of [Array.filter] whose callback also updates
    [synapticCurrent]: the inputs are visited in queue order; a due input
    changes the accumulator by [op] ([+=] or [-=]) and is dropped, a future
    one is kept.  Returns the accumulator and the kept inputs. *)
Fixpoint drain (op : R -> R -> R) (currentTime0 : R)
         (q : list QueuedInput) (acc : R) : R * list QueuedInput :=
  match q with
  | [] => (acc, [])
  | input :: rest =>
      if JS.leb (time input) currentTime0
      then drain op currentTime0 rest (op acc (qweight input))
      else let (acc', kept) := drain op currentTime0 rest acc in
           (acc', input :: kept)
  end.

(** [processSynapticInputs(currentTime)]. *)
Definition processSynapticInputs (currentTime0 : R) (nr : t) : t :=
  let (c1, exc) :=
    drain Rplus currentTime0 (excitatoryInputs nr) (synapticCurrent nr) in
  let (c2, inh) := drain Rminus currentTime0 (inhibitoryInputs nr) c1 in
  mk (id nr) (type nr) (params nr) (V nr) (w nr) (lastSpikeTime nr)
     (spikeTrace nr) currentTime0 c2 exc inh.

(** [reset()]. *)
Definition reset (nr : t) : t :=
  mk (id nr) (type nr) (params nr) (EL (params nr)) 0 (lastSpikeTime nr)
     0 0 0 [] [].

(** A number that can be [Infinity]: the firing rate is a quotient whose
    divisor can be zero; [FiringRate] has the IEEE-754 result. *)
Inductive Rate : Type :=
| RateInfinity : Rate
| RateOf : R -> Rate.

(** [calculateFiringRate()].  With [lastSpikeTime = -Infinity] the time
    since the spike is [Infinity], which is not below 1000. *)
Definition calculateFiringRate (nr : t) : Rate :=
  match lastSpikeTime nr with
  | NegInfinity => RateOf 0
  | Finite last =>
      let timeSinceSpike := currentTime nr - last in
      if JS.ltb timeSinceSpike 1000
      then if Req_dec_T timeSinceSpike 0 then RateInfinity
           else RateOf (1000 / timeSinceSpike)
      else RateOf 0
  end.

(** The object returned by [getState()]. *)
Module State.
Record t : Type := mk {
  id : string;
  type : NeuronType;
  V : R;
  w : R;
  spikeTrace : R;
  lastSpikeTime : SpikeTime;
  synapticCurrent : R;
  isRefractory : bool;
  firingRate : Rate
}.
End State.

(** [getState()]. *)
Definition getState (nr : t) : State.t :=
  State.mk (id nr) (type nr) (V nr) (w nr) (spikeTrace nr)
           (lastSpikeTime nr) (synapticCurrent nr)
           (within (currentTime nr) (lastSpikeTime nr) 2)
           (calculateFiringRate nr).

(** [NeuronPresets]. *)
Module NeuronPresets.
Definition RegularSpiking : NeuronParameters :=
  mkParams 200 10 (-70) (-50) 2 2 5 30 (-58) 20 20 20 0.01 0.012.
Definition FastSpiking : NeuronParameters :=
  mkParams 100 10 (-65) (-50) 0.5 10 0.2 10 (-65) 20 20 20 0.01 0.012.
Definition Bursting : NeuronParameters :=
  mkParams 200 10 (-60) (-50) 2 2 10 120 (-46) 20 20 20 0.01 0.012.
Definition Adapting : NeuronParameters :=
  mkParams 200 12 (-70) (-50) 2 20 5 100 (-55) 20 20 20 0.01 0.012.
End NeuronPresets.

End BiologicalNeuron.

(* ================================================================== *)
(** ** BiologicalNeuronProcessor.ts *)

Module Spike.
Record t : Type := mk {
  neuronId : string;
  timestamp : R;
  strength : R;
  propagationPath : list string
}.
End Spike.

Module NeuronActivity.
Record t : Type := mk {
  neuronId : string;
  timestamp : R;
  potential : R;
  fired : bool
}.
End NeuronActivity.

Module BiologicalNeuronProcessor.

Module N := BiologicalNeuron.

(** A region; [neurons] lists the keys of the region's map in insertion
    order, the neuron objects themselves live in [allNeurons]. *)
Record BrainRegion : Type := mkRegion {
  name : string;
  neurons : list string;
  function : string
}.

Record Oscillation : Type := mkOsc {
  phase : R;
  frequency : R
}.

Record t : Type := mk {
  regions : list BrainRegion;
  allNeurons : list N.t;
  synapses : list Synapse.t;
  spikes : list Spike.t;
  activities : list NeuronActivity.t;
  globalTime : R;
  dt : R;
  dopamine : R;
  serotonin : R;
  acetylcholine : R;
  norepinephrine : R;
  theta : Oscillation;
  gamma : Oscillation;
  alpha : Oscillation
}.

Definition set_allNeurons (x : list N.t) (st : t) : t :=
  mk (regions st) x (synapses st) (spikes st) (activities st)
     (globalTime st) (dt st) (dopamine st) (serotonin st)
     (acetylcholine st) (norepinephrine st) (theta st) (gamma st) (alpha st).

Definition set_synapses (x : list Synapse.t) (st : t) : t :=
  mk (regions st) (allNeurons st) x (spikes st) (activities st)
     (globalTime st) (dt st) (dopamine st) (serotonin st)
     (acetylcholine st) (norepinephrine st) (theta st) (gamma st) (alpha st).

Definition set_spikes (x : list Spike.t) (st : t) : t :=
  mk (regions st) (allNeurons st) (synapses st) x (activities st)
     (globalTime st) (dt st) (dopamine st) (serotonin st)
     (acetylcholine st) (norepinephrine st) (theta st) (gamma st) (alpha st).

Definition set_activities (x : list NeuronActivity.t) (st : t) : t :=
  mk (regions st) (allNeurons st) (synapses st) (spikes st) x
     (globalTime st) (dt st) (dopamine st) (serotonin st)
     (acetylcholine st) (norepinephrine st) (theta st) (gamma st) (alpha st).

Definition set_globalTime (x : R) (st : t) : t :=
  mk (regions st) (allNeurons st) (synapses st) (spikes st) (activities st)
     x (dt st) (dopamine st) (serotonin st)
     (acetylcholine st) (norepinephrine st) (theta st) (gamma st) (alpha st).

(** [allNeurons.get(id)]. *)
Definition getNeuron (i : string) (store : list N.t) : option N.t :=
  find (fun nr => String.eqb (N.id nr) i) store.

(** A method call on the neuron object stored under [i]. *)
Fixpoint modify (i : string) (f : N.t -> N.t) (store : list N.t)
  : list N.t :=
  match store with
  | [] => []
  | nr :: rest =>
      if String.eqb (N.id nr) i then f nr :: rest
      else nr :: modify i f rest
  end.

(** [regions.get(name)]. *)
Definition getRegion (nm : string) (rs : list BrainRegion)
  : option BrainRegion :=
  find (fun r => String.eqb (name r) nm) rs.

(** ** Construction *)

Definition getPresetForType (ty : NeuronType) : N.NeuronParameters :=
  match ty with
  | sensory => N.NeuronPresets.Adapting
  | motor => N.NeuronPresets.Bursting
  | interneuron => N.NeuronPresets.FastSpiking
  | pyramidal => N.NeuronPresets.RegularSpiking
  end.

(** The neurons made by [createRegion(name, count, primaryType, _)]. *)
Definition regionNeurons (nm : string) (count : nat)
           (primaryType : NeuronType) : list N.t :=
  map (fun i =>
         let neuronType :=
           if (i mod 5 =? 0)%nat then interneuron else primaryType in
         N.new (nm ++ "_" ++ JS.string_of_nat i) neuronType
               (getPresetForType neuronType))
      (seq 0 count).

(** The neurons made by [createInhibitoryNetwork(count)]. *)
Definition inhibitoryNeurons (count : nat) : list N.t :=
  map (fun i =>
         N.new ("inhibitory_" ++ JS.string_of_nat i) interneuron
               N.NeuronPresets.FastSpiking)
      (seq 0 count).

Definition regionOf (nm : string) (ns : list N.t) (functionDesc : string)
  : BrainRegion :=
  mkRegion nm (map N.id ns) functionDesc.

(** [initializeBrainRegions]: the regions with their neurons, in the order
    of creation. *)
Definition initialRegions : list (BrainRegion * list N.t) :=
  let reg nm count ty desc :=
    let ns := regionNeurons nm count ty in (regionOf nm ns desc, ns) in
  [ reg "sensory_cortex" 20%nat sensory
        "Input processing and feature detection";
    reg "hippocampus" 30%nat pyramidal "Memory encoding and retrieval";
    reg "prefrontal_cortex" 40%nat pyramidal "Decision making and planning";
    reg "motor_cortex" 10%nat motor "Action selection and execution";
    reg "thalamus" 15%nat pyramidal
        "Information relay and attention gating";
    (let ns := inhibitoryNeurons 20 in
     (regionOf "inhibitory_network" ns "Global and local inhibition", ns));
    reg "basal_ganglia" 25%nat pyramidal
        "Action selection and reinforcement";
    reg "amygdala" 15%nat pyramidal
        "Emotional evaluation and fear response" ]%string.

(** The processor after its constructor, [connectRegions] having generated
    the synapses [syns]. *)
Definition create (syns : list Synapse.t) : t :=
  mk (map fst initialRegions) (flat_map snd initialRegions) syns [] []
     0 0.1 0.5 0.5 0.5 0.5 (mkOsc 0 7) (mkOsc 0 40) (mkOsc 0 10).

(** ** Simulation *)

Definition advance (o : Oscillation) (dt0 : R) : Oscillation :=
  mkOsc (JS.rem (phase o + 2 * PI * frequency o * dt0 / 1000) (2 * PI))
        (frequency o).

Definition updateOscillations (st : t) : t :=
  mk (regions st) (allNeurons st) (synapses st) (spikes st) (activities st)
     (globalTime st) (dt st) (dopamine st) (serotonin st)
     (acetylcholine st) (norepinephrine st)
     (advance (theta st) (dt st)) (advance (gamma st) (dt st))
     (advance (alpha st) (dt st)).

Definition isInterneuron (ty : NeuronType) : bool :=
  match ty with interneuron => true | _ => false end.

Definition getNeuromodulationFactor (st : t) (nr : N.t) : R :=
  let factor := 1 in
  let factor :=
    if JS.includes (N.id nr) "basal_ganglia"
       || JS.includes (N.id nr) "prefrontal"
    then factor * (0.5 + dopamine st) else factor in
  let factor :=
    if isInterneuron (N.type nr)
    then factor * (0.5 + serotonin st) else factor in
  let factor :=
    if JS.includes (N.id nr) "cortex"
    then factor * (0.8 + 0.4 * acetylcholine st) else factor in
  factor * (0.7 + 0.6 * norepinephrine st).

Definition isExcitatory (ty : SynapseType) : bool :=
  match ty with excitatory => true | inhibitory => false end.

(** The body of the [synapses.forEach] of [handleSpike]: the neuron store
    and the spike's propagation path after visiting synapse [s]. *)
Definition propagate (st : t) (nid : string)
           (acc : list N.t * list string) (s : Synapse.t)
  : list N.t * list string :=
  let (store, path) := acc in
  if String.eqb (Synapse.preId s) nid then
    match getNeuron (Synapse.postId s) store with
    | Some targetNeuron =>
        let modulatedWeight :=
          Synapse.weight s * getNeuromodulationFactor st targetNeuron in
        let amplitude :=
          Rabs modulatedWeight
          * (if isExcitatory (Synapse.type s) then 50 else 30) in
        (modify (Synapse.postId s)
                (N.receiveInput amplitude (Synapse.delay s)
                                (isExcitatory (Synapse.type s)))
                store,
         path ++ [Synapse.postId s])
    | None => acc
    end
  else acc.

(** [handleSpike(neuron)], the neuron being the one stored under [nid].
    The method first reads [neuron.getState()] and does not use the result. *)
Definition handleSpike (st : t) (nid : string) : t :=
  let (store, path) :=
    fold_left (propagate st nid) (synapses st) (allNeurons st, [nid]) in
  set_spikes (spikes st ++ [Spike.mk nid (globalTime st) 1 path])
             (set_allNeurons store st).

(** The body of the [allNeurons.forEach] of [processInput] for the neuron
    stored under [nid], in simulation step [step]. *)
Definition processNeuron (step : nat) (thetaMod gammaMod alphaMod : R)
           (st : t) (nid : string) : t :=
  match getNeuron nid (allNeurons st) with
  | None => st
  | Some nr0 =>
      let nr1 := N.processSynapticInputs (globalTime st) nr0 in
      let externalCurrent := 0 in
      let externalCurrent :=
        if JS.includes (N.id nr1) "hippocampus"
        then externalCurrent + thetaMod * 5 else externalCurrent in
      let externalCurrent :=
        if JS.includes (N.id nr1) "cortex"
        then externalCurrent + gammaMod * 3 else externalCurrent in
      let externalCurrent :=
        if JS.includes (N.id nr1) "thalamus"
        then externalCurrent + alphaMod * 4 else externalCurrent in
      let externalCurrent :=
        externalCurrent * getNeuromodulationFactor st nr1 in
      let (nr2, spiked) := N.updateAdEx (dt st) externalCurrent nr1 in
      let st1 := set_allNeurons (modify nid (fun _ => nr2) (allNeurons st))
                                st in
      let st2 := if spiked then handleSpike st1 nid else st1 in
      if (step mod 10 =? 0)%nat then
        match getNeuron nid (allNeurons st2) with
        | Some nr3 =>
            set_activities
              (activities st2
               ++ [NeuronActivity.mk (N.id nr3) (globalTime st2)
                                     (N.V nr3) spiked])
              st2
        | None => st2
        end
      else st2
  end.

(** The body of the [synapses.forEach] of [applySTDP]. *)
Definition stdpSynapse (st : t) (s : Synapse.t) : Synapse.t :=
  match getNeuron (Synapse.preId s) (allNeurons st),
        getNeuron (Synapse.postId s) (allNeurons st) with
  | Some preNeuron, Some postNeuron =>
      let preSpike := within (globalTime st) (N.lastSpikeTime preNeuron) 1 in
      let postSpike :=
        within (globalTime st) (N.lastSpikeTime postNeuron) 1 in
      if preSpike || postSpike then
        let plasticityFactor := dopamine st * acetylcholine st in
        let s' := N.applySTDP preNeuron preSpike postSpike s in
        Synapse.set_weight
          (Synapse.weight s' * (1 + plasticityFactor * 0.01)) s'
      else s
  | _, _ => s
  end.

Definition applySTDP (st : t) : t :=
  set_synapses (map (stdpSynapse st) (synapses st)) st.

(** [updateNeuromodulators].  [activityRate] is a quotient by the number
    of neurons; with no neuron it is [NaN] (no activity: both comparisons
    fail) or [Infinity] (some activity: above the upper band). *)
Definition updateNeuromodulators (st : t) : t :=
  let totalActivity :=
    List.length (filter NeuronActivity.fired (activities st)) in
  let size := List.length (allNeurons st) in
  let activityRate := INR totalActivity / INR size in
  let above :=
    if (size =? 0)%nat then negb (totalActivity =? 0)%nat
    else JS.gtb activityRate 0.3 in
  let below :=
    if (size =? 0)%nat then false else JS.ltb activityRate 0.1 in
  let serotonin' :=
    if above then Rmin 1 (serotonin st + 0.01)
    else if below then Rmax 0 (serotonin st - 0.01)
    else serotonin st in
  mk (regions st) (allNeurons st) (synapses st) (spikes st) (activities st)
     (globalTime st) (dt st)
     (dopamine st * 0.99)
     serotonin'
     (0.5 + 0.3 * sin (phase (theta st)))
     (norepinephrine st * 0.99)
     (theta st) (gamma st) (alpha st).

(** One iteration of the step loop of [processInput]. *)
Definition simStep (st : t) (step : nat) : t :=
  let st1 := set_globalTime (globalTime st + dt st) st in
  let st2 := updateOscillations st1 in
  let thetaMod := sin (phase (theta st2)) in
  let gammaMod := sin (phase (gamma st2)) in
  let alphaMod := sin (phase (alpha st2)) in
  let st3 :=
    fold_left (processNeuron step thetaMod gammaMod alphaMod)
              (map N.id (allNeurons st2)) st2 in
  updateNeuromodulators (applySTDP st3).

(** The body of the [input.forEach] of [processInput]. *)
Definition inject (sensoryNeurons : list string) (st : t)
           (iv : nat * R) : t :=
  let (i, value) := iv in
  if (i <? List.length sensoryNeurons)%nat then
    match nth_error sensoryNeurons i with
    | Some nid =>
        let current := value * 50 * (1 + acetylcholine st) in
        set_allNeurons
          (modify nid (N.receiveInput current 0 true) (allNeurons st)) st
    | None => st
    end
  else st.

(** The input application of [processInput]. *)
Definition injectInput (input : list R) (st : t) : t :=
  match getRegion "sensory_cortex" (regions st) with
  | Some sensory0 =>
      fold_left (inject (neurons sensory0))
                (combine (seq 0 (List.length input)) input) st
  | None => st
  end.

(** The first [k] iterations of the step loop. *)
Definition runSteps (k : nat) (st : t) : t :=
  fold_left simStep (seq 0 k) st.

(** [processInput(input)]: the processor after the call; the returned
    array is its [activities]. *)
Definition processInput (input : list R) (st : t) : t :=
  runSteps 1000 (injectInput input (set_spikes [] (set_activities [] st))).

(** The body of the [synapses.forEach] of [applyReward]. *)
Definition rewardSynapse (reward : R) (s : Synapse.t) : Synapse.t :=
  if JS.gtb (Synapse.preTrace s) 0.5 && JS.gtb (Synapse.postTrace s) 0.5
  then
    Synapse.set_weight
      (Rmax (-2) (Rmin 2 (Synapse.weight s * (1 + reward * 0.1)))) s
  else s.

Definition applyReward (reward : R) (st : t) : t :=
  mk (regions st) (allNeurons st) (map (rewardSynapse reward) (synapses st))
     (spikes st) (activities st) (globalTime st) (dt st)
     (Rmax 0 (Rmin 1 (dopamine st + reward)))
     (serotonin st) (acetylcholine st) (norepinephrine st)
     (theta st) (gamma st) (alpha st).

Definition setArousal (level : R) (st : t) : t :=
  mk (regions st) (allNeurons st) (synapses st) (spikes st) (activities st)
     (globalTime st) (dt st) (dopamine st) (serotonin st)
     (acetylcholine st) (Rmax 0 (Rmin 1 level))
     (theta st) (gamma st) (alpha st).

Definition setAttention (level : R) (st : t) : t :=
  mk (regions st) (allNeurons st) (synapses st) (spikes st) (activities st)
     (globalTime st) (dt st) (dopamine st) (serotonin st)
     (Rmax 0 (Rmin 1 level)) (norepinephrine st)
     (theta st) (gamma st) (alpha st).

Definition reset (st : t) : t :=
  mk (regions st) (map N.reset (allNeurons st)) (synapses st) [] []
     0 (dt st) 0.5 0.5 0.5 0.5 (theta st) (gamma st) (alpha st).

(** ** Inspection *)

(** [getRegionForNeuron(neuronId)]: the name of the first region whose map
    has the key. *)
Definition getRegionForNeuron (st : t) (neuronId : string) : string :=
  match find (fun r => existsb (String.eqb neuronId) (neurons r))
             (regions st) with
  | Some r => name r
  | None => "unknown"
  end.

(** An entry of [connections] in the object returned by
    [getNetworkState()]. *)
Module Connection.
Record t : Type := mk {
  source : string;
  target : string;
  weight : R;
  type : SynapseType;
  active : bool
}.
End Connection.

(** The object returned by [getNetworkState()]; each neuron state comes with
    its [region]. *)
Module NetworkState.
Record t : Type := mk {
  neurons : list (N.State.t * string);
  connections : list Connection.t;
  spikes : list Spike.t;
  oscillations : Oscillation * Oscillation * Oscillation;
  neuromodulators : R * R * R * R;
  regions : list string
}.
End NetworkState.

(** [spikes.some(spike => spike.neuronId === s.preId &&
    globalTime - spike.timestamp < 10)]. *)
Definition recentlyFired (st : t) (preId : string) : bool :=
  existsb (fun spike =>
             String.eqb (Spike.neuronId spike) preId
             && JS.ltb (globalTime st - Spike.timestamp spike) 10)
          (spikes st).

(** [getNetworkState()]; [oscillations] lists theta, gamma, alpha and
    [neuromodulators] dopamine, serotonin, acetylcholine, norepinephrine. *)
Definition getNetworkState (st : t) : NetworkState.t :=
  NetworkState.mk
    (map (fun nr => (N.getState nr, getRegionForNeuron st (N.id nr)))
         (allNeurons st))
    (map (fun s =>
            Connection.mk (Synapse.preId s) (Synapse.postId s)
                          (Synapse.weight s) (Synapse.type s)
                          (recentlyFired st (Synapse.preId s)))
         (synapses st))
    (spikes st)
    (theta st, gamma st, alpha st)
    (dopamine st, serotonin st, acetylcholine st, norepinephrine st)
    (map name (regions st)).

(** [getSpikes()] and [getNeurons()]. *)
Definition getSpikes (st : t) : list Spike.t := spikes st.

Definition getNeurons (st : t) : list N.t := allNeurons st.

End BiologicalNeuronProcessor.

(* ================================================================== *)
(** ** The firing rate on IEEE-754 doubles *)

Module FiringRate.

Local Open Scope float_scope.

(** [calculateFiringRate()], as a function of the two fields it reads. *)
Definition calculateFiringRate (currentTime lastSpikeTime : float)
  : float :=
  let timeSinceSpike := currentTime - lastSpikeTime in
  if timeSinceSpike <? 1000 then 1000 / timeSinceSpike else 0.

(** The two time-dependent fields of the object returned by [getState()]. *)
Record TimedState : Type := mkTimed {
  isRefractory : bool;
  firingRate : float
}.

Definition getState (currentTime lastSpikeTime : float) : TimedState :=
  mkTimed (currentTime - lastSpikeTime <? 2)
          (calculateFiringRate currentTime lastSpikeTime).

End FiringRate.

(* ================================================================== *)
(** ** The conductance-based mode of BiologicalNeuron.ts *)

(** [updateHodgkinHuxley] reads the four optional channel parameters of
    [NeuronParameters] and the gating fields [n], [m], [h] of the neuron;
    here they travel beside the neuron.  The result is [None] where the
    source leaves the finite numbers: a reversal potential that is
    [undefined], or a rate function evaluated at its [0 / 0] point. *)
Module HodgkinHuxley.

Record Channels : Type := mkChannels {
  g_Na : option R;
  g_K : option R;
  E_Na : option R;
  E_K : option R
}.

Record t : Type := mk {
  neuron : BiologicalNeuron.t;
  n : R;
  m : R;
  h : R;
  channels : Channels
}.

(** The field initialisers [n = 0], [m = 0], [h = 1]. *)
Definition new (nr : BiologicalNeuron.t) (ch : Channels) : t :=
  mk nr 0 0 1 ch.

(** [!x] for an optional number: [undefined] or zero. *)
Definition falsy (x : option R) : bool :=
  match x with
  | None => true
  | Some v => if Req_dec_T v 0 then true else false
  end.

Definition alpha_n (v : R) : R :=
  0.01 * (v + 55) / (1 - exp (- (v + 55) / 10)).

Definition beta_n (v : R) : R := 0.125 * exp (- (v + 65) / 80).

Definition alpha_m (v : R) : R :=
  0.1 * (v + 40) / (1 - exp (- (v + 40) / 10)).

Definition beta_m (v : R) : R := 4 * exp (- (v + 65) / 18).

Definition alpha_h (v : R) : R := 0.07 * exp (- (v + 65) / 20).

Definition beta_h (v : R) : R := 1 / (1 + exp (- (v + 35) / 10)).

(** The membrane derivative of the conductance-based step, from the gating
    variables after their update. *)
Definition dV (p : BiologicalNeuron.NeuronParameters)
           (gNa gK ENa EK n' m' h' v I_ext Isyn : R) : R :=
  let I_Na := gNa * m' ^ 3 * h' * (v - ENa) in
  let I_K := gK * n' ^ 4 * (v - EK) in
  let I_L := BiologicalNeuron.gL p * (v - BiologicalNeuron.EL p) in
  (- I_Na - I_K - I_L + I_ext + Isyn) / BiologicalNeuron.C p.

(** [updateHodgkinHuxley(dt, I_ext)]. *)
Definition updateHodgkinHuxley (dt I_ext : R) (x : t)
  : option (t * bool) :=
  let nr := neuron x in
  let ch := channels x in
  if falsy (g_Na ch) || falsy (g_K ch) then
    let (nr', spiked) := BiologicalNeuron.updateAdEx dt I_ext nr in
    Some (mk nr' (n x) (m x) (h x) ch, spiked)
  else
    match g_Na ch, g_K ch, E_Na ch, E_K ch with
    | Some gNa, Some gK, Some ENa, Some EK =>
        let V_prev := BiologicalNeuron.V nr in
        if Req_dec_T V_prev (-55) then None
        else if Req_dec_T V_prev (-40) then None
        else
          let n' := n x + dt * (alpha_n V_prev * (1 - n x)
                                - beta_n V_prev * n x) in
          let m' := m x + dt * (alpha_m V_prev * (1 - m x)
                                - beta_m V_prev * m x) in
          let h' := h x + dt * (alpha_h V_prev * (1 - h x)
                                - beta_h V_prev * h x) in
          let dv := dV (BiologicalNeuron.params nr) gNa gK ENa EK n' m' h'
                       V_prev I_ext (BiologicalNeuron.synapticCurrent nr) in
          let v' := V_prev + dv * dt in
          let spiked :=
            JS.ltb V_prev (-20) && JS.leb (-20) v' && JS.gtb dv 0 in
          Some
            (mk (BiologicalNeuron.mk
                   (BiologicalNeuron.id nr) (BiologicalNeuron.type nr)
                   (BiologicalNeuron.params nr)
                   v'
                   (BiologicalNeuron.w nr)
                   (if spiked
                    then Finite (BiologicalNeuron.currentTime nr)
                    else BiologicalNeuron.lastSpikeTime nr)
                   (if spiked then 1 else BiologicalNeuron.spikeTrace nr)
                   (BiologicalNeuron.currentTime nr)
                   (BiologicalNeuron.synapticCurrent nr)
                   (BiologicalNeuron.excitatoryInputs nr)
                   (BiologicalNeuron.inhibitoryInputs nr))
                n' m' h' ch,
             spiked)
    | _, _, _, _ => None
    end.

End HodgkinHuxley.

(* ================================================================== *)
(** * Vocabulary of the properties *)

Module N := BiologicalNeuron.
Module P := BiologicalNeuronProcessor.

(** ** Queues of pending deliveries *)

(** The sum of the amplitudes of a list of inputs. *)
Definition amplitude (q : list N.QueuedInput) : R :=
  fold_right (fun i acc => N.qweight i + acc) 0 q.

(** The inputs that are due at [t], and those that are not. *)
Definition due (t : R) (q : list N.QueuedInput) : list N.QueuedInput :=
  filter (fun i => JS.leb (N.time i) t) q.

Definition pending (t : R) (q : list N.QueuedInput) : list N.QueuedInput :=
  filter (fun i => JS.gtb (N.time i) t) q.

(** ** Repeated integration *)


(** ** Observations of a processor *)

(** The four neuromodulator levels. *)
Definition levels (st : P.t) : R * R * R * R :=
  (P.dopamine st, P.serotonin st, P.acetylcholine st, P.norepinephrine st).

(** Membership of the four levels in [0, 1]. *)
Definition unit_levels (l : R * R * R * R) : Prop :=
  let '(d, s, a, n) := l in
  0 <= d <= 1 /\ 0 <= s <= 1 /\ 0 <= a <= 1 /\ 0 <= n <= 1.

Definition levels_in_unit (st : P.t) : Prop := unit_levels (levels st).

(** What the visit of a neuron and the injection of an input cannot change:
    everything but the neurons and the two histories. *)
Definition environment (st : P.t) :=
  (P.regions st, P.synapses st, P.globalTime st, P.dt st, levels st,
   P.theta st, P.gamma st, P.alpha st).

(** The number of records one neuron adds to the activity history in step
    [step], and the number of sampled steps among [ks]. *)
Definition sampled (step : nat) : nat :=
  if (step mod 10 =? 0)%nat then 1%nat else 0%nat.

Definition samples (ks : list nat) : nat := list_sum (map sampled ks).

(** The excitatory input that [processInput] queues for the component
    [value] when the acetylcholine level is [ach]. *)
Definition injected (ach value : R) : N.t -> N.t :=
  N.receiveInput (value * 50 * (1 + ach)) 0 true.

(** The ids that [createRegion(nm, count, _, _)] gives to its neurons. *)
Definition regionIds (nm : string) (count : nat) : list string :=
  map (fun i => (nm ++ "_" ++ JS.string_of_nat i)%string) (seq 0 count).

(** A list of strings without repetition, decided. *)
Fixpoint distinct (l : list string) : bool :=
  match l with
  | [] => true
  | x :: rest => negb (existsb (String.eqb x) rest) && distinct rest
  end.

(** ** Reachable states *)

(** The states of a processor between two timesteps and between two calls
    of its interface: the state after the constructor, after the first [k]
    timesteps of a [processInput], and after each of the other calls.  (A
    call may start here from a state inside an episode as well, which the
    single-threaded code never does: the set is a superset.) *)
Inductive Reachable : P.t -> Prop :=
| reach_create (syns : list Synapse.t) :
    Reachable (P.create syns)
| reach_steps (st : P.t) (input : list R) (k : nat) :
    Reachable st -> (k <= 1000)%nat ->
    Reachable (P.runSteps k
                 (P.injectInput input
                    (P.set_spikes [] (P.set_activities [] st))))
| reach_applyReward (st : P.t) (reward : R) :
    Reachable st -> Reachable (P.applyReward reward st)
| reach_setArousal (st : P.t) (level : R) :
    Reachable st -> Reachable (P.setArousal level st)
| reach_setAttention (st : P.t) (level : R) :
    Reachable st -> Reachable (P.setAttention level st)
| reach_reset (st : P.t) :
    Reachable st -> Reachable (P.reset st).

(** ** A statement of the specification, as it is written *)

(** [reset()] reinitializes the continuous state of every neuron, spike
    time included, and the whole modulation state, oscillator phases
    included. *)
Definition reset_reinitializes_all (st : P.t) : Prop :=
  let st' := P.reset st in
  (forall nr, In nr (P.allNeurons st') ->
     N.V nr = N.EL (N.params nr) /\ N.w nr = 0 /\ N.spikeTrace nr = 0
     /\ N.synapticCurrent nr = 0 /\ N.lastSpikeTime nr = NegInfinity
     /\ N.excitatoryInputs nr = [] /\ N.inhibitoryInputs nr = [])
  /\ P.phase (P.theta st') = 0 /\ P.phase (P.gamma st') = 0
  /\ P.phase (P.alpha st') = 0
  /\ P.dopamine st' = 0.5 /\ P.serotonin st' = 0.5
  /\ P.acetylcholine st' = 0.5 /\ P.norepinephrine st' = 0.5
  /\ P.spikes st' = [] /\ P.activities st' = []
  /\ map Synapse.weight (P.synapses st') = map Synapse.weight (P.synapses st)
  /\ P.regions st' = P.regions st
  /\ map N.id (P.allNeurons st') = map N.id (P.allNeurons st).

(** ** Concrete neurons and processors *)

(** A regular-spiking pyramidal cell whose potential is above the peak. *)
Definition peaked : N.t :=
  N.mk "hippocampus_1" pyramidal
       (N.adjustByType pyramidal N.NeuronPresets.RegularSpiking)
       21 0 NegInfinity 0 0 0 [] [].

(** A regular-spiking pyramidal cell as its constructor leaves it: at the
    leak potential, with no adaptation and no synaptic current. *)
Definition resting : N.t :=
  N.new "hippocampus_1" pyramidal N.NeuronPresets.RegularSpiking.

(** The same cell later in its life, having spiked at [last]. *)
Definition active (last : SpikeTime) : N.t :=
  N.mk "hippocampus_1" pyramidal
       (N.adjustByType pyramidal N.NeuronPresets.RegularSpiking)
       (-60) 4 last 0.3 10 0 [] [].

(** Its neighbour, which has never spiked. *)
Definition silent : N.t :=
  N.new "hippocampus_2" pyramidal N.NeuronPresets.RegularSpiking.

(** A processor in the middle of its life: one hippocampal cell that spiked
    at 3.2 ms, the three oscillators at phases 1, 2 and 3. *)
Definition busy : P.t :=
  P.mk [P.mkRegion "hippocampus" ["hippocampus_1"%string] "Memory"]
       [N.mk "hippocampus_1" pyramidal
             (N.adjustByType pyramidal N.NeuronPresets.RegularSpiking)
             (-60) 4 (Finite 3.2) 0.3 100 2 [] []]
       [] [] [] 100 0.1 0.4 0.5 0.6 0.4
       (P.mkOsc 1 7) (P.mkOsc 2 40) (P.mkOsc 3 10).

(** Two hippocampal cells at time 10 ms, the first one having spiked at
    [last], with one synapse [s] from the first to the second. *)
Definition pair (last : SpikeTime) (s : Synapse.t) : P.t :=
  P.mk [P.mkRegion "hippocampus" ["hippocampus_1"; "hippocampus_2"]%string
                   "Memory"]
       [active last; silent]
       [s] [] [] 10 0.1 0.5 0.5 0.5 0.5
       (P.mkOsc 1 7) (P.mkOsc 2 40) (P.mkOsc 3 10).

(** A synapse between the two cells of [pair]. *)
Definition link (weight preTrace postTrace : R) : Synapse.t :=
  Synapse.mk "hippocampus_1" "hippocampus_2" weight 1.5 excitatory 0.02
             preTrace postTrace.

(** The pair on a timestep on which neither cell spiked within the window,
    and on one on which the first cell spiked 0.5 ms ago. *)
Definition quiet : P.t := pair NegInfinity (link 1 0.5 0.5).

Definition learning : P.t := pair (Finite 9.5) (link 1 0.5 0.5).

(** The same with a synapse whose weight has reached the bound 2. *)
Definition saturated : P.t := pair (Finite 9.5) (link 2 0 0).

(** A processor after a reward and an episode, and one after an episode. *)
Definition rewarded : P.t :=
  P.processInput [1; 0.5] (P.applyReward 10 (P.create [])).


(** A processor with two sensory neurons, as [createRegion] makes them. *)
Definition twoSensors : P.t :=
  P.mk [P.mkRegion "sensory_cortex"
                   ["sensory_cortex_0"; "sensory_cortex_1"]%string "Input"]
       (P.regionNeurons "sensory_cortex" 2 sensory)
       [] [] [] 0 0.1 0.5 0.5 0.5 0.5
       (P.mkOsc 0 7) (P.mkOsc 0 40) (P.mkOsc 0 10).

(** That processor after the injection of a three-component input. *)
Definition twoSensorsInjected : P.t :=
  P.injectInput [1; 2; 3] (P.set_spikes [] (P.set_activities [] twoSensors)).

(* ================================================================== *)
(** * Vocabulary of the further properties *)

(** ** What identifies a neuron, and what a queued input cannot change *)

Definition identity (nr : N.t) : string * NeuronType * N.NeuronParameters :=
  (N.id nr, N.type nr, N.params nr).

(** ** The deliveries of a spike, neuron by neuron *)

(** The amplitude that a spike sends over synapse [s] to the neuron [x]. *)
Definition amplitudeOf (st : P.t) (s : Synapse.t) (x : N.t) : R :=
  Rabs (Synapse.weight s * P.getNeuromodulationFactor st x)
  * (if P.isExcitatory (Synapse.type s) then 50 else 30).

(** The synapses among [syns] that lead from the neuron [nid] to [x] and
    are excitatory ([exc = true]) or inhibitory ([exc = false]). *)
Definition incoming (nid : string) (exc : bool) (x : N.t)
           (syns : list Synapse.t) : list Synapse.t :=
  filter (fun s =>
            String.eqb (Synapse.preId s) nid
            && String.eqb (N.id x) (Synapse.postId s)
            && Bool.eqb (P.isExcitatory (Synapse.type s)) exc)
         syns.

(** The inputs that a spike of [nid] queues on [x] over the synapses
    [syns], in synapse order. *)
Definition arriving (st : P.t) (nid : string) (exc : bool) (x : N.t)
           (syns : list Synapse.t) : list N.QueuedInput :=
  map (fun s => N.mkInput (N.currentTime x + Synapse.delay s)
                          (amplitudeOf st s x))
      (incoming nid exc x syns).

(** The neuron [x] after a spike of [nid] has gone over the synapses
    [syns]. *)
Definition spikeReceived (st : P.t) (nid : string) (syns : list Synapse.t)
           (x : N.t) : N.t :=
  N.mk (N.id x) (N.type x) (N.params x) (N.V x) (N.w x)
       (N.lastSpikeTime x) (N.spikeTrace x) (N.currentTime x)
       (N.synapticCurrent x)
       (N.excitatoryInputs x ++ arriving st nid true x syns)
       (N.inhibitoryInputs x ++ arriving st nid false x syns).

(** The targets that a spike of [nid] reaches over [syns]: the [postId] of
    its outgoing synapses whose target is among the keys [ids]. *)
Definition reached (ids : list string) (nid : string)
           (syns : list Synapse.t) : list string :=
  map Synapse.postId
      (filter (fun s =>
                 String.eqb (Synapse.preId s) nid
                 && existsb (String.eqb (Synapse.postId s)) ids)
              syns).

(** ** The life of a neuron object *)

(** [Evolves dt x y]: the neuron [y] is the neuron [x] after a sequence of
    calls of its own methods, the integrate step being called with the
    timestep [dt]. *)
Inductive Evolves (dt : R) (x : N.t) : N.t -> Prop :=
| ev_refl : Evolves dt x x
| ev_receive (weight delay : R) (isExcitatory : bool) (y : N.t) :
    Evolves dt x y ->
    Evolves dt x (N.receiveInput weight delay isExcitatory y)
| ev_process (currentTime : R) (y : N.t) :
    Evolves dt x y -> Evolves dt x (N.processSynapticInputs currentTime y)
| ev_update (I_ext : R) (y : N.t) :
    Evolves dt x y -> Evolves dt x (fst (N.updateAdEx dt I_ext y))
| ev_reset (y : N.t) :
    Evolves dt x y -> Evolves dt x (N.reset y).

(** The clock of every neuron, under its key. *)
Definition clocks (st : P.t) : list (string * R) :=
  map (fun x => (N.id x, N.currentTime x)) (P.allNeurons st).

(** Every neuron's clock shows the simulation time. *)
Definition synchronized (st : P.t) : Prop :=
  Forall (fun x => N.currentTime x = P.globalTime st) (P.allNeurons st).

(** ** The oscillators along an episode *)

(** The oscillator [o] after [k] timesteps of length [dt]. *)
Definition advanced (k : nat) (dt : R) (o : P.Oscillation) : P.Oscillation :=
  Nat.iter k (fun o' => P.advance o' dt) o.

(** A phase in [0, 2 PI). *)
Definition wrapped (o : P.Oscillation) : Prop :=
  0 <= P.phase o < 2 * PI.

(** ** Regions and the substring tests on the ids *)

(** The substring tests that the step loop and the modulation factor make
    on the id [i] give what the region of [i] says: the booleans of the
    tests against the region names. *)
Definition regionAgrees (st : P.t) (i : string) : bool :=
  let r := P.getRegionForNeuron st i in
  negb (String.eqb r "unknown")
  && Bool.eqb (JS.includes i "hippocampus") (String.eqb r "hippocampus")
  && Bool.eqb (JS.includes i "thalamus") (String.eqb r "thalamus")
  && Bool.eqb (JS.includes i "basal_ganglia") (String.eqb r "basal_ganglia")
  && Bool.eqb (JS.includes i "prefrontal")
              (String.eqb r "prefrontal_cortex")
  && Bool.eqb (JS.includes i "cortex")
              (String.eqb r "sensory_cortex"
               || String.eqb r "prefrontal_cortex"
               || String.eqb r "motor_cortex").

(** ** A neuron with queued inputs *)

(** A regular-spiking cell at time 0 with an excitatory input of 5 pA that
    arrives at 1.5 ms and an inhibitory one of 3 pA that arrives at
    0.5 ms. *)
Definition queued : N.t :=
  N.mk "hippocampus_1" pyramidal
       (N.adjustByType pyramidal N.NeuronPresets.RegularSpiking)
       (-70) 0 NegInfinity 0 0 0 [N.mkInput 1.5 5] [N.mkInput 0.5 3].

(** ** The layout of the activity history *)

(** The neuron and the time of every activity record, in order. *)
Definition stamps (st : P.t) : list (string * R) :=
  map (fun a => (NeuronActivity.neuronId a, NeuronActivity.timestamp a))
      (P.activities st).

(** The records of one recorded timestep, which ends at time [t]: one per
    key, in the order of the store. *)
Definition sample (ids : list string) (t : R) : list (string * R) :=
  map (fun i => (i, t)) ids.

(** The recorded ones among the timesteps [0 .. k-1]. *)
Definition recorded (k : nat) : list nat :=
  filter (fun step => (step mod 10 =? 0)%nat) (seq 0 k).

(** Every activity record that says [fired] has a spike record of the same
    neuron at the same time. *)
Definition witnessed (st : P.t) : Prop :=
  forall a,
    In a (P.activities st) -> NeuronActivity.fired a = true ->
    exists spike,
      In spike (P.spikes st)
      /\ Spike.neuronId spike = NeuronActivity.neuronId a
      /\ Spike.timestamp spike = NeuronActivity.timestamp a.

(** A processor whose only neuron is above its peak, with the histories
    of an earlier call. *)
Definition alone : P.t :=
  P.mk [P.mkRegion "hippocampus" ["hippocampus_1"%string] "Memory"]
       [peaked] [] [Spike.mk "hippocampus_1" 0 1 ["hippocampus_1"%string]]
       [NeuronActivity.mk "hippocampus_1" 0 (-70) false]
       0 0.1 0.5 0.5 0.5 0.5
       (P.mkOsc 0 7) (P.mkOsc 0 40) (P.mkOsc 0 10).

(** ** The conductance-based mode *)

Module HH := HodgkinHuxley.

(** Both conductances are set and not zero and both reversal potentials are
    set: [updateHodgkinHuxley] does not fall back. *)
Definition conductanceMode (x : HH.t) : Prop :=
  exists gNa gK ENa EK,
    HH.channels x = HH.mkChannels (Some gNa) (Some gK) (Some ENa) (Some EK)
    /\ gNa <> 0 /\ gK <> 0.

(** The potential is off the two points at which a rate function is
    [0 / 0]. *)
Definition regular (x : HH.t) : Prop :=
  N.V (HH.neuron x) <> -55 /\ N.V (HH.neuron x) <> -40.

(** The three gating variables are in [0, 1]. *)
Definition gated (x : HH.t) : Prop :=
  0 <= HH.n x <= 1 /\ 0 <= HH.m x <= 1 /\ 0 <= HH.h x <= 1.

(** A cell at -21 mV, just below the detection level, whose two reversal
    potentials are at -21 mV as well, so that only the leak and the
    injected current move it. *)
Definition clamped : HH.t :=
  HH.new (N.mk "hippocampus_1" pyramidal
               (N.adjustByType pyramidal N.NeuronPresets.RegularSpiking)
               (-21) 0 NegInfinity 0 0 0 [] [])
         (HH.mkChannels (Some 120) (Some 36) (Some (-21)) (Some (-21))).

(** That cell after a step of 1 ms under an injected current of 1000 pA. *)
Definition clampedNext : HH.t :=
  match HH.updateHodgkinHuxley 1 1000 clamped with
  | Some (x', _) => x'
  | None => clamped
  end.

(* ================================================================== *)
(** * Properties *)

(** ** Comparisons *)

Lemma ltb_true (x y : R) : JS.ltb x y = true <-> x < y.
Proof.
  unfold JS.ltb; destruct (Rlt_dec x y); split; intros; try easy; lra.
Qed.

Lemma ltb_false (x y : R) : JS.ltb x y = false <-> y <= x.
Proof.
  unfold JS.ltb; destruct (Rlt_dec x y); split; intros; try easy; lra.
Qed.

Lemma gtb_true (x y : R) : JS.gtb x y = true <-> y < x.
Proof. apply ltb_true. Qed.

Lemma gtb_false (x y : R) : JS.gtb x y = false <-> x <= y.
Proof. apply ltb_false. Qed.

Lemma leb_gtb (x y : R) : JS.gtb x y = negb (JS.leb x y).
Proof.
  unfold JS.gtb, JS.ltb, JS.leb.
  destruct (Rlt_dec y x), (Rle_dec x y); simpl; try reflexivity; lra.
Qed.

(** Decides the comparisons of a goal whose operands are numerals. *)
Ltac decide_cmp :=
  unfold within, JS.gtb, JS.ltb, JS.leb;
  repeat match goal with
         | |- context [Rlt_dec ?x ?y] => destruct (Rlt_dec x y); try lra
         | |- context [Rle_dec ?x ?y] => destruct (Rle_dec x y); try lra
         end.

Lemma exp_neg_lt_1 (x : R) : x < 0 -> exp x < 1.
Proof. intros Hx. rewrite <- exp_0. now apply exp_increasing. Qed.

Lemma clamp_unit (x : R) : 0 <= Rmax 0 (Rmin 1 x) <= 1.
Proof.
  unfold Rmax, Rmin. destruct (Rle_dec 1 x); destruct (Rle_dec 0 _); lra.
Qed.

(** ** Strings and construction, on examples *)

Example includes_cortex : JS.includes "prefrontal_cortex_3" "cortex" = true.
Proof. reflexivity. Qed.

Example includes_no_cortex : JS.includes "thalamus_2" "cortex" = false.
Proof. reflexivity. Qed.

Example regionIds_three :
  regionIds "sensory_cortex" 3
  = ["sensory_cortex_0"; "sensory_cortex_1"; "sensory_cortex_2"]%string.
Proof. reflexivity. Qed.

Example every_fifth_is_interneuron :
  map N.type (P.regionNeurons "hippocampus" 6 pyramidal)
  = [interneuron; pyramidal; pyramidal; pyramidal; pyramidal; interneuron].
Proof. reflexivity. Qed.

(* ------------------------------------------------------------------ *)
(** ** Delivery of queued inputs *)

Section Delivery.

Variable t : R.

Lemma drain_plus (q : list N.QueuedInput) (acc : R) :
  N.drain Rplus t q acc = (acc + amplitude (due t q), pending t q).
Proof.
  revert acc; induction q as [|i q IH]; intros acc; simpl.
  - f_equal; lra.
  - rewrite leb_gtb. destruct (JS.leb (N.time i) t); simpl.
    + rewrite IH. f_equal; lra.
    + rewrite IH. reflexivity.
Qed.

Lemma drain_minus (q : list N.QueuedInput) (acc : R) :
  N.drain Rminus t q acc = (acc - amplitude (due t q), pending t q).
Proof.
  revert acc; induction q as [|i q IH]; intros acc; simpl.
  - f_equal; lra.
  - rewrite leb_gtb. destruct (JS.leb (N.time i) t); simpl.
    + rewrite IH. f_equal; lra.
    + rewrite IH. reflexivity.
Qed.

Lemma pending_In (q : list N.QueuedInput) (i : N.QueuedInput) :
  In i (pending t q) <-> In i q /\ t < N.time i.
Proof.
  unfold pending. rewrite filter_In, gtb_true. tauto.
Qed.

Lemma due_In (q : list N.QueuedInput) (i : N.QueuedInput) :
  In i (due t q) <-> In i q /\ N.time i <= t.
Proof.
  unfold due. rewrite filter_In. unfold JS.leb.
  destruct (Rle_dec (N.time i) t); intuition (try discriminate; lra).
Qed.

End Delivery.

(** C7.  Processing the pending deliveries of a neuron at time [t] removes
    from both queues every delivery whose arrival time is at most [t], adds
    the amplitudes of the removed excitatory deliveries to the synaptic
    current and subtracts those of the removed inhibitory ones, and keeps the
    deliveries that arrive after [t], unchanged and in their order. *)
Theorem processSynapticInputs_delivers (t : R) (nr : N.t) :
  let nr' := N.processSynapticInputs t nr in
  N.excitatoryInputs nr' = pending t (N.excitatoryInputs nr)
  /\ N.inhibitoryInputs nr' = pending t (N.inhibitoryInputs nr)
  /\ N.synapticCurrent nr'
     = N.synapticCurrent nr
       + amplitude (due t (N.excitatoryInputs nr))
       - amplitude (due t (N.inhibitoryInputs nr))
  /\ (forall i, In i (N.excitatoryInputs nr')
                <-> In i (N.excitatoryInputs nr) /\ t < N.time i)
  /\ (forall i, In i (N.inhibitoryInputs nr')
                <-> In i (N.inhibitoryInputs nr) /\ t < N.time i)
  /\ (forall i, In i (due t (N.excitatoryInputs nr))
                <-> In i (N.excitatoryInputs nr) /\ N.time i <= t)
  /\ (forall i, In i (due t (N.inhibitoryInputs nr))
                <-> In i (N.inhibitoryInputs nr) /\ N.time i <= t)
  /\ N.V nr' = N.V nr /\ N.w nr' = N.w nr.
Proof.
  unfold N.processSynapticInputs.
  rewrite drain_plus, drain_minus. simpl.
  split; [reflexivity|]. split; [reflexivity|]. split; [reflexivity|].
  split; [intro; apply pending_In|]. split; [intro; apply pending_In|].
  split; [intro; apply due_In|]. split; [intro; apply due_In|].
  split; reflexivity.
Qed.

(* ------------------------------------------------------------------ *)
(** ** The integrate step *)

Lemma updateAdEx_spiked (dt I_ext : R) (nr : N.t) :
  snd (N.updateAdEx dt I_ext nr) = true <-> N.Vpeak (N.params nr) < N.V nr.
Proof. unfold N.updateAdEx; simpl. apply gtb_true. Qed.

(** The integrate step stamps a detected spike with the neuron's clock, so
    a state read right after the step, as [handleSpike] does, is read at the
    last spike time. *)
Lemma updateAdEx_spike_time (dt I_ext : R) (nr : N.t) :
  snd (N.updateAdEx dt I_ext nr) = true ->
  N.lastSpikeTime (fst (N.updateAdEx dt I_ext nr))
  = Finite (N.currentTime (fst (N.updateAdEx dt I_ext nr))).
Proof. unfold N.updateAdEx; simpl. now intros ->. Qed.

(** C2, as stated, fails: after the call that detects the spike of
    [peaked] the potential is below the reset potential. *)
Lemma reset_law_counterexample :
  snd (N.updateAdEx 0.1 0 peaked) = true
  /\ ~ (N.V (fst (N.updateAdEx 0.1 0 peaked)) = N.Vr (N.params peaked)
        /\ N.w (fst (N.updateAdEx 0.1 0 peaked))
           = N.w peaked + N.b (N.params peaked)).
Proof.
  split.
  - apply updateAdEx_spiked. simpl. lra.
  - intros [HV _]. revert HV.
    unfold N.updateAdEx, peaked. cbn. decide_cmp. cbn. unfold N.dV. cbn.
    assert (He : exp ((-58 - -50) / 2) < 1) by (apply exp_neg_lt_1; lra).
    lra.
Qed.

(** C2, amended.  A call of the integrate step that detects a spike leaves
    the neuron one forward-Euler step away from the reset state: the
    potential is the reset potential plus [dt] times the membrane derivative
    taken at the reset state, the adaptation variable is its value before the
    call plus the increment [b] plus [dt] times its derivative there; the
    spike time is the neuron's clock.  With [dt = 0] the potential is the
    reset potential and the adaptation has grown by [b] exactly. *)
Theorem reset_law_euler (dt I_ext : R) (nr : N.t) :
  snd (N.updateAdEx dt I_ext nr) = true ->
  let p := N.params nr in
  let nr' := fst (N.updateAdEx dt I_ext nr) in
  N.V nr' = N.Vr p
            + N.dV p (N.Vr p) (N.w nr + N.b p) I_ext (N.synapticCurrent nr)
              * dt
  /\ N.w nr' = N.w nr + N.b p + N.dw p (N.Vr p) (N.w nr + N.b p) * dt
  /\ N.lastSpikeTime nr' = Finite (N.currentTime nr)
  /\ N.spikeTrace nr' = 1 * exp (- dt / N.tau_plus p)
  /\ (dt = 0 -> N.V nr' = N.Vr p /\ N.w nr' = N.w nr + N.b p).
Proof.
  intros Hs p nr'. subst nr'. revert Hs.
  unfold N.updateAdEx; simpl.
  intros ->. fold p. repeat split; try reflexivity; subst dt; lra.
Qed.

Lemma reset_law_euler_witness :
  snd (N.updateAdEx 0 0 peaked) = true
  /\ N.V (fst (N.updateAdEx 0 0 peaked)) = -58
  /\ N.w (fst (N.updateAdEx 0 0 peaked)) = 5.
Proof.
  assert (Hs : snd (N.updateAdEx 0 0 peaked) = true)
    by (apply updateAdEx_spiked; simpl; lra).
  split; [exact Hs|].
  destruct (reset_law_euler 0 0 peaked Hs) as (_ & _ & _ & _ & H0).
  destruct (H0 eq_refl) as [HV Hw].
  split; [rewrite HV; reflexivity | rewrite Hw; simpl; lra].
Defined.






(* ------------------------------------------------------------------ *)
(** ** The firing rate at the time of a spike *)

Lemma float_of_spec (t : float) (x : spec_float) :
  Prim2SF t = x -> t = SF2Prim x.
Proof. intros <-. symmetry. apply SF2Prim_Prim2SF. Qed.

(** A finite double minus itself is [+0]. *)
Lemma sub_self_finite (t : float) :
  is_finite t = true -> (t - t)%float = zero.
Proof.
  intros Hf. apply Prim2SF_inj. rewrite sub_spec.
  destruct (Prim2SF t) as [s|s| |s m e] eqn:E.
  - destruct s; reflexivity.
  - apply float_of_spec in E. subst t.
    destruct s; vm_compute in Hf; discriminate.
  - apply float_of_spec in E. subst t. vm_compute in Hf. discriminate.
  - unfold SF64sub, SFsub. rewrite Z.sub_diag. reflexivity.
Qed.

(** The rate computed from a zero interval, whatever the two times. *)
Lemma firing_rate_zero_interval (currentTime lastSpikeTime : float) :
  (currentTime - lastSpikeTime)%float = zero ->
  FiringRate.calculateFiringRate currentTime lastSpikeTime = infinity.
Proof.
  intros H. unfold FiringRate.calculateFiringRate. rewrite H. reflexivity.
Qed.

(** A neuron that has never spiked reports the rate 0. *)
Lemma firing_rate_never_spiked :
  FiringRate.calculateFiringRate 12.5%float neg_infinity = 0%float.
Proof. reflexivity. Qed.

(** C9.  When the state of a neuron is read at a time equal to its last
    spike time, the time since the spike is [+0], the guard
    [timeSinceSpike < 1000] lets it through, and the firing rate is
    [1000 / 0]: the reported rate is [Infinity], not a finite number. *)
Theorem firing_rate_at_spike_time (t : float) :
  is_finite t = true ->
  (t - t)%float = zero
  /\ FiringRate.firingRate (FiringRate.getState t t) = (1000 / 0)%float
  /\ FiringRate.firingRate (FiringRate.getState t t) = infinity
  /\ is_finite (FiringRate.firingRate (FiringRate.getState t t)) = false.
Proof.
  intros Hf. pose proof (sub_self_finite t Hf) as H0.
  unfold FiringRate.getState, FiringRate.calculateFiringRate; simpl.
  rewrite H0. repeat split; reflexivity.
Qed.

Lemma firing_rate_at_spike_time_witness :
  is_finite 12.5%float = true
  /\ FiringRate.firingRate (FiringRate.getState 12.5 12.5) = infinity.
Proof.
  split; [reflexivity|].
  apply (firing_rate_at_spike_time 12.5%float). reflexivity.
Defined.

(* ------------------------------------------------------------------ *)
(** ** Reset *)

(** C3, as stated, fails on [busy]: the theta phase is still 1 after
    [reset()]. *)
Lemma reset_counterexample : ~ reset_reinitializes_all busy.
Proof.
  unfold reset_reinitializes_all. intros (_ & Hth & _).
  simpl in Hth. lra.
Qed.

(** C3, amended.  [reset()] puts every neuron back at its leak potential
    with [w], spike trace and synaptic current at 0, both pending-delivery
    queues empty and its clock at 0; it sets the four neuromodulator levels
    to 0.5 and the global time to 0 and empties the spike and activity
    histories.  It leaves the three oscillators (phase and frequency), every
    synapse (weight and both eligibility traces), the regions and the
    identity, type and parameters of every neuron unchanged. *)
Theorem reset_effect (st : P.t) :
  let st' := P.reset st in
  P.allNeurons st' = map N.reset (P.allNeurons st)
  /\ (forall nr, In nr (P.allNeurons st') ->
        N.V nr = N.EL (N.params nr) /\ N.w nr = 0 /\ N.spikeTrace nr = 0
        /\ N.synapticCurrent nr = 0 /\ N.currentTime nr = 0
        /\ N.excitatoryInputs nr = [] /\ N.inhibitoryInputs nr = [])
  /\ map N.id (P.allNeurons st') = map N.id (P.allNeurons st)
  /\ map N.type (P.allNeurons st') = map N.type (P.allNeurons st)
  /\ map N.params (P.allNeurons st') = map N.params (P.allNeurons st)
  /\ P.dopamine st' = 0.5 /\ P.serotonin st' = 0.5
  /\ P.acetylcholine st' = 0.5 /\ P.norepinephrine st' = 0.5
  /\ P.spikes st' = [] /\ P.activities st' = [] /\ P.globalTime st' = 0
  /\ P.theta st' = P.theta st /\ P.gamma st' = P.gamma st
  /\ P.alpha st' = P.alpha st
  /\ P.synapses st' = P.synapses st
  /\ P.regions st' = P.regions st.
Proof.
  simpl. split; [reflexivity|]. split.
  { intros nr Hin. apply in_map_iff in Hin. destruct Hin as (nr0 & <- & _).
    simpl. repeat split; reflexivity. }
  rewrite !map_map. repeat split; reflexivity.
Qed.

(* ------------------------------------------------------------------ *)
(** ** Plasticity *)

Section NeuronRule.

Variables (nr : N.t) (pre post : bool) (s : Synapse.t).

(** The neuron-level rule leaves the weight in [0, 2]. *)
Lemma neuron_stdp_weight_bound :
  0 <= Synapse.weight (N.applySTDP nr pre post s) <= 2.
Proof.
  unfold N.applySTDP. simpl.
  match goal with |- 0 <= Rmax 0 (Rmin ?x 2) <= 2 => generalize x end.
  intros x. unfold Rmax, Rmin.
  destruct (Rle_dec x 2); destruct (Rle_dec 0 _); lra.
Qed.

Lemma neuron_stdp_traces :
  Synapse.preTrace (N.applySTDP nr pre post s)
  = (if pre then 1
     else Synapse.preTrace s * exp (- 1 / N.tau_plus (N.params nr)))
  /\ Synapse.postTrace (N.applySTDP nr pre post s)
     = (if post then 1
        else Synapse.postTrace s * exp (- 1 / N.tau_minus (N.params nr))).
Proof.
  unfold N.applySTDP.
  destruct pre, post; simpl;
    destruct (JS.gtb (Synapse.postTrace s) 0);
    destruct (JS.gtb (Synapse.preTrace s) 0); simpl; split; reflexivity.
Qed.

End NeuronRule.

Section Pass.

Variables (st : P.t) (s : Synapse.t) (preNeuron postNeuron : N.t).

Hypothesis Hpre :
  P.getNeuron (Synapse.preId s) (P.allNeurons st) = Some preNeuron.
Hypothesis Hpost :
  P.getNeuron (Synapse.postId s) (P.allNeurons st) = Some postNeuron.

Let preSpike := within (P.globalTime st) (N.lastSpikeTime preNeuron) 1.
Let postSpike := within (P.globalTime st) (N.lastSpikeTime postNeuron) 1.

(** The pass over a synapse one of whose neurons spiked within the window:
    the neuron-level rule, then the neuromodulation factor on the weight. *)
Lemma stdpSynapse_active :
  preSpike || postSpike = true ->
  P.stdpSynapse st s
  = Synapse.set_weight
      (Synapse.weight (N.applySTDP preNeuron preSpike postSpike s)
       * (1 + P.dopamine st * P.acetylcholine st * 0.01))
      (N.applySTDP preNeuron preSpike postSpike s).
Proof.
  intros Hon. unfold P.stdpSynapse. rewrite Hpre, Hpost.
  fold preSpike postSpike. now rewrite Hon.
Qed.

(** The pass over a synapse neither of whose neurons did. *)
Lemma stdpSynapse_idle :
  preSpike || postSpike = false -> P.stdpSynapse st s = s.
Proof.
  intros Hoff. unfold P.stdpSynapse. rewrite Hpre, Hpost.
  fold preSpike postSpike. now rewrite Hoff.
Qed.

(** With both levels in [0, 1] the pass leaves an updated weight in
    [0, 2.02]. *)
Lemma plasticity_pass_bound :
  preSpike || postSpike = true ->
  0 <= P.dopamine st <= 1 -> 0 <= P.acetylcholine st <= 1 ->
  0 <= Synapse.weight (P.stdpSynapse st s) <= 2.02.
Proof.
  intros Hon Hd Ha. rewrite (stdpSynapse_active Hon).
  unfold Synapse.set_weight; cbn [Synapse.weight].
  pose proof (neuron_stdp_weight_bound preNeuron preSpike postSpike s) as Hb.
  assert (Hx : 0 <= P.dopamine st * P.acetylcholine st <= 1) by nra.
  revert Hb Hx. generalize (P.dopamine st * P.acetylcholine st).
  generalize (Synapse.weight (N.applySTDP preNeuron preSpike postSpike s)).
  intros y x Hb Hx. nra.
Qed.

End Pass.

(** A synapse whose neurons are not both in the store is left alone. *)
Lemma stdpSynapse_dangling (st : P.t) (s : Synapse.t) :
  P.getNeuron (Synapse.preId s) (P.allNeurons st) = None
  \/ P.getNeuron (Synapse.postId s) (P.allNeurons st) = None ->
  P.stdpSynapse st s = s.
Proof.
  unfold P.stdpSynapse. intros [H | H]; rewrite H.
  - reflexivity.
  - now destruct (P.getNeuron (Synapse.preId s) (P.allNeurons st)).
Qed.

(** C4, as stated, fails: on a timestep on which neither neuron spiked
    within the window, the presynaptic trace 0.5 is neither set to 1 nor
    decayed. *)
Lemma trace_update_counterexample :
  P.synapses (P.applySTDP quiet) = [P.stdpSynapse quiet (link 1 0.5 0.5)]
  /\ Synapse.preTrace (P.stdpSynapse quiet (link 1 0.5 0.5)) <> 1
  /\ Synapse.preTrace (P.stdpSynapse quiet (link 1 0.5 0.5))
     <> Synapse.preTrace (link 1 0.5 0.5) * exp (- 1 / 20)
  /\ ~ Synapse.preTrace (P.stdpSynapse quiet (link 1 0.5 0.5))
       < Synapse.preTrace (link 1 0.5 0.5).
Proof.
  simpl. split; [reflexivity|].
  assert (He : exp (-1 / 20) < 1) by (apply exp_neg_lt_1; lra).
  repeat split; lra.
Qed.

(** C4, amended.  The plasticity pass visits every synapse once.  A synapse
    whose two neurons exist is updated only when at least one of them
    spiked within 1 ms of the current time: then the trace of a side that
    spiked is set to 1 and the trace of a side that did not is multiplied
    by [exp (-1 / tau)], with [tau_plus] for the presynaptic and
    [tau_minus] for the postsynaptic trace, both taken from the presynaptic
    neuron.  On a timestep on which neither neuron spiked within the window
    the synapse is left as it is: weight and both traces are unchanged. *)
Theorem plasticity_pass_traces (st : P.t) (s : Synapse.t)
        (preNeuron postNeuron : N.t) :
  P.getNeuron (Synapse.preId s) (P.allNeurons st) = Some preNeuron ->
  P.getNeuron (Synapse.postId s) (P.allNeurons st) = Some postNeuron ->
  let preSpike := within (P.globalTime st) (N.lastSpikeTime preNeuron) 1 in
  let postSpike := within (P.globalTime st) (N.lastSpikeTime postNeuron) 1 in
  let s' := P.stdpSynapse st s in
  P.synapses (P.applySTDP st) = map (P.stdpSynapse st) (P.synapses st)
  /\ (preSpike || postSpike = true ->
      Synapse.preTrace s'
      = (if preSpike then 1
         else Synapse.preTrace s
              * exp (- 1 / N.tau_plus (N.params preNeuron)))
      /\ Synapse.postTrace s'
         = (if postSpike then 1
            else Synapse.postTrace s
                 * exp (- 1 / N.tau_minus (N.params preNeuron))))
  /\ (preSpike || postSpike = false -> s' = s).
Proof.
  intros Hpre Hpost preSpike postSpike s'. subst s'.
  split; [reflexivity|]. split.
  - intros Hon.
    rewrite (stdpSynapse_active st s preNeuron postNeuron Hpre Hpost Hon).
    apply (neuron_stdp_traces preNeuron preSpike postSpike s).
  - apply (stdpSynapse_idle st s preNeuron postNeuron Hpre Hpost).
Qed.

Lemma plasticity_pass_traces_witness :
  Synapse.preTrace (P.stdpSynapse learning (link 1 0.5 0.5)) = 1
  /\ Synapse.postTrace (P.stdpSynapse learning (link 1 0.5 0.5))
     = 0.5 * exp (- 1 / 20).
Proof.
  destruct (plasticity_pass_traces learning (link 1 0.5 0.5)
              (active (Finite 9.5)) silent eq_refl eq_refl)
    as (_ & Hon & _).
  assert (Hw : within (P.globalTime learning) (Finite 9.5) 1 = true)
    by (apply ltb_true; simpl; lra).
  cbn [N.lastSpikeTime active] in Hon. rewrite Hw in Hon.
  apply Hon. reflexivity.
Defined.

(** C1 fails on the code.  A synapse of weight 2 whose presynaptic neuron
    spiked 0.5 ms ago is clamped to 2 by the neuron-level rule and then
    multiplied by [1 + dopamine * acetylcholine * 0.01] by the processor's
    pass, with no clamp after the multiplication: with both levels at their
    baseline 0.5 the pass leaves the weight at 2.005, above the bound 2 of
    the rule (and of [applyReward], which clamps after it multiplies). *)
Theorem plasticity_pass_exceeds_bound :
  P.synapses (P.applySTDP saturated) = [P.stdpSynapse saturated (link 2 0 0)]
  /\ Synapse.weight
       (N.applySTDP (active (Finite 9.5)) true false (link 2 0 0)) = 2
  /\ Synapse.weight (P.stdpSynapse saturated (link 2 0 0)) = 2.005
  /\ 2 < Synapse.weight (P.stdpSynapse saturated (link 2 0 0)).
Proof.
  assert (Hn : Synapse.weight
                 (N.applySTDP (active (Finite 9.5)) true false (link 2 0 0))
               = 2).
  { unfold N.applySTDP, link; cbn. decide_cmp. cbn.
    unfold Rmax, Rmin. destruct (Rle_dec 2 2); [|lra].
    destruct (Rle_dec 0 2); lra. }
  assert (Hp : Synapse.weight (P.stdpSynapse saturated (link 2 0 0))
               = 2.005).
  { assert (Hw : within (P.globalTime saturated) (Finite 9.5) 1 = true)
      by (apply ltb_true; simpl; lra).
    assert (Hon : within (P.globalTime saturated)
                    (N.lastSpikeTime (active (Finite 9.5))) 1
                  || within (P.globalTime saturated)
                       (N.lastSpikeTime silent) 1
                  = true)
      by (cbn [N.lastSpikeTime active]; now rewrite Hw).
    rewrite (stdpSynapse_active saturated (link 2 0 0)
               (active (Finite 9.5)) silent eq_refl eq_refl Hon).
    cbn [N.lastSpikeTime active]. rewrite Hw.
    change (within (P.globalTime saturated) (N.lastSpikeTime silent) 1)
      with false.
    cbn [Synapse.weight Synapse.set_weight]. rewrite Hn. simpl. lra. }
  split; [reflexivity|]. split; [exact Hn|]. split; [exact Hp|].
  rewrite Hp. lra.
Qed.

(* ------------------------------------------------------------------ *)
(** ** The neuron store *)

Lemma getNeuron_id (i : string) (store : list N.t) (nr : N.t) :
  P.getNeuron i store = Some nr -> N.id nr = i.
Proof.
  unfold P.getNeuron. intros H. apply find_some in H.
  now apply String.eqb_eq.
Qed.

Lemma getNeuron_in (i : string) (store : list N.t) :
  In i (map N.id store) -> exists nr, P.getNeuron i store = Some nr.
Proof.
  unfold P.getNeuron. induction store as [|x store IH]; simpl; [easy|].
  intros [<- | Hin].
  - rewrite String.eqb_refl. now exists x.
  - destruct (String.eqb (N.id x) i); [now exists x | now apply IH].
Qed.

Section Modify.

Variables (j : string) (f : N.t -> N.t).

(** The method keeps the neuron under its key. *)
Hypothesis f_id : forall nr, N.id nr = j -> N.id (f nr) = j.

Lemma modify_ids (store : list N.t) :
  map N.id (P.modify j f store) = map N.id store.
Proof.
  induction store as [|x store IH]; simpl; [reflexivity|].
  destruct (String.eqb (N.id x) j) eqn:E; simpl.
  - apply String.eqb_eq in E. now rewrite (f_id x E), E.
  - now rewrite IH.
Qed.

Lemma getNeuron_modify_same (store : list N.t) :
  P.getNeuron j (P.modify j f store) = option_map f (P.getNeuron j store).
Proof.
  unfold P.getNeuron.
  induction store as [|x store IH]; simpl; [reflexivity|].
  destruct (String.eqb (N.id x) j) eqn:E; simpl.
  - apply String.eqb_eq in E. now rewrite (f_id x E), String.eqb_refl.
  - now rewrite E.
Qed.

Lemma getNeuron_modify_other (i : string) (store : list N.t) :
  i <> j -> P.getNeuron i (P.modify j f store) = P.getNeuron i store.
Proof.
  intros Hij. unfold P.getNeuron.
  induction store as [|x store IH]; simpl; [reflexivity|].
  destruct (String.eqb (N.id x) j) eqn:E; simpl.
  - apply String.eqb_eq in E. rewrite (f_id x E).
    assert (Hji : String.eqb j i = false)
      by (apply String.eqb_neq; congruence).
    rewrite E, Hji. reflexivity.
  - now rewrite IH.
Qed.

End Modify.

Lemma receiveInput_id (x d : R) (e : bool) (nr : N.t) :
  N.id (N.receiveInput x d e nr) = N.id nr.
Proof. unfold N.receiveInput. now destruct e. Qed.

Lemma processSynapticInputs_id (t : R) (nr : N.t) :
  N.id (N.processSynapticInputs t nr) = N.id nr.
Proof.
  unfold N.processSynapticInputs. rewrite drain_plus, drain_minus.
  reflexivity.
Qed.

Lemma distinct_NoDup (l : list string) : distinct l = true -> NoDup l.
Proof.
  induction l as [|x l IH]; simpl; intros H; constructor.
  - apply andb_true_iff in H. destruct H as [H _].
    apply negb_true_iff in H. intros Hin.
    assert (Hex : existsb (String.eqb x) l = true).
    { apply existsb_exists. exists x. split; [exact Hin|].
      apply String.eqb_refl. }
    congruence.
  - apply IH. now apply andb_true_iff in H.
Qed.

(* ------------------------------------------------------------------ *)
(** ** What a timestep leaves alone *)

Lemma environment_levels (st st' : P.t) :
  environment st' = environment st -> levels st' = levels st.
Proof.
  unfold environment, levels. intros H. injection H. intros. congruence.
Qed.

Lemma environment_regions (st st' : P.t) :
  environment st' = environment st -> P.regions st' = P.regions st.
Proof.
  unfold environment, levels. intros H. injection H. intros. assumption.
Qed.

Section SpikeHandling.

Variables (st : P.t) (nid : string).

Lemma propagate_ids (acc : list N.t * list string) (s : Synapse.t) :
  map N.id (fst (P.propagate st nid acc s)) = map N.id (fst acc).
Proof.
  unfold P.propagate. destruct acc as [store path].
  destruct (String.eqb (Synapse.preId s) nid); [|reflexivity].
  destruct (P.getNeuron (Synapse.postId s) store); [|reflexivity].
  simpl. apply modify_ids. intros nr Hnr. now rewrite receiveInput_id.
Qed.

Lemma propagate_fold_ids (syns : list Synapse.t)
      (acc : list N.t * list string) :
  map N.id (fst (fold_left (P.propagate st nid) syns acc))
  = map N.id (fst acc).
Proof.
  revert acc; induction syns as [|s syns IH]; intros acc; simpl.
  - reflexivity.
  - now rewrite IH, propagate_ids.
Qed.

Lemma handleSpike_ids :
  map N.id (P.allNeurons (P.handleSpike st nid)) = map N.id (P.allNeurons st).
Proof.
  unfold P.handleSpike.
  pose proof (propagate_fold_ids (P.synapses st) (P.allNeurons st, [nid]))
    as H.
  destruct (fold_left _ _ _) as [store path]. exact H.
Qed.

(** [handleSpike] appends one record to the spike history and drops none. *)
Lemma handleSpike_appends :
  exists spike,
    P.spikes (P.handleSpike st nid) = P.spikes st ++ [spike]
    /\ Spike.neuronId spike = nid
    /\ Spike.timestamp spike = P.globalTime st.
Proof.
  unfold P.handleSpike.
  destruct (fold_left _ _ _) as [store path]. simpl.
  eexists. split; [reflexivity|]. split; reflexivity.
Qed.

Lemma handleSpike_frame :
  environment (P.handleSpike st nid) = environment st
  /\ P.activities (P.handleSpike st nid) = P.activities st.
Proof.
  unfold P.handleSpike.
  destruct (fold_left _ _ _) as [store path]. split; reflexivity.
Qed.

End SpikeHandling.

Section Visit.

Variables (step : nat) (thetaMod gammaMod alphaMod : R).

Let visit := P.processNeuron step thetaMod gammaMod alphaMod.

(** The visit of the neuron stored under [nid]: identities and environment
    are kept, the activity history grows by one record on a sampled step,
    the spike history by at most one record. *)
Lemma processNeuron_frame (st : P.t) (nid : string) :
  In nid (map N.id (P.allNeurons st)) ->
  map N.id (P.allNeurons (visit st nid)) = map N.id (P.allNeurons st)
  /\ environment (visit st nid) = environment st
  /\ List.length (P.activities (visit st nid))
     = (List.length (P.activities st) + sampled step)%nat
  /\ (List.length (P.spikes (visit st nid))
      <= List.length (P.spikes st) + 1)%nat.
Proof.
  intros Hin. unfold visit, P.processNeuron, sampled.
  destruct (getNeuron_in _ _ Hin) as [nr0 E]. rewrite E.
  apply getNeuron_id in E.
  set (nr1 := N.processSynapticInputs (P.globalTime st) nr0).
  destruct (N.updateAdEx _ _ nr1) as [nr2 spiked] eqn:Eu.
  assert (Hid : N.id nr2 = nid).
  { change nr2 with (fst (nr2, spiked)). rewrite <- Eu.
    unfold nr1. simpl. now rewrite processSynapticInputs_id. }
  set (st1 := P.set_allNeurons _ st).
  set (st2 := if spiked then P.handleSpike st1 nid else st1).
  assert (H1 : map N.id (P.allNeurons st1) = map N.id (P.allNeurons st)).
  { unfold st1; simpl. apply modify_ids. intros; exact Hid. }
  assert (Hids : map N.id (P.allNeurons st2) = map N.id (P.allNeurons st)).
  { unfold st2. destruct spiked; [rewrite handleSpike_ids|]; exact H1. }
  assert (Henv : environment st2 = environment st).
  { unfold st2. destruct spiked; [|reflexivity].
    now rewrite (proj1 (handleSpike_frame st1 nid)). }
  assert (Hact : P.activities st2 = P.activities st).
  { unfold st2. destruct spiked; [|reflexivity].
    now rewrite (proj2 (handleSpike_frame st1 nid)). }
  assert (Hsp : (List.length (P.spikes st2)
                 <= List.length (P.spikes st) + 1)%nat).
  { unfold st2. destruct spiked; [|simpl; lia].
    destruct (handleSpike_appends st1 nid) as (sp & -> & _).
    rewrite length_app. simpl. lia. }
  destruct (step mod 10 =? 0)%nat.
  - rewrite <- Hids in Hin. destruct (getNeuron_in _ _ Hin) as [nr3 E3].
    rewrite E3. unfold P.set_activities. cbn [P.allNeurons P.activities
      P.spikes]. rewrite length_app, Hact.
    split; [exact Hids|]. split; [exact Henv|]. split; [reflexivity|].
    exact Hsp.
  - rewrite Hact. split; [exact Hids|]. split; [exact Henv|].
    split; [lia|exact Hsp].
Qed.

(** The [allNeurons.forEach] of a timestep. *)
Lemma forEach_neurons (ids : list string) :
  forall st : P.t,
    incl ids (map N.id (P.allNeurons st)) ->
    let st' := fold_left visit ids st in
    map N.id (P.allNeurons st') = map N.id (P.allNeurons st)
    /\ environment st' = environment st
    /\ List.length (P.activities st')
       = (List.length (P.activities st) + List.length ids * sampled step)%nat
    /\ (List.length (P.spikes st')
        <= List.length (P.spikes st) + List.length ids)%nat.
Proof.
  induction ids as [|nid ids IH]; intros st Hincl; simpl.
  - repeat split; lia.
  - assert (Hin : In nid (map N.id (P.allNeurons st)))
      by (apply Hincl; now left).
    destruct (processNeuron_frame st nid Hin) as (V1 & V2 & V3 & V4).
    destruct (IH (visit st nid)) as (I1 & I2 & I3 & I4).
    { rewrite V1. intros x Hx. apply Hincl. now right. }
    rewrite I1, I2, I3, V1, V2, V3. repeat split; lia.
Qed.

End Visit.

Lemma updateNeuromodulators_levels (st : P.t) :
  levels_in_unit st -> levels_in_unit (P.updateNeuromodulators st).
Proof.
  unfold levels_in_unit, levels, P.updateNeuromodulators; simpl.
  intros (Hd & Hs & Ha & Hn).
  pose proof (SIN_bound (P.phase (P.theta st))) as Hsin.
  split; [lra|]. split; [|split; lra].
  match goal with
  | |- context [if ?c then _ else _] => destruct c
  end.
  - unfold Rmin. destruct (Rle_dec 1 _); lra.
  - match goal with
    | |- context [if ?c then _ else _] => destruct c
    end; [|exact Hs].
    unfold Rmax. destruct (Rle_dec 0 _); lra.
Qed.

(** One timestep: the neurons keep their identities and the regions are
    kept, every neuron adds one activity record on a sampled step and none
    otherwise, and at most one spike record. *)
Lemma simStep_frame (st : P.t) (step : nat) :
  let n := List.length (P.allNeurons st) in
  map N.id (P.allNeurons (P.simStep st step)) = map N.id (P.allNeurons st)
  /\ P.regions (P.simStep st step) = P.regions st
  /\ List.length (P.activities (P.simStep st step))
     = (List.length (P.activities st) + n * sampled step)%nat
  /\ (List.length (P.spikes (P.simStep st step))
      <= List.length (P.spikes st) + n)%nat.
Proof.
  unfold P.simStep. simpl.
  set (st2 := P.updateOscillations _).
  destruct (forEach_neurons step (sin (P.phase (P.theta st2)))
              (sin (P.phase (P.gamma st2))) (sin (P.phase (P.alpha st2)))
              (map N.id (P.allNeurons st2)) st2 (incl_refl _))
    as (I1 & I2 & I3 & I4).
  apply environment_regions in I2.
  rewrite length_map in I3, I4.
  repeat split; assumption.
Qed.

Lemma simStep_levels (st : P.t) (step : nat) :
  levels_in_unit st -> levels_in_unit (P.simStep st step).
Proof.
  intros H. unfold P.simStep.
  apply updateNeuromodulators_levels.
  set (st2 := P.updateOscillations _).
  destruct (forEach_neurons step (sin (P.phase (P.theta st2)))
              (sin (P.phase (P.gamma st2))) (sin (P.phase (P.alpha st2)))
              (map N.id (P.allNeurons st2)) st2 (incl_refl _))
    as (_ & I2 & _).
  apply environment_levels in I2.
  unfold levels_in_unit in *.
  change (levels (P.applySTDP ?x)) with (levels x).
  rewrite I2. exact H.
Qed.

Lemma steps_frame (ks : list nat) :
  forall st : P.t,
    let n := List.length (P.allNeurons st) in
    let st' := fold_left P.simStep ks st in
    map N.id (P.allNeurons st') = map N.id (P.allNeurons st)
    /\ P.regions st' = P.regions st
    /\ List.length (P.activities st')
       = (List.length (P.activities st) + n * samples ks)%nat
    /\ (List.length (P.spikes st')
        <= List.length (P.spikes st) + n * List.length ks)%nat.
Proof.
  induction ks as [|k ks IH]; intros st; simpl.
  - unfold samples; simpl. repeat split; lia.
  - destruct (simStep_frame st k) as (S1 & S0 & S2 & S3).
    destruct (IH (P.simStep st k)) as (I1 & I0 & I2 & I3).
    assert (Hn : List.length (P.allNeurons (P.simStep st k))
                 = List.length (P.allNeurons st)).
    { rewrite <- (length_map N.id), S1. apply length_map. }
    rewrite Hn in I2, I3. unfold samples in *; simpl.
    rewrite I1, I0, I2, S1, S0, S2. repeat split; nia.
Qed.

Lemma steps_levels (ks : list nat) :
  forall st : P.t,
    levels_in_unit st -> levels_in_unit (fold_left P.simStep ks st).
Proof.
  induction ks as [|k ks IH]; intros st H; simpl; [exact H|].
  apply IH. now apply simStep_levels.
Qed.




(* ------------------------------------------------------------------ *)
(** ** Injection of the input *)

Section Injection.

(** The keys of the sensory region's map. *)
Variable ids : list string.

Lemma inject_frame (st : P.t) (iv : nat * R) :
  map N.id (P.allNeurons (P.inject ids st iv)) = map N.id (P.allNeurons st)
  /\ environment (P.inject ids st iv) = environment st
  /\ P.activities (P.inject ids st iv) = P.activities st
  /\ P.spikes (P.inject ids st iv) = P.spikes st.
Proof.
  unfold P.inject. destruct iv as [i value].
  destruct (i <? List.length ids)%nat; [|now repeat split].
  destruct (nth_error ids i) as [nid|]; [|now repeat split].
  simpl. split; [|now repeat split].
  apply modify_ids. intros nr Hnr. now rewrite receiveInput_id.
Qed.

Lemma inject_fold_frame (ivs : list (nat * R)) :
  forall st : P.t,
    let st' := fold_left (P.inject ids) ivs st in
    map N.id (P.allNeurons st') = map N.id (P.allNeurons st)
    /\ environment st' = environment st
    /\ P.activities st' = P.activities st
    /\ P.spikes st' = P.spikes st.
Proof.
  induction ivs as [|iv ivs IH]; intros st; simpl; [now repeat split|].
  destruct (IH (P.inject ids st iv)) as (I1 & I2 & I3 & I4).
  destruct (inject_frame st iv) as (J1 & J2 & J3 & J4).
  rewrite I1, I2, I3, I4, J1, J2, J3, J4. now repeat split.
Qed.

Lemma inject_ach (st : P.t) (iv : nat * R) :
  P.acetylcholine (P.inject ids st iv) = P.acetylcholine st.
Proof.
  destruct (inject_frame st iv) as (_ & H & _).
  apply environment_levels in H. unfold levels in H. congruence.
Qed.

Lemma inject_hit (st : P.t) (i : nat) (value : R) (nid : string) :
  nth_error ids i = Some nid ->
  P.getNeuron nid (P.allNeurons (P.inject ids st (i, value)))
  = option_map (injected (P.acetylcholine st) value)
               (P.getNeuron nid (P.allNeurons st)).
Proof.
  intros Hi. unfold P.inject.
  assert (Hlt : (i <? List.length ids)%nat = true).
  { apply Nat.ltb_lt. apply nth_error_Some. congruence. }
  rewrite Hlt, Hi. unfold P.set_allNeurons; cbn [P.allNeurons].
  apply getNeuron_modify_same.
  intros nr Hnr. unfold injected. now rewrite receiveInput_id.
Qed.

Lemma inject_miss (st : P.t) (i : nat) (value : R) (nid : string) :
  nth_error ids i <> Some nid ->
  P.getNeuron nid (P.allNeurons (P.inject ids st (i, value)))
  = P.getNeuron nid (P.allNeurons st).
Proof.
  intros Hi. unfold P.inject.
  destruct (i <? List.length ids)%nat; [|reflexivity].
  destruct (nth_error ids i) as [x|]; [|reflexivity].
  unfold P.set_allNeurons; cbn [P.allNeurons].
  apply getNeuron_modify_other; [|congruence].
  intros nr Hnr. now rewrite receiveInput_id.
Qed.

Lemma inject_fold_miss (nid : string) (vs : list R) :
  forall (s : nat) (st : P.t),
    (forall j, (j < List.length vs)%nat ->
               nth_error ids (s + j) <> Some nid) ->
    P.getNeuron nid
      (P.allNeurons
         (fold_left (P.inject ids) (combine (seq s (List.length vs)) vs) st))
    = P.getNeuron nid (P.allNeurons st).
Proof.
  induction vs as [|v vs IH]; intros s st Hmiss;
    cbn [combine seq List.length fold_left]; [reflexivity|].
  rewrite IH.
  - apply inject_miss. rewrite <- (Nat.add_0_r s). apply Hmiss. simpl; lia.
  - intros j Hj. replace (S s + j)%nat with (s + S j)%nat by lia.
    apply Hmiss. simpl; lia.
Qed.

(** The region's map has one entry per key. *)
Hypothesis ids_distinct : NoDup ids.

Lemma inject_fold_hit (nid : string) :
  forall (vs : list R) (s : nat) (st : P.t) (j : nat) (value : R),
    nth_error ids (s + j) = Some nid ->
    nth_error vs j = Some value ->
    P.getNeuron nid
      (P.allNeurons
         (fold_left (P.inject ids) (combine (seq s (List.length vs)) vs) st))
    = option_map (injected (P.acetylcholine st) value)
                 (P.getNeuron nid (P.allNeurons st)).
Proof.
  assert (Huniq : forall i i', nth_error ids i = Some nid ->
                               nth_error ids i' = Some nid -> i = i').
  { intros i i' Hi Hi'. apply (proj1 (NoDup_nth_error ids) ids_distinct).
    - apply nth_error_Some. congruence.
    - congruence. }
  induction vs as [|v vs IH]; intros s st j value Hid Hv.
  - destruct j; discriminate.
  - cbn [combine seq List.length fold_left]. destruct j as [|j]; simpl in Hv.
    + injection Hv as ->. rewrite Nat.add_0_r in Hid.
      rewrite inject_fold_miss.
      * now apply inject_hit.
      * intros j Hj Hc. specialize (Huniq _ _ Hid Hc). lia.
    + replace (s + S j)%nat with (S s + j)%nat in Hid by lia.
      rewrite (IH (S s) _ j value Hid Hv), inject_ach.
      f_equal. apply inject_miss.
      intros Hc. specialize (Huniq _ _ Hid Hc). lia.
Qed.

End Injection.

Lemma injectInput_frame (input : list R) (st : P.t) :
  map N.id (P.allNeurons (P.injectInput input st))
  = map N.id (P.allNeurons st)
  /\ environment (P.injectInput input st) = environment st
  /\ P.activities (P.injectInput input st) = P.activities st
  /\ P.spikes (P.injectInput input st) = P.spikes st.
Proof.
  unfold P.injectInput.
  destruct (P.getRegion "sensory_cortex" (P.regions st)) as [r|];
    [|now repeat split].
  apply inject_fold_frame.
Qed.

(** C10.  [processInput] clears the histories, injects the input and runs
    the step loop.  The injection queues, for every index [i] below both
    the input length and the number of neurons of the sensory cortex, one
    excitatory input on the [i]-th sensory neuron, of amplitude
    [input[i] * 50 * (1 + acetylcholine)] and arrival time the neuron's
    clock plus a delay of 0, and changes nothing else of that neuron; every
    neuron that is not among the first [min (length input) (number of
    sensory neurons)] sensory neurons is left as it was, so the components
    of the input beyond the sensory neurons are ignored. *)
Theorem processInput_injection (input : list R) (st : P.t)
        (sensory0 : P.BrainRegion) :
  P.getRegion "sensory_cortex" (P.regions st) = Some sensory0 ->
  NoDup (P.neurons sensory0) ->
  let st1 :=
    P.injectInput input (P.set_spikes [] (P.set_activities [] st)) in
  let k := Nat.min (List.length input) (List.length (P.neurons sensory0)) in
  P.processInput input st = P.runSteps 1000 st1
  /\ (forall i nid value nr,
         nth_error (P.neurons sensory0) i = Some nid ->
         nth_error input i = Some value ->
         P.getNeuron nid (P.allNeurons st) = Some nr ->
         let current := value * 50 * (1 + P.acetylcholine st) in
         (i < k)%nat
         /\ P.getNeuron nid (P.allNeurons st1)
            = Some (N.receiveInput current 0 true nr)
         /\ N.excitatoryInputs (N.receiveInput current 0 true nr)
            = N.excitatoryInputs nr
              ++ [N.mkInput (N.currentTime nr + 0) current]
         /\ N.inhibitoryInputs (N.receiveInput current 0 true nr)
            = N.inhibitoryInputs nr
         /\ N.synapticCurrent (N.receiveInput current 0 true nr)
            = N.synapticCurrent nr
         /\ N.V (N.receiveInput current 0 true nr) = N.V nr)
  /\ (forall nid,
         ~ In nid (firstn k (P.neurons sensory0)) ->
         P.getNeuron nid (P.allNeurons st1)
         = P.getNeuron nid (P.allNeurons st))
  /\ map N.id (P.allNeurons st1) = map N.id (P.allNeurons st).
Proof.
  intros Hreg Hnd st1 k.
  split; [reflexivity|].
  assert (Hst1 : st1 = fold_left (P.inject (P.neurons sensory0))
                         (combine (seq 0 (List.length input)) input)
                         (P.set_spikes [] (P.set_activities [] st))).
  { unfold st1, P.injectInput. simpl. now rewrite Hreg. }
  split; [|split].
  - intros i nid value nr Hi Hv Hnr current.
    split.
    { apply Nat.min_glb_lt; apply nth_error_Some; congruence. }
    split; [|now repeat split].
    rewrite Hst1.
    rewrite (inject_fold_hit _ Hnd nid input 0 _ i value Hi Hv).
    simpl. rewrite Hnr. reflexivity.
  - intros nid Hout. rewrite Hst1.
    rewrite inject_fold_miss; [reflexivity|].
    intros j Hj Hc. simpl in Hc. apply Hout.
    apply (nth_error_In _ j). rewrite nth_error_firstn.
    assert (Hjk : (j <? k)%nat = true).
    { apply Nat.ltb_lt. apply Nat.min_glb_lt; [exact Hj|].
      apply nth_error_Some. congruence. }
    now rewrite Hjk.
  - unfold st1. now rewrite (proj1 (injectInput_frame input _)).
Qed.

Lemma processInput_injection_witness :
  option_map N.excitatoryInputs
             (P.getNeuron "sensory_cortex_1"
                          (P.allNeurons twoSensorsInjected))
  = Some [N.mkInput (0 + 0) (2 * 50 * (1 + 0.5))]
  /\ P.getNeuron "hippocampus_1" (P.allNeurons twoSensorsInjected) = None.
Proof.
  assert (Hreg : P.getRegion "sensory_cortex" (P.regions twoSensors)
                 = Some (P.mkRegion "sensory_cortex"
                           ["sensory_cortex_0"; "sensory_cortex_1"]%string
                           "Input")) by reflexivity.
  assert (Hnd : NoDup ["sensory_cortex_0"; "sensory_cortex_1"]%string)
    by (apply distinct_NoDup; reflexivity).
  destruct (processInput_injection [1; 2; 3] twoSensors _ Hreg Hnd)
    as (_ & Hin & Hout & _).
  fold twoSensorsInjected in Hin, Hout.
  split.
  - destruct (Hin 1%nat "sensory_cortex_1"%string 2
                (N.new "sensory_cortex_1" sensory N.NeuronPresets.Adapting)
                eq_refl eq_refl eq_refl) as (_ & E & _).
    rewrite E. reflexivity.
  - rewrite Hout; [reflexivity|].
    simpl. intuition discriminate.
Defined.

(* ------------------------------------------------------------------ *)
(** ** The network of a reachable state *)

Lemma regionNeurons_ids (nm : string) (count : nat) (ty : NeuronType) :
  map N.id (P.regionNeurons nm count ty) = regionIds nm count.
Proof. unfold P.regionNeurons, regionIds. now rewrite map_map. Qed.


(** The constructor builds a sensory cortex of 20 neurons under 20 keys. *)
Lemma create_sensory_cortex (syns : list Synapse.t) :
  exists r,
    P.getRegion "sensory_cortex" (P.regions (P.create syns)) = Some r
    /\ P.neurons r = regionIds "sensory_cortex" 20
    /\ NoDup (P.neurons r)
    /\ incl (P.neurons r) (map N.id (P.allNeurons (P.create syns))).
Proof.
  exists (P.regionOf "sensory_cortex"
            (P.regionNeurons "sensory_cortex" 20 sensory)
            "Input processing and feature detection").
  split; [reflexivity|].
  unfold P.regionOf; cbn [P.neurons]. rewrite regionNeurons_ids.
  split; [reflexivity|]. split.
  - apply distinct_NoDup. vm_compute. reflexivity.
  - unfold P.create, P.initialRegions. cbn [P.allNeurons flat_map snd].
    rewrite map_app, regionNeurons_ids. apply incl_appl, incl_refl.
Qed.

(** No call changes the regions or the identities of the neurons. *)
Lemma reachable_topology (st : P.t) :
  Reachable st ->
  P.regions st = map fst P.initialRegions
  /\ map N.id (P.allNeurons st) = map N.id (flat_map snd P.initialRegions).
Proof.
  induction 1 as [syns|st input k H IH Hk|st r H IH|st l H IH|st l H IH
                  |st H IH]; try exact IH.
  - split; reflexivity.
  - destruct IH as [IHr IHn]. unfold P.runSteps.
    set (st0 := P.set_spikes [] (P.set_activities [] st)).
    destruct (injectInput_frame input st0) as (J1 & J2 & _).
    apply environment_regions in J2.
    destruct (steps_frame (seq 0 k) (P.injectInput input st0))
      as (S1 & S0 & _).
    rewrite S1, S0, J1, J2. split; assumption.
  - destruct IH as [IHr IHn]. split; [exact IHr|].
    unfold P.reset; cbn [P.allNeurons]. rewrite map_map. exact IHn.
Qed.

(** Every reachable state has the sensory cortex of the constructor, so the
    injection of C10 applies to it. *)
Lemma reachable_sensory_cortex (st : P.t) :
  Reachable st ->
  exists r,
    P.getRegion "sensory_cortex" (P.regions st) = Some r
    /\ NoDup (P.neurons r)
    /\ List.length (P.neurons r) = 20%nat
    /\ incl (P.neurons r) (map N.id (P.allNeurons st)).
Proof.
  intros H. destruct (reachable_topology st H) as [Hr Hn].
  destruct (create_sensory_cortex []) as (r & R1 & R2 & R3 & R4).
  exists r. rewrite Hr, Hn. split; [exact R1|]. split; [exact R3|].
  split; [|exact R4].
  rewrite R2. unfold regionIds. now rewrite length_map, length_seq.
Qed.

(* ------------------------------------------------------------------ *)
(** ** Neuromodulator levels *)

Lemma reach_processInput (st : P.t) (input : list R) :
  Reachable st -> Reachable (P.processInput input st).
Proof. intros H. unfold P.processInput. now apply reach_steps. Qed.

Lemma create_levels (syns : list Synapse.t) : levels_in_unit (P.create syns).
Proof. unfold levels_in_unit, levels; simpl. lra. Qed.

Lemma applyReward_levels (reward : R) (st : P.t) :
  levels_in_unit st -> levels_in_unit (P.applyReward reward st).
Proof.
  unfold levels_in_unit, levels; simpl. intros (Hd & Hs & Ha & Hn).
  pose proof (clamp_unit (P.dopamine st + reward)). tauto.
Qed.

Lemma setArousal_levels (level : R) (st : P.t) :
  levels_in_unit st -> levels_in_unit (P.setArousal level st).
Proof.
  unfold levels_in_unit, levels; simpl. intros (Hd & Hs & Ha & Hn).
  pose proof (clamp_unit level). tauto.
Qed.

Lemma setAttention_levels (level : R) (st : P.t) :
  levels_in_unit st -> levels_in_unit (P.setAttention level st).
Proof.
  unfold levels_in_unit, levels; simpl. intros (Hd & Hs & Ha & Hn).
  pose proof (clamp_unit level). tauto.
Qed.

Lemma reset_levels (st : P.t) : levels_in_unit (P.reset st).
Proof. unfold levels_in_unit, levels; simpl. lra. Qed.

Lemma runSteps_levels (k : nat) (input : list R) (st : P.t) :
  levels_in_unit st ->
  levels_in_unit
    (P.runSteps k
       (P.injectInput input (P.set_spikes [] (P.set_activities [] st)))).
Proof.
  intros H. unfold P.runSteps. apply steps_levels.
  unfold levels_in_unit.
  destruct (injectInput_frame input
              (P.set_spikes [] (P.set_activities [] st))) as (_ & E & _).
  apply environment_levels in E. rewrite E. exact H.
Qed.

(** [processInput] keeps the levels in [0, 1] from any state. *)
Lemma processInput_levels (input : list R) (st : P.t) :
  levels_in_unit st -> levels_in_unit (P.processInput input st).
Proof. apply runSteps_levels. Qed.

(** C8.  The four neuromodulator levels lie in [0, 1] in every reachable
    state: they are 0.5 after the constructor, and the per-step update of a
    [processInput] (serotonin moved by 0.01 and clamped, dopamine and
    norepinephrine multiplied by 0.99, acetylcholine set to
    [0.5 + 0.3 * sin theta]), [applyReward], [setAttention], [setArousal]
    and [reset] all keep them there. *)
Theorem neuromodulators_in_unit (st : P.t) :
  Reachable st ->
  0 <= P.dopamine st <= 1 /\ 0 <= P.serotonin st <= 1
  /\ 0 <= P.acetylcholine st <= 1 /\ 0 <= P.norepinephrine st <= 1.
Proof.
  intros H. change (levels_in_unit st).
  induction H.
  - apply create_levels.
  - now apply runSteps_levels.
  - now apply applyReward_levels.
  - now apply setArousal_levels.
  - now apply setAttention_levels.
  - apply reset_levels.
Qed.

Lemma neuromodulators_in_unit_witness :
  0 <= P.dopamine rewarded <= 1 /\ 0 <= P.serotonin rewarded <= 1
  /\ 0 <= P.acetylcholine rewarded <= 1
  /\ 0 <= P.norepinephrine rewarded <= 1.
Proof.
  apply neuromodulators_in_unit.
  apply reach_processInput, reach_applyReward, reach_create.
Defined.

(* ------------------------------------------------------------------ *)
(** ** The histories *)






(* ================================================================== *)
(** * Further properties *)

(** ** Reward, arousal and attention *)

Lemma clamp_id (x : R) : 0 <= x <= 1 -> Rmax 0 (Rmin 1 x) = x.
Proof.
  intros H. unfold Rmax, Rmin.
  destruct (Rle_dec 1 x); destruct (Rle_dec 0 _); lra.
Qed.

Lemma clamp_high (x : R) : 1 <= x -> Rmax 0 (Rmin 1 x) = 1.
Proof.
  intros H. unfold Rmax, Rmin.
  destruct (Rle_dec 1 x); destruct (Rle_dec 0 _); lra.
Qed.

Lemma clamp_low (x : R) : x <= 0 -> Rmax 0 (Rmin 1 x) = 0.
Proof.
  intros H. unfold Rmax, Rmin.
  destruct (Rle_dec 1 x); destruct (Rle_dec 0 _); lra.
Qed.

(** X1.  Reward saturation.  From a dopamine level in [0, 1], a reward of
    1 or more puts dopamine at exactly 1 and a reward of -1 or less at
    exactly 0; a smaller reward that keeps the sum in [0, 1] is added as it
    is.  A second reward of 1 or more leaves dopamine at 1. *)
Theorem applyReward_saturates (reward : R) (st : P.t) :
  0 <= P.dopamine st <= 1 ->
  (1 <= reward -> P.dopamine (P.applyReward reward st) = 1)
  /\ (reward <= -1 -> P.dopamine (P.applyReward reward st) = 0)
  /\ (0 <= P.dopamine st + reward <= 1 ->
      P.dopamine (P.applyReward reward st) = P.dopamine st + reward)
  /\ (1 <= reward ->
      forall reward', 1 <= reward' ->
        P.dopamine (P.applyReward reward' (P.applyReward reward st)) = 1).
Proof.
  intros Hd. simpl. repeat split.
  - intros Hr. apply clamp_high. lra.
  - intros Hr. apply clamp_low. lra.
  - intros Hr. now apply clamp_id.
  - intros Hr reward' Hr'. apply clamp_high.
    rewrite clamp_high by lra. lra.
Qed.

Lemma applyReward_saturates_witness :
  P.dopamine (P.applyReward 10 (P.create [])) = 1.
Proof.
  assert (Hd : 0 <= P.dopamine (P.create []) <= 1) by (simpl; lra).
  destruct (applyReward_saturates 10 (P.create []) Hd) as (Hup & _).
  apply Hup. lra.
Defined.

(** X2.  [applyReward] touches nothing but dopamine and the weights of the
    synapses whose two traces both exceed 0.5: such a weight becomes
    [weight * (1 + reward * 0.1)] clamped to [-2, 2]; every other synapse,
    every trace, delay and endpoint, every neuron, the regions, both
    histories, the clock and the timestep, the three other levels and the
    three oscillators are left as they were, and dopamine becomes the sum
    clamped to [0, 1].  A weight within [-2, 2] before the call is within
    [-2, 2] after it. *)
Theorem applyReward_weights (reward : R) (st : P.t) :
  P.allNeurons (P.applyReward reward st) = P.allNeurons st
  /\ (P.regions (P.applyReward reward st),
      P.spikes (P.applyReward reward st),
      P.activities (P.applyReward reward st),
      P.globalTime (P.applyReward reward st), P.dt (P.applyReward reward st),
      P.serotonin (P.applyReward reward st),
      P.acetylcholine (P.applyReward reward st),
      P.norepinephrine (P.applyReward reward st),
      P.theta (P.applyReward reward st), P.gamma (P.applyReward reward st),
      P.alpha (P.applyReward reward st))
     = (P.regions st, P.spikes st, P.activities st, P.globalTime st,
        P.dt st, P.serotonin st, P.acetylcholine st, P.norepinephrine st,
        P.theta st, P.gamma st, P.alpha st)
  /\ P.dopamine (P.applyReward reward st)
     = Rmax 0 (Rmin 1 (P.dopamine st + reward))
  /\ List.length (P.synapses (P.applyReward reward st))
     = List.length (P.synapses st)
  /\ (forall k s,
         nth_error (P.synapses st) k = Some s ->
         exists s',
           nth_error (P.synapses (P.applyReward reward st)) k = Some s'
           /\ Synapse.preId s' = Synapse.preId s
           /\ Synapse.postId s' = Synapse.postId s
           /\ Synapse.delay s' = Synapse.delay s
           /\ Synapse.type s' = Synapse.type s
           /\ Synapse.plasticity s' = Synapse.plasticity s
           /\ Synapse.preTrace s' = Synapse.preTrace s
           /\ Synapse.postTrace s' = Synapse.postTrace s
           /\ (0.5 < Synapse.preTrace s /\ 0.5 < Synapse.postTrace s ->
               Synapse.weight s'
               = Rmax (-2) (Rmin 2 (Synapse.weight s * (1 + reward * 0.1)))
               /\ -2 <= Synapse.weight s' <= 2)
           /\ (Synapse.preTrace s <= 0.5 \/ Synapse.postTrace s <= 0.5 ->
               s' = s)
           /\ (-2 <= Synapse.weight s <= 2 -> -2 <= Synapse.weight s' <= 2)).
Proof.
  split; [reflexivity|]. split; [reflexivity|]. split; [reflexivity|].
  split; [simpl; apply length_map|].
  intros k s Hk. exists (P.rewardSynapse reward s).
  split; [simpl; now rewrite nth_error_map, Hk|].
  assert (Hclamp : forall x, -2 <= Rmax (-2) (Rmin 2 x) <= 2).
  { intros x. unfold Rmax, Rmin.
    destruct (Rle_dec 2 x); destruct (Rle_dec (-2) _); lra. }
  unfold P.rewardSynapse.
  destruct (JS.gtb (Synapse.preTrace s) 0.5) eqn:Ep;
    destruct (JS.gtb (Synapse.postTrace s) 0.5) eqn:Eq; simpl;
    repeat (split; [reflexivity|]);
    try apply gtb_true in Ep; try apply gtb_false in Ep;
    try apply gtb_true in Eq; try apply gtb_false in Eq.
  - split; [intros _; split; [reflexivity|apply Hclamp]|].
    split; [intros [H|H]; lra|]. intros _. apply Hclamp.
  - split; [intros [_ H]; lra|]. split; [reflexivity|]. tauto.
  - split; [intros [H _]; lra|]. split; [reflexivity|]. tauto.
  - split; [intros [H _]; lra|]. split; [reflexivity|]. tauto.
Qed.

(** X3.  [setArousal] and [setAttention] store the level clamped to
    [0, 1]: a level in [0, 1] is stored as it is, a level above 1 as 1, a
    level below 0 as 0.  [setArousal] changes norepinephrine and nothing
    else, [setAttention] acetylcholine and nothing else: the regions, the
    neurons, the synapses, both histories, the clock and the timestep, the
    three other levels and the three oscillators are as before.  Setting
    the same level twice is setting it once, and the two calls commute. *)
Theorem setLevel_clamps (level : R) (st : P.t) :
  (0 <= level <= 1 ->
   P.norepinephrine (P.setArousal level st) = level
   /\ P.acetylcholine (P.setAttention level st) = level)
  /\ (1 <= level ->
      P.norepinephrine (P.setArousal level st) = 1
      /\ P.acetylcholine (P.setAttention level st) = 1)
  /\ (level <= 0 ->
      P.norepinephrine (P.setArousal level st) = 0
      /\ P.acetylcholine (P.setAttention level st) = 0)
  /\ (P.regions (P.setArousal level st), P.allNeurons (P.setArousal level st),
      P.synapses (P.setArousal level st), P.spikes (P.setArousal level st),
      P.activities (P.setArousal level st),
      P.globalTime (P.setArousal level st), P.dt (P.setArousal level st),
      P.dopamine (P.setArousal level st), P.serotonin (P.setArousal level st),
      P.acetylcholine (P.setArousal level st),
      P.theta (P.setArousal level st), P.gamma (P.setArousal level st),
      P.alpha (P.setArousal level st))
     = (P.regions st, P.allNeurons st, P.synapses st, P.spikes st,
        P.activities st, P.globalTime st, P.dt st, P.dopamine st,
        P.serotonin st, P.acetylcholine st, P.theta st, P.gamma st,
        P.alpha st)
  /\ (P.regions (P.setAttention level st),
      P.allNeurons (P.setAttention level st),
      P.synapses (P.setAttention level st),
      P.spikes (P.setAttention level st),
      P.activities (P.setAttention level st),
      P.globalTime (P.setAttention level st), P.dt (P.setAttention level st),
      P.dopamine (P.setAttention level st),
      P.serotonin (P.setAttention level st),
      P.norepinephrine (P.setAttention level st),
      P.theta (P.setAttention level st), P.gamma (P.setAttention level st),
      P.alpha (P.setAttention level st))
     = (P.regions st, P.allNeurons st, P.synapses st, P.spikes st,
        P.activities st, P.globalTime st, P.dt st, P.dopamine st,
        P.serotonin st, P.norepinephrine st, P.theta st, P.gamma st,
        P.alpha st)
  /\ P.setArousal level (P.setArousal level st) = P.setArousal level st
  /\ P.setAttention level (P.setAttention level st)
     = P.setAttention level st
  /\ P.setArousal level (P.setAttention level st)
     = P.setAttention level (P.setArousal level st).
Proof.
  split; [intros H; split; apply clamp_id; exact H|].
  split; [intros H; split; apply clamp_high; exact H|].
  split; [intros H; split; apply clamp_low; exact H|].
  split; [reflexivity|]. split; [reflexivity|].
  split; [reflexivity|]. split; reflexivity.
Qed.

(** ** The neuromodulation factor *)

Lemma product_between (a b c d x y : R) :
  0 < a -> 0 < c -> a <= x <= b -> c <= y <= d ->
  a * c <= x * y <= b * d.
Proof. intros Ha Hc Hx Hy. split; nra. Qed.

(** X4.  With the four levels in [0, 1] the neuromodulation factor of any
    neuron lies strictly between 0.139 and 3.52 (its extremes are the
    products 0.5 * 0.5 * 0.8 * 0.7 and 1.5 * 1.5 * 1.2 * 1.3); in particular
    it is positive, so the modulated oscillatory current keeps the sign of
    the oscillation. *)
Theorem neuromodulation_factor_bounds (st : P.t) (nr : N.t) :
  levels_in_unit st ->
  0.139 < P.getNeuromodulationFactor st nr < 3.52.
Proof.
  unfold levels_in_unit, levels. intros (Hd & Hs & Ha & Hn).
  unfold P.getNeuromodulationFactor.
  set (f1 := if _ || _ then 1 * (0.5 + P.dopamine st) else 1).
  set (f2 := if P.isInterneuron _ then f1 * (0.5 + P.serotonin st) else f1).
  set (f3 := if JS.includes _ "cortex"
             then f2 * (0.8 + 0.4 * P.acetylcholine st) else f2).
  assert (H1 : 0.5 <= f1 <= 1.5).
  { unfold f1. destruct (_ || _); lra. }
  assert (H2 : 0.5 * 0.5 <= f2 <= 1.5 * 1.5).
  { unfold f2. destruct (P.isInterneuron _).
    - apply product_between; lra.
    - lra. }
  assert (H3 : 0.5 * 0.5 * 0.8 <= f3 <= 1.5 * 1.5 * 1.2).
  { unfold f3. destruct (JS.includes _ "cortex").
    - apply product_between; lra.
    - lra. }
  assert (H4 : 0.5 * 0.5 * 0.8 * 0.7 <= f3 * (0.7 + 0.6 * P.norepinephrine st)
               <= 1.5 * 1.5 * 1.2 * 1.3).
  { apply product_between; lra. }
  lra.
Qed.

Lemma neuromodulation_factor_bounds_witness :
  0.139 < P.getNeuromodulationFactor (P.create []) resting < 3.52.
Proof.
  apply neuromodulation_factor_bounds. apply create_levels.
Defined.

(* ------------------------------------------------------------------ *)
(** ** Queues: enqueue, deliver, deliver again *)

Lemma processSynapticInputs_eq (t : R) (nr : N.t) :
  N.processSynapticInputs t nr
  = N.mk (N.id nr) (N.type nr) (N.params nr) (N.V nr) (N.w nr)
         (N.lastSpikeTime nr) (N.spikeTrace nr) t
         (N.synapticCurrent nr
          + amplitude (due t (N.excitatoryInputs nr))
          - amplitude (due t (N.inhibitoryInputs nr)))
         (pending t (N.excitatoryInputs nr))
         (pending t (N.inhibitoryInputs nr)).
Proof.
  unfold N.processSynapticInputs. now rewrite drain_plus, drain_minus.
Qed.

Lemma amplitude_app (q q' : list N.QueuedInput) :
  amplitude (q ++ q') = amplitude q + amplitude q'.
Proof.
  induction q as [|i q IH]; simpl; [lra|]. rewrite IH. lra.
Qed.

Lemma due_app (t : R) (q q' : list N.QueuedInput) :
  due t (q ++ q') = due t q ++ due t q'.
Proof. apply filter_app. Qed.

Lemma pending_app (t : R) (q q' : list N.QueuedInput) :
  pending t (q ++ q') = pending t q ++ pending t q'.
Proof. apply filter_app. Qed.

Lemma single_due (t : R) (i : N.QueuedInput) :
  N.time i <= t -> due t [i] = [i] /\ pending t [i] = [].
Proof.
  intros H. unfold due, pending; simpl. rewrite leb_gtb.
  assert (E : JS.leb (N.time i) t = true).
  { unfold JS.leb. destruct (Rle_dec (N.time i) t); [reflexivity|lra]. }
  now rewrite E.
Qed.

Lemma single_pending (t : R) (i : N.QueuedInput) :
  t < N.time i -> due t [i] = [] /\ pending t [i] = [i].
Proof.
  intros H. unfold due, pending; simpl. rewrite leb_gtb.
  assert (E : JS.leb (N.time i) t = false).
  { unfold JS.leb. destruct (Rle_dec (N.time i) t); [lra|reflexivity]. }
  now rewrite E.
Qed.

(** X5.  Enqueue, then deliver.  An input queued with [receiveInput] on a
    neuron whose clock is [c] arrives at [c + delay].  Processing the
    queues at a time [t] at or after the arrival consumes it: the queues
    are those of the neuron without the input, and the synaptic current is
    larger by the amplitude (excitatory) or smaller by it (inhibitory).
    Processing before the arrival keeps the input at the end of its queue
    and leaves the current as without it. *)
Theorem receive_then_process (t weight delay : R) (e : bool) (nr : N.t) :
  let arrival := N.currentTime nr + delay in
  let before := N.processSynapticInputs t nr in
  let after := N.processSynapticInputs t (N.receiveInput weight delay e nr) in
  (arrival <= t ->
   N.excitatoryInputs after = N.excitatoryInputs before
   /\ N.inhibitoryInputs after = N.inhibitoryInputs before
   /\ N.synapticCurrent after
      = N.synapticCurrent before + (if e then weight else - weight))
  /\ (t < arrival ->
      N.synapticCurrent after = N.synapticCurrent before
      /\ N.excitatoryInputs after
         = N.excitatoryInputs before
           ++ (if e then [N.mkInput arrival weight] else [])
      /\ N.inhibitoryInputs after
         = N.inhibitoryInputs before
           ++ (if e then [] else [N.mkInput arrival weight])).
Proof.
  intros arrival before after. subst before after.
  rewrite !processSynapticInputs_eq.
  split; intros H.
  - destruct (single_due t (N.mkInput arrival weight) H) as [Hd Hp].
    destruct e; simpl;
      rewrite ?due_app, ?pending_app, ?amplitude_app; fold arrival;
      rewrite ?Hd, ?Hp, ?app_nil_r; simpl; repeat split; lra.
  - destruct (single_pending t (N.mkInput arrival weight) H) as [Hd Hp].
    destruct e; simpl;
      rewrite ?due_app, ?pending_app, ?amplitude_app; fold arrival;
      rewrite ?Hd, ?Hp, ?app_nil_r; simpl; repeat split; lra.
Qed.

Lemma pending_pending (t t' : R) (q : list N.QueuedInput) :
  t <= t' -> pending t' (pending t q) = pending t' q.
Proof.
  intros Ht. unfold pending.
  induction q as [|i q IH]; simpl; [reflexivity|].
  destruct (JS.gtb (N.time i) t) eqn:E; simpl; rewrite IH.
  - reflexivity.
  - assert (E' : JS.gtb (N.time i) t' = false).
    { apply gtb_false. apply gtb_false in E. lra. }
    now rewrite E'.
Qed.

Lemma due_split (t t' : R) (q : list N.QueuedInput) :
  t <= t' ->
  amplitude (due t' q)
  = amplitude (due t q) + amplitude (due t' (pending t q)).
Proof.
  intros Ht. unfold due, pending.
  induction q as [|i q IH]; simpl; [lra|].
  rewrite leb_gtb.
  destruct (JS.leb (N.time i) t) eqn:E; simpl.
  - assert (E' : JS.leb (N.time i) t' = true).
    { unfold JS.leb in *. destruct (Rle_dec (N.time i) t); [|discriminate].
      destruct (Rle_dec (N.time i) t'); [reflexivity|lra]. }
    rewrite E'. simpl. rewrite IH. lra.
  - destruct (JS.leb (N.time i) t'); simpl; rewrite IH; lra.
Qed.

(** X6.  Delivering at [t] and then at a later [t'] is delivering at [t']:
    no queued input is lost or applied twice when the queues are processed
    more than once, and processing twice at the same time is processing
    once. *)
Theorem process_twice (t t' : R) (nr : N.t) :
  t <= t' ->
  N.processSynapticInputs t' (N.processSynapticInputs t nr)
  = N.processSynapticInputs t' nr.
Proof.
  intros Ht. rewrite !processSynapticInputs_eq. simpl.
  rewrite !pending_pending by assumption.
  rewrite (due_split t t' (N.excitatoryInputs nr) Ht).
  rewrite (due_split t t' (N.inhibitoryInputs nr) Ht).
  f_equal. lra.
Qed.

Lemma process_twice_witness :
  N.processSynapticInputs 2 (N.processSynapticInputs 1 queued)
  = N.processSynapticInputs 2 queued
  /\ N.inhibitoryInputs (N.processSynapticInputs 1 queued) = []
  /\ N.excitatoryInputs (N.processSynapticInputs 1 queued)
     = [N.mkInput 1.5 5]
  /\ N.synapticCurrent (N.processSynapticInputs 1 queued) = -3
  /\ N.excitatoryInputs (N.processSynapticInputs 2 queued) = []
  /\ N.synapticCurrent (N.processSynapticInputs 2 queued) = 2.
Proof.
  split; [apply (process_twice 1 2 queued); lra|].
  rewrite !processSynapticInputs_eq.
  destruct (single_pending 1 (N.mkInput 1.5 5)) as [D1 P1]; [simpl; lra|].
  destruct (single_due 1 (N.mkInput 0.5 3)) as [D2 P2]; [simpl; lra|].
  destruct (single_due 2 (N.mkInput 1.5 5)) as [D3 P3]; [simpl; lra|].
  destruct (single_due 2 (N.mkInput 0.5 3)) as [D4 P4]; [simpl; lra|].
  unfold queued.
  cbn [N.excitatoryInputs N.inhibitoryInputs N.synapticCurrent].
  rewrite D1, P1, D2, P2, D3, P3, D4.
  unfold amplitude; cbn [fold_right N.qweight].
  split; [reflexivity|]. split; [reflexivity|]. split; [lra|].
  split; [reflexivity|lra].
Defined.

(* ------------------------------------------------------------------ *)
(** ** What the integrate step keeps *)

Lemma exp_nonpos (x : R) : x <= 0 -> 0 < exp x <= 1.
Proof.
  intros Hx. split; [apply exp_pos|].
  destruct (Req_dec_T x 0) as [->|Hne].
  - rewrite exp_0. lra.
  - left. apply exp_neg_lt_1. lra.
Qed.

Lemma decay_exponent (dt tau : R) : 0 <= dt -> 0 < tau -> - dt / tau <= 0.
Proof.
  intros Hdt Htau. unfold Rdiv.
  assert (0 < / tau) by now apply Rinv_0_lt_compat.
  nra.
Qed.

(** X7.  The integrate step never touches the identity, the clock or the
    queues of the neuron.  With [dt >= 0] and a positive LTP time constant
    it keeps a spike trace that is in [0, 1] in [0, 1], and it never
    increases the magnitude of the synaptic current.  Below or at the peak
    it reports no spike and keeps the last spike time. *)
Theorem updateAdEx_keeps (dt I_ext : R) (nr : N.t) :
  0 <= dt -> 0 < N.tau_plus (N.params nr) ->
  let nr' := fst (N.updateAdEx dt I_ext nr) in
  identity nr' = identity nr
  /\ N.currentTime nr' = N.currentTime nr
  /\ N.excitatoryInputs nr' = N.excitatoryInputs nr
  /\ N.inhibitoryInputs nr' = N.inhibitoryInputs nr
  /\ (0 <= N.spikeTrace nr <= 1 -> 0 <= N.spikeTrace nr' <= 1)
  /\ Rabs (N.synapticCurrent nr') <= Rabs (N.synapticCurrent nr)
  /\ (N.V nr <= N.Vpeak (N.params nr) ->
      snd (N.updateAdEx dt I_ext nr) = false
      /\ N.lastSpikeTime nr' = N.lastSpikeTime nr).
Proof.
  intros Hdt Htau nr'. subst nr'. unfold N.updateAdEx; simpl.
  pose proof (exp_nonpos _ (decay_exponent dt _ Hdt Htau)) as He.
  assert (H5 : 0 < exp (- dt / 5) <= 1)
    by (apply exp_nonpos, decay_exponent; lra).
  split; [reflexivity|]. split; [reflexivity|]. split; [reflexivity|].
  split; [reflexivity|]. split; [|split].
  - intros Ht. destruct (JS.gtb (N.V nr) (N.Vpeak (N.params nr))); nra.
  - rewrite Rabs_mult, (Rabs_pos_eq (exp _)) by lra.
    pose proof (Rabs_pos (N.synapticCurrent nr)). nra.
  - intros HV. apply gtb_false in HV. rewrite HV. now split.
Qed.

Lemma updateAdEx_keeps_witness :
  0 <= N.spikeTrace (fst (N.updateAdEx 0.1 0 resting)) <= 1.
Proof.
  assert (Hdt : 0 <= 0.1) by lra.
  assert (Htau : 0 < N.tau_plus (N.params resting)) by (simpl; lra).
  destruct (updateAdEx_keeps 0.1 0 resting Hdt Htau)
    as (_ & _ & _ & _ & Ht & _).
  apply Ht. simpl. lra.
Defined.

(* ------------------------------------------------------------------ *)
(** ** Reading the state of a neuron *)

(** X8.  The firing rate that [getState()] reports: 0 for a neuron that
    has never spiked and for one whose last spike is 1000 ms old or older;
    [1000 / d] for a last spike [d] ms ago with [0 < d < 1000], which is
    above 1, so no rate in (0, 1] is ever reported; [Infinity] at the
    spike time itself; and, when the clock is behind the last spike, a
    negative rate with [isRefractory] set. *)
Theorem firing_rate_reading (nr : N.t) :
  (N.lastSpikeTime nr = NegInfinity ->
   N.State.firingRate (N.getState nr) = N.RateOf 0
   /\ N.State.isRefractory (N.getState nr) = false)
  /\ (forall last,
         N.lastSpikeTime nr = Finite last ->
         let d := N.currentTime nr - last in
         (1000 <= d -> N.State.firingRate (N.getState nr) = N.RateOf 0)
         /\ (0 < d < 1000 ->
             N.State.firingRate (N.getState nr) = N.RateOf (1000 / d)
             /\ 1 < 1000 / d)
         /\ (d = 0 ->
             N.State.firingRate (N.getState nr) = N.RateInfinity)
         /\ (d < 0 ->
             N.State.firingRate (N.getState nr) = N.RateOf (1000 / d)
             /\ 1000 / d < 0
             /\ N.State.isRefractory (N.getState nr) = true)
         /\ (N.State.isRefractory (N.getState nr) = true <-> d < 2)).
Proof.
  unfold N.getState, N.calculateFiringRate; simpl. split.
  - intros ->. now split.
  - intros last ->. simpl. set (d := N.currentTime nr - last).
    split; [|split; [|split; [|split]]].
    + intros Hd. apply ltb_false in Hd. now rewrite Hd.
    + intros Hd. assert (E : JS.ltb d 1000 = true) by (apply ltb_true; lra).
      rewrite E. destruct (Req_dec_T d 0); [lra|]. split; [reflexivity|].
      apply Rmult_lt_reg_r with d; [lra|].
      unfold Rdiv. rewrite Rmult_assoc, Rinv_l by lra. lra.
    + intros Hd. assert (E : JS.ltb d 1000 = true) by (apply ltb_true; lra).
      rewrite E. destruct (Req_dec_T d 0); [reflexivity|lra].
    + intros Hd. assert (E : JS.ltb d 1000 = true) by (apply ltb_true; lra).
      rewrite E. destruct (Req_dec_T d 0); [lra|]. split; [reflexivity|].
      split.
      * unfold Rdiv. assert (/ d < 0) by now apply Rinv_lt_0_compat. lra.
      * apply ltb_true. lra.
    + apply ltb_true.
Qed.

(** X9.  [reset()] keeps the last spike time while it sets the clock to 0.
    A neuron that spiked at a time [t > 0] therefore reads, right after a
    reset, as refractory and with the negative firing rate [1000 / (0 - t)],
    although it is back at its leak potential. *)
Theorem reset_keeps_spike_time (nr : N.t) (t : R) :
  N.lastSpikeTime nr = Finite t -> 0 < t ->
  N.lastSpikeTime (N.reset nr) = Finite t
  /\ N.V (N.reset nr) = N.EL (N.params nr)
  /\ N.State.isRefractory (N.getState (N.reset nr)) = true
  /\ N.State.firingRate (N.getState (N.reset nr))
     = N.RateOf (1000 / (0 - t))
  /\ 1000 / (0 - t) < 0.
Proof.
  intros Hlast Ht.
  unfold N.getState, N.calculateFiringRate, N.reset; simpl.
  rewrite Hlast; simpl.
  assert (E : JS.ltb (0 - t) 1000 = true) by (apply ltb_true; lra).
  assert (E2 : JS.ltb (0 - t) 2 = true) by (apply ltb_true; lra).
  rewrite E, E2. destruct (Req_dec_T (0 - t) 0); [lra|].
  repeat split.
  unfold Rdiv. assert (/ (0 - t) < 0) by (apply Rinv_lt_0_compat; lra). lra.
Qed.

Lemma reset_keeps_spike_time_witness :
  N.State.isRefractory (N.getState (N.reset (active (Finite 9.5)))) = true.
Proof.
  assert (Hl : N.lastSpikeTime (active (Finite 9.5)) = Finite 9.5)
    by reflexivity.
  assert (Ht : 0 < 9.5) by lra.
  destruct (reset_keeps_spike_time (active (Finite 9.5)) 9.5 Hl Ht)
    as (_ & _ & E & _).
  exact E.
Defined.

(* ------------------------------------------------------------------ *)
(** ** More on plasticity *)

Lemma getNeuron_reset (i : string) (store : list N.t) :
  P.getNeuron i (map N.reset store) = option_map N.reset (P.getNeuron i store).
Proof.
  unfold P.getNeuron. induction store as [|x store IH]; simpl; [reflexivity|].
  destruct (String.eqb (N.id x) i); [reflexivity|exact IH].
Qed.

(** X10.  A reset does not make the network forget its spikes.  If the
    presynaptic neuron of a synapse last spiked at a time [t >= 0] and both
    neurons exist, then in the state right after [reset()], whose clock is
    0, the plasticity pass still takes that neuron as having just spiked:
    it sets the presynaptic trace of the synapse to 1. *)
Theorem reset_then_stdp (st : P.t) (s : Synapse.t) (preNeuron postNeuron : N.t)
        (t : R) :
  P.getNeuron (Synapse.preId s) (P.allNeurons st) = Some preNeuron ->
  P.getNeuron (Synapse.postId s) (P.allNeurons st) = Some postNeuron ->
  N.lastSpikeTime preNeuron = Finite t -> 0 <= t ->
  P.globalTime (P.reset st) = 0
  /\ Synapse.preTrace (P.stdpSynapse (P.reset st) s) = 1.
Proof.
  intros Hpre Hpost Hlast Ht. split; [reflexivity|].
  assert (Hpre' : P.getNeuron (Synapse.preId s) (P.allNeurons (P.reset st))
                  = Some (N.reset preNeuron)).
  { unfold P.reset; cbn [P.allNeurons]. now rewrite getNeuron_reset, Hpre. }
  assert (Hpost' : P.getNeuron (Synapse.postId s) (P.allNeurons (P.reset st))
                   = Some (N.reset postNeuron)).
  { unfold P.reset; cbn [P.allNeurons]. now rewrite getNeuron_reset, Hpost. }
  assert (Hw : within (P.globalTime (P.reset st))
                 (N.lastSpikeTime (N.reset preNeuron)) 1 = true).
  { unfold N.reset, P.reset; cbn [N.lastSpikeTime P.globalTime].
    rewrite Hlast. apply ltb_true. lra. }
  rewrite (stdpSynapse_active (P.reset st) s _ _ Hpre' Hpost')
    by (now rewrite Hw).
  unfold Synapse.set_weight; cbn [Synapse.preTrace].
  rewrite (proj1 (neuron_stdp_traces _ _ _ s)), Hw. reflexivity.
Qed.

Lemma reset_then_stdp_witness :
  Synapse.preTrace (P.stdpSynapse (P.reset learning) (link 1 0.5 0.5)) = 1.
Proof.
  assert (Ht : 0 <= 9.5) by lra.
  apply (reset_then_stdp learning (link 1 0.5 0.5) (active (Finite 9.5))
           silent 9.5 eq_refl eq_refl eq_refl Ht).
Defined.

Lemma clamp_nonpositive (x : R) : x <= 0 -> Rmax 0 (Rmin x 2) = 0.
Proof.
  intros Hx. unfold Rmax, Rmin.
  destruct (Rle_dec x 2); destruct (Rle_dec 0 _); lra.
Qed.

Lemma neuron_stdp_negative (nr : N.t) (pre post : bool) (s : Synapse.t) :
  0 <= N.A_plus (N.params nr) -> 0 <= N.A_minus (N.params nr) ->
  Synapse.postTrace s <= 1 ->
  Synapse.weight s <= - N.A_plus (N.params nr) ->
  Synapse.weight (N.applySTDP nr pre post s) = 0.
Proof.
  intros Hp Hm Ht Hw. unfold N.applySTDP.
  assert (H1 : 0 < Synapse.postTrace s ->
               N.A_plus (N.params nr) * Synapse.postTrace s
               <= N.A_plus (N.params nr)) by (intros; nra).
  assert (H2 : 0 < Synapse.preTrace s ->
               0 <= N.A_minus (N.params nr) * Synapse.preTrace s)
    by (intros; nra).
  destruct pre, post; simpl;
    destruct (JS.gtb (Synapse.postTrace s) 0) eqn:Eq;
    destruct (JS.gtb (Synapse.preTrace s) 0) eqn:Ep; simpl;
    rewrite ?Ep; simpl;
    try (apply gtb_true in Eq; specialize (H1 Eq));
    try (apply gtb_true in Ep; specialize (H2 Ep));
    apply clamp_nonpositive; lra.
Qed.

Lemma neuron_stdp_frame (nr : N.t) (pre post : bool) (s : Synapse.t) :
  Synapse.preId (N.applySTDP nr pre post s) = Synapse.preId s
  /\ Synapse.postId (N.applySTDP nr pre post s) = Synapse.postId s
  /\ Synapse.delay (N.applySTDP nr pre post s) = Synapse.delay s
  /\ Synapse.type (N.applySTDP nr pre post s) = Synapse.type s
  /\ Synapse.plasticity (N.applySTDP nr pre post s) = Synapse.plasticity s.
Proof.
  unfold N.applySTDP.
  repeat match goal with
         | |- context [if ?c then _ else _] => destruct c
         end; repeat split; reflexivity.
Qed.

(** X11.  The plasticity rule erases negative weights.  When the learning
    amplitudes are not negative and the postsynaptic trace is at most 1, an
    update of a synapse whose weight is [- A_plus] or less leaves the weight
    at exactly 0, in the neuron-level rule and after the processor's
    multiplication; from then on a spike sends the amplitude 0 over that
    synapse. *)
Theorem negative_weight_erased (st : P.t) (s : Synapse.t)
        (preNeuron postNeuron : N.t) :
  P.getNeuron (Synapse.preId s) (P.allNeurons st) = Some preNeuron ->
  P.getNeuron (Synapse.postId s) (P.allNeurons st) = Some postNeuron ->
  within (P.globalTime st) (N.lastSpikeTime preNeuron) 1
  || within (P.globalTime st) (N.lastSpikeTime postNeuron) 1 = true ->
  0 <= N.A_plus (N.params preNeuron) ->
  0 <= N.A_minus (N.params preNeuron) ->
  Synapse.postTrace s <= 1 ->
  Synapse.weight s <= - N.A_plus (N.params preNeuron) ->
  Synapse.weight (P.stdpSynapse st s) = 0
  /\ Synapse.type (P.stdpSynapse st s) = Synapse.type s
  /\ (forall st' x, amplitudeOf st' (P.stdpSynapse st s) x = 0).
Proof.
  intros Hpre Hpost Hon Hp Hm Ht Hw.
  assert (E : Synapse.weight (P.stdpSynapse st s) = 0).
  { rewrite (stdpSynapse_active st s _ _ Hpre Hpost Hon).
    unfold Synapse.set_weight; cbn [Synapse.weight].
    rewrite neuron_stdp_negative by assumption. lra. }
  split; [exact E|]. split.
  - rewrite (stdpSynapse_active st s _ _ Hpre Hpost Hon).
    unfold Synapse.set_weight; cbn [Synapse.type].
    apply neuron_stdp_frame.
  - intros st' x. unfold amplitudeOf. rewrite E, Rmult_0_l, Rabs_R0. lra.
Qed.

Lemma negative_weight_erased_witness :
  Synapse.weight
    (P.stdpSynapse (pair (Finite 9.5) (link (-0.8) 0 0)) (link (-0.8) 0 0))
  = 0.
Proof.
  assert (Hw : within 10 (Finite 9.5) 1 = true)
    by (apply ltb_true; lra).
  destruct (negative_weight_erased
              (pair (Finite 9.5) (link (-0.8) 0 0)) (link (-0.8) 0 0)
              (active (Finite 9.5)) silent eq_refl eq_refl)
    as (E & _).
  - cbn [N.lastSpikeTime active P.globalTime pair]. now rewrite Hw.
  - simpl; lra.
  - simpl; lra.
  - simpl; lra.
  - simpl; lra.
  - exact E.
Defined.

(* ------------------------------------------------------------------ *)
(** ** Time, oscillators and levels along an episode *)

Lemma environment_fields (st st' : P.t) :
  environment st' = environment st ->
  P.globalTime st' = P.globalTime st /\ P.dt st' = P.dt st
  /\ P.dopamine st' = P.dopamine st /\ P.serotonin st' = P.serotonin st
  /\ P.acetylcholine st' = P.acetylcholine st
  /\ P.norepinephrine st' = P.norepinephrine st
  /\ P.theta st' = P.theta st /\ P.gamma st' = P.gamma st
  /\ P.alpha st' = P.alpha st
  /\ P.synapses st' = P.synapses st.
Proof.
  unfold environment, levels. intros H. injection H. intros.
  repeat split; assumption.
Qed.

Lemma rem_range (x m : R) : 0 <= x -> 0 < m -> 0 <= JS.rem x m < m.
Proof.
  intros Hx Hm. unfold JS.rem, JS.trunc.
  assert (Hq : 0 <= x / m).
  { unfold Rdiv. assert (0 < / m) by now apply Rinv_0_lt_compat. nra. }
  destruct (Rle_dec 0 (x / m)) as [_|Hn]; [|lra].
  destruct (base_Int_part (x / m)) as [H1 H2].
  assert (E : m * (x / m) = x) by (field; lra).
  revert H1 H2. generalize (IZR (Int_part (x / m))). intros k H1 H2.
  assert (m * k <= m * (x / m)) by (apply Rmult_le_compat_l; lra).
  assert (m * (x / m) < m * (k + 1)) by (apply Rmult_lt_compat_l; lra).
  lra.
Qed.

Lemma advance_wrapped (o : P.Oscillation) (dt : R) :
  0 <= P.phase o -> 0 <= P.frequency o -> 0 <= dt ->
  wrapped (P.advance o dt) /\ P.frequency (P.advance o dt) = P.frequency o.
Proof.
  intros Hp Hf Hdt. split; [|reflexivity].
  unfold wrapped, P.advance; simpl.
  pose proof PI_RGT_0 as Hpi.
  apply rem_range; [|lra].
  assert (0 <= 2 * PI * P.frequency o * dt / 1000); [|lra].
  unfold Rdiv.
  assert (0 <= 2 * PI * P.frequency o) by nra.
  assert (0 <= 2 * PI * P.frequency o * dt) by nra.
  lra.
Qed.

Lemma advanced_succ (k : nat) (dt : R) (o : P.Oscillation) :
  advanced (S k) dt o = advanced k dt (P.advance o dt).
Proof. unfold advanced. now rewrite Nat.iter_succ_r. Qed.

Lemma advanced_wrapped (k : nat) (dt : R) (o : P.Oscillation) :
  wrapped o -> 0 <= P.frequency o -> 0 <= dt ->
  wrapped (advanced k dt o)
  /\ P.frequency (advanced k dt o) = P.frequency o.
Proof.
  intros Hw Hf Hdt. induction k as [|k [IHw IHf]]; [now split|].
  change (advanced (S k) dt o) with (P.advance (advanced k dt o) dt).
  destruct (advance_wrapped (advanced k dt o) dt)
    as [Hw' Hf']; [apply IHw|lra|assumption|].
  split; [exact Hw'|]. rewrite Hf'. exact IHf.
Qed.

(** What one timestep does to everything but the neurons, the synapses and
    the histories. *)
Lemma simStep_environment (st : P.t) (step : nat) :
  let st' := P.simStep st step in
  P.globalTime st' = P.globalTime st + P.dt st
  /\ P.dt st' = P.dt st
  /\ P.theta st' = P.advance (P.theta st) (P.dt st)
  /\ P.gamma st' = P.advance (P.gamma st) (P.dt st)
  /\ P.alpha st' = P.advance (P.alpha st) (P.dt st)
  /\ P.dopamine st' = P.dopamine st * 0.99
  /\ P.norepinephrine st' = P.norepinephrine st * 0.99
  /\ P.acetylcholine st' = 0.5 + 0.3 * sin (P.phase (P.theta st')).
Proof.
  unfold P.simStep.
  set (st2 := P.updateOscillations _).
  destruct (forEach_neurons step (sin (P.phase (P.theta st2)))
              (sin (P.phase (P.gamma st2))) (sin (P.phase (P.alpha st2)))
              (map N.id (P.allNeurons st2)) st2 (incl_refl _))
    as (_ & E & _).
  revert E. generalize (fold_left
    (P.processNeuron step (sin (P.phase (P.theta st2)))
       (sin (P.phase (P.gamma st2))) (sin (P.phase (P.alpha st2))))
    (map N.id (P.allNeurons st2)) st2).
  intros st3 E. apply environment_fields in E.
  destruct E as (E1 & E2 & E3 & _ & _ & E6 & E7 & E8 & E9 & _).
  simpl. rewrite E1, E2, E3, E6, E7, E8, E9. subst st2. simpl.
  repeat split; reflexivity.
Qed.

Lemma steps_environment (ks : list nat) :
  forall st : P.t,
    let st' := fold_left P.simStep ks st in
    let k := List.length ks in
    P.globalTime st' = P.globalTime st + INR k * P.dt st
    /\ P.dt st' = P.dt st
    /\ P.theta st' = advanced k (P.dt st) (P.theta st)
    /\ P.gamma st' = advanced k (P.dt st) (P.gamma st)
    /\ P.alpha st' = advanced k (P.dt st) (P.alpha st)
    /\ P.dopamine st' = P.dopamine st * 0.99 ^ k
    /\ P.norepinephrine st' = P.norepinephrine st * 0.99 ^ k
    /\ (ks <> [] ->
        P.acetylcholine st' = 0.5 + 0.3 * sin (P.phase (P.theta st'))).
Proof.
  induction ks as [|step ks IH]; intros st.
  - simpl. repeat split; try lra. intros H. now elim H.
  - cbn [fold_left List.length].
    destruct (simStep_environment st step)
      as (S1 & S2 & S3 & S4 & S5 & S6 & S7 & S8).
    destruct (IH (P.simStep st step))
      as (I1 & I2 & I3 & I4 & I5 & I6 & I7 & I8).
    assert (A : P.acetylcholine (fold_left P.simStep ks (P.simStep st step))
                = 0.5 + 0.3 * sin (P.phase (P.theta
                    (fold_left P.simStep ks (P.simStep st step))))).
    { destruct ks as [|step' ks']; [exact S8|apply I8; discriminate]. }
    split; [rewrite I1, S1, S2, S_INR; lra|].
    split; [rewrite I2; exact S2|].
    split; [rewrite I3, S2, S3, advanced_succ; reflexivity|].
    split; [rewrite I4, S2, S4, advanced_succ; reflexivity|].
    split; [rewrite I5, S2, S5, advanced_succ; reflexivity|].
    split; [rewrite I6, S6; simpl pow; lra|].
    split; [rewrite I7, S7; simpl pow; lra|].
    intros _. exact A.
Qed.

(** The same from the entry of [processInput]: clearing the histories and
    injecting the input change none of these. *)
Lemma episode_environment (input : list R) (st : P.t) (k : nat) :
  let st' := P.runSteps k
               (P.injectInput input
                  (P.set_spikes [] (P.set_activities [] st))) in
  P.globalTime st' = P.globalTime st + INR k * P.dt st
  /\ P.dt st' = P.dt st
  /\ P.theta st' = advanced k (P.dt st) (P.theta st)
  /\ P.gamma st' = advanced k (P.dt st) (P.gamma st)
  /\ P.alpha st' = advanced k (P.dt st) (P.alpha st)
  /\ P.dopamine st' = P.dopamine st * 0.99 ^ k
  /\ P.norepinephrine st' = P.norepinephrine st * 0.99 ^ k
  /\ ((0 < k)%nat ->
      P.acetylcholine st' = 0.5 + 0.3 * sin (P.phase (P.theta st'))).
Proof.
  intros st'. subst st'. unfold P.runSteps.
  set (st0 := P.set_spikes [] (P.set_activities [] st)).
  destruct (injectInput_frame input st0) as (_ & E & _).
  apply environment_fields in E.
  destruct E as (E1 & E2 & E3 & _ & _ & E6 & E7 & E8 & E9 & _).
  destruct (steps_environment (seq 0 k) (P.injectInput input st0))
    as (I1 & I2 & I3 & I4 & I5 & I6 & I7 & I8).
  rewrite length_seq in *.
  split; [rewrite I1, E1, E2; reflexivity|].
  split; [rewrite I2; exact E2|].
  split; [rewrite I3, E2, E7; reflexivity|].
  split; [rewrite I4, E2, E8; reflexivity|].
  split; [rewrite I5, E2, E9; reflexivity|].
  split; [rewrite I6, E3; reflexivity|].
  split; [rewrite I7, E6; reflexivity|].
  intros Hk. apply I8. destruct k; [lia|discriminate].
Qed.

Lemma decay_episode : 0 <= 0.99 ^ 1000 <= 0.0001.
Proof.
  split; [apply pow_le; lra|].
  change 1000%nat with (10 * 10 * 10)%nat. rewrite !pow_mult.
  assert (H1 : 0 <= 0.99 ^ 10 <= 0.905) by (simpl; lra).
  assert (H2 : 0 <= (0.99 ^ 10) ^ 10 <= 0.37).
  { split; [apply pow_le; lra|].
    apply Rle_trans with (0.905 ^ 10); [apply pow_incr; lra|simpl; lra]. }
  apply Rle_trans with (0.37 ^ 10); [apply pow_incr; lra|simpl; lra].
Qed.

Lemma INR_1000 : INR 1000 = 1000.
Proof. rewrite INR_IZR_INZ. reflexivity. Qed.

(** X12.  In every state that the public methods reach, the timestep is the
    0.1 ms of the constructor, the simulation clock is not negative, the
    three oscillators have the frequencies of the constructor (theta 7,
    gamma 40, alpha 10) and their phases are wrapped into [0, 2 PI). *)
Theorem oscillators_wrapped (st : P.t) :
  Reachable st ->
  P.dt st = 0.1 /\ 0 <= P.globalTime st
  /\ (P.frequency (P.theta st) = 7 /\ wrapped (P.theta st))
  /\ (P.frequency (P.gamma st) = 40 /\ wrapped (P.gamma st))
  /\ (P.frequency (P.alpha st) = 10 /\ wrapped (P.alpha st)).
Proof.
  induction 1 as [syns|st input k H IH Hk|st r H IH|st l H IH|st l H IH
                  |st H IH]; try exact IH.
  - pose proof PI_RGT_0. unfold wrapped; simpl. repeat split; lra.
  - destruct IH as (Hdt & Ht & [Fth Wth] & [Fga Wga] & [Fal Wal]).
    destruct (episode_environment input st k)
      as (E1 & E2 & E3 & E4 & E5 & _).
    rewrite E1, E2, E3, E4, E5.
    assert (0 <= P.dt st) by lra.
    destruct (advanced_wrapped k (P.dt st) (P.theta st)) as [W1 F1];
      [assumption|lra|assumption|].
    destruct (advanced_wrapped k (P.dt st) (P.gamma st)) as [W2 F2];
      [assumption|lra|assumption|].
    destruct (advanced_wrapped k (P.dt st) (P.alpha st)) as [W3 F3];
      [assumption|lra|assumption|].
    rewrite F1, F2, F3.
    pose proof (pos_INR k).
    repeat split; try assumption; try apply W1; try apply W2; try apply W3.
    nra.
  - destruct IH as (Hdt & Ht & Hth & Hga & Hal).
    unfold P.reset; cbn [P.dt P.globalTime P.theta P.gamma P.alpha].
    split; [exact Hdt|]. split; [lra|]. tauto.
Qed.

Lemma oscillators_wrapped_witness :
  P.dt rewarded = 0.1 /\ 0 <= P.globalTime rewarded
  /\ (P.frequency (P.theta rewarded) = 7 /\ wrapped (P.theta rewarded))
  /\ (P.frequency (P.gamma rewarded) = 40 /\ wrapped (P.gamma rewarded))
  /\ (P.frequency (P.alpha rewarded) = 10 /\ wrapped (P.alpha rewarded)).
Proof.
  apply oscillators_wrapped.
  apply reach_processInput, reach_applyReward, reach_create.
Defined.

(** X13.  [processInput] moves the simulation clock forward by exactly
    1000 timesteps, whatever the input, and does not change the timestep;
    the call does not restart the clock, so the timestamps of a second call
    continue those of the first. *)
Theorem processInput_clock (input input' : list R) (st : P.t) :
  P.globalTime (P.processInput input st) = P.globalTime st + 1000 * P.dt st
  /\ P.dt (P.processInput input st) = P.dt st
  /\ P.globalTime (P.processInput input' (P.processInput input st))
     = P.globalTime st + 2000 * P.dt st.
Proof.
  unfold P.processInput.
  destruct (episode_environment input st 1000) as (E1 & E2 & _).
  destruct (episode_environment input'
              (P.runSteps 1000
                 (P.injectInput input
                    (P.set_spikes [] (P.set_activities [] st)))) 1000)
    as (F1 & _).
  rewrite F1, E1, E2, INR_1000. repeat split; lra.
Qed.

(** X14.  Dopamine and norepinephrine are multiplied by 0.99 in each of the
    1000 timesteps of [processInput] and by nothing else, so whatever
    [applyReward] and [setArousal] set before the call is below 0.0001 when
    the call returns. *)
Theorem reward_and_arousal_fade (input : list R) (x : R) (st : P.t) :
  P.dopamine (P.processInput input st) = P.dopamine st * 0.99 ^ 1000
  /\ P.norepinephrine (P.processInput input st)
     = P.norepinephrine st * 0.99 ^ 1000
  /\ 0 <= P.dopamine (P.processInput input (P.applyReward x st)) <= 0.0001
  /\ 0 <= P.norepinephrine (P.processInput input (P.setArousal x st))
     <= 0.0001.
Proof.
  unfold P.processInput.
  destruct (episode_environment input st 1000)
    as (_ & _ & _ & _ & _ & E6 & E7 & _).
  destruct (episode_environment input (P.applyReward x st) 1000)
    as (_ & _ & _ & _ & _ & A6 & _).
  destruct (episode_environment input (P.setArousal x st) 1000)
    as (_ & _ & _ & _ & _ & _ & B7 & _).
  rewrite E6, E7, A6, B7.
  unfold P.applyReward, P.setArousal; cbn [P.dopamine P.norepinephrine].
  pose proof decay_episode as D.
  pose proof (clamp_unit (P.dopamine st + x)) as C1.
  pose proof (clamp_unit x) as C2.
  revert D C1 C2.
  generalize (0.99 ^ 1000), (Rmax 0 (Rmin 1 (P.dopamine st + x))),
    (Rmax 0 (Rmin 1 x)).
  intros d c1 c2 D C1 C2. repeat split; try reflexivity; nra.
Qed.

(** X15.  Every timestep overwrites acetylcholine with
    [0.5 + 0.3 * sin theta]: after [processInput] the level is in
    [0.2, 0.8] and is a function of the clock alone; what [setAttention]
    had set, and the input, have no part in it. *)
Theorem attention_overwritten (level : R) (input input' : list R)
        (st : P.t) :
  P.acetylcholine (P.processInput input (P.setAttention level st))
  = P.acetylcholine (P.processInput input' st)
  /\ P.acetylcholine (P.processInput input st)
     = 0.5 + 0.3 * sin (P.phase (advanced 1000 (P.dt st) (P.theta st)))
  /\ 0.2 <= P.acetylcholine (P.processInput input st) <= 0.8.
Proof.
  unfold P.processInput.
  destruct (episode_environment input st 1000)
    as (_ & _ & E3 & _ & _ & _ & _ & E8).
  destruct (episode_environment input' st 1000)
    as (_ & _ & F3 & _ & _ & _ & _ & F8).
  destruct (episode_environment input (P.setAttention level st) 1000)
    as (_ & _ & A3 & _ & _ & _ & _ & A8).
  rewrite E8, F8, A8, E3, F3, A3 by lia.
  cbn [P.setAttention P.dt P.theta].
  split; [reflexivity|]. split; [reflexivity|].
  pose proof (SIN_bound (P.phase (advanced 1000 (P.dt st) (P.theta st)))).
  lra.
Qed.

(* ------------------------------------------------------------------ *)
(** ** The deliveries of a spike *)

Lemma getNeuron_unique (i : string) (store : list N.t) (x : N.t) :
  NoDup (map N.id store) -> In x store -> N.id x = i ->
  P.getNeuron i store = Some x.
Proof.
  unfold P.getNeuron. induction store as [|y store IH]; simpl; [easy|].
  intros Hnd [-> | Hin] Hi.
  - rewrite Hi, String.eqb_refl. reflexivity.
  - inversion Hnd as [|? ? Hnot Hnd']; subst.
    destruct (String.eqb (N.id y) (N.id x)) eqn:E.
    + apply String.eqb_eq in E. elim Hnot. rewrite E. now apply in_map.
    + now apply IH.
Qed.

(** With distinct keys, a method call on the neuron under [i] is a map over
    the store. *)
Lemma modify_map (i : string) (f : N.t -> N.t) (store : list N.t) :
  NoDup (map N.id store) ->
  P.modify i f store
  = map (fun x => if String.eqb (N.id x) i then f x else x) store.
Proof.
  induction store as [|y store IH]; simpl; [reflexivity|].
  intros Hnd. inversion Hnd as [|? ? Hnot Hnd']; subst.
  destruct (String.eqb (N.id y) i) eqn:E.
  - f_equal. apply String.eqb_eq in E.
    transitivity (map (fun x : N.t => x) store); [symmetry; apply map_id|].
    apply map_ext_in. intros x Hx.
    destruct (String.eqb (N.id x) i) eqn:E'; [|reflexivity].
    apply String.eqb_eq in E'. elim Hnot. rewrite E, <- E'. now apply in_map.
  - f_equal. now apply IH.
Qed.

Lemma getNeuron_map (f : N.t -> N.t) (i : string) (store : list N.t) :
  (forall x, N.id (f x) = N.id x) ->
  P.getNeuron i (map f store) = option_map f (P.getNeuron i store).
Proof.
  intros H. unfold P.getNeuron.
  induction store as [|y store IH]; simpl; [reflexivity|].
  rewrite H. destruct (String.eqb (N.id y) i); [reflexivity|apply IH].
Qed.

Lemma existsb_getNeuron (i : string) (store : list N.t) :
  existsb (String.eqb i) (map N.id store)
  = match P.getNeuron i store with Some _ => true | None => false end.
Proof.
  unfold P.getNeuron. induction store as [|y store IH]; simpl; [reflexivity|].
  rewrite String.eqb_sym.
  destruct (String.eqb (N.id y) i); simpl; [reflexivity|apply IH].
Qed.

(** The modulation factor reads the key and the type of a neuron only. *)
Lemma factor_ext (st : P.t) (x y : N.t) :
  N.id x = N.id y -> N.type x = N.type y ->
  P.getNeuromodulationFactor st x = P.getNeuromodulationFactor st y.
Proof.
  intros Hi Ht. unfold P.getNeuromodulationFactor. now rewrite Hi, Ht.
Qed.

Lemma spikeReceived_nil (st : P.t) (nid : string) (x : N.t) :
  spikeReceived st nid [] x = x.
Proof.
  destruct x. unfold spikeReceived, arriving, incoming; simpl.
  now rewrite !app_nil_r.
Qed.

Section SpikeDelivery.

Variables (st : P.t) (nid : string) (store0 : list N.t).

Hypothesis store0_distinct : NoDup (map N.id store0).

Lemma spikeReceived_snoc_other (done : list Synapse.t) (s : Synapse.t)
      (x : N.t) :
  String.eqb (Synapse.preId s) nid
  && String.eqb (N.id x) (Synapse.postId s) = false ->
  spikeReceived st nid (done ++ [s]) x = spikeReceived st nid done x.
Proof.
  intros H. unfold spikeReceived, arriving, incoming.
  rewrite !filter_app. cbn [filter]. rewrite H. cbn [andb].
  now rewrite !app_nil_r.
Qed.

Lemma spikeReceived_snoc_target (done : list Synapse.t) (s : Synapse.t)
      (x : N.t) :
  String.eqb (Synapse.preId s) nid = true ->
  String.eqb (N.id x) (Synapse.postId s) = true ->
  spikeReceived st nid (done ++ [s]) x
  = N.receiveInput (amplitudeOf st s x) (Synapse.delay s)
                   (P.isExcitatory (Synapse.type s))
                   (spikeReceived st nid done x).
Proof.
  intros H1 H2. unfold spikeReceived, arriving, incoming, N.receiveInput.
  rewrite !filter_app, !map_app. cbn [filter]. rewrite H1, H2. cbn [andb].
  destruct (P.isExcitatory (Synapse.type s)); cbn;
    rewrite ?app_nil_r, ?app_assoc; reflexivity.
Qed.

Lemma propagate_step (done : list Synapse.t) (path : list string)
      (s : Synapse.t) :
  P.propagate st nid (map (spikeReceived st nid done) store0, path) s
  = (map (spikeReceived st nid (done ++ [s])) store0,
     path ++ reached (map N.id store0) nid [s]).
Proof.
  unfold P.propagate, reached. cbn [filter].
  destruct (String.eqb (Synapse.preId s) nid) eqn:E1.
  2:{ cbn. rewrite app_nil_r. f_equal. apply map_ext. intros x.
      symmetry. apply spikeReceived_snoc_other. now rewrite E1. }
  rewrite getNeuron_map by reflexivity.
  rewrite existsb_getNeuron. cbn [andb].
  destruct (P.getNeuron (Synapse.postId s) store0) as [target|] eqn:E2;
    cbn [option_map].
  - cbn [map]. f_equal.
    rewrite modify_map by (rewrite map_map; exact store0_distinct).
    rewrite map_map. apply map_ext_in. intros x Hx.
    change (N.id (spikeReceived st nid done x)) with (N.id x).
    destruct (String.eqb (N.id x) (Synapse.postId s)) eqn:E3.
    + assert (x = target).
      { apply String.eqb_eq in E3.
        pose proof (getNeuron_unique _ _ _ store0_distinct Hx E3).
        congruence. }
      subst x. rewrite spikeReceived_snoc_target by assumption.
      unfold amplitudeOf.
      rewrite (factor_ext st (spikeReceived st nid done target) target)
        by reflexivity.
      reflexivity.
    + symmetry. apply spikeReceived_snoc_other. rewrite E3.
      apply andb_false_r.
  - cbn. rewrite app_nil_r. f_equal. apply map_ext_in. intros x Hx.
    symmetry. apply spikeReceived_snoc_other.
    unfold P.getNeuron in E2. pose proof (find_none _ _ E2 x Hx) as Hn.
    simpl in Hn. rewrite Hn. apply andb_false_r.
Qed.

Lemma reached_cons (ids : list string) (s : Synapse.t)
      (syns : list Synapse.t) :
  reached ids nid (s :: syns) = reached ids nid [s] ++ reached ids nid syns.
Proof. unfold reached. cbn [filter]. destruct (_ && _); reflexivity. Qed.

Lemma propagate_fold (syns : list Synapse.t) :
  forall (done : list Synapse.t) (path : list string),
    fold_left (P.propagate st nid) syns
              (map (spikeReceived st nid done) store0, path)
    = (map (spikeReceived st nid (done ++ syns)) store0,
       path ++ reached (map N.id store0) nid syns).
Proof.
  induction syns as [|s syns IH]; intros done path.
  - cbn. now rewrite !app_nil_r.
  - cbn [fold_left]. rewrite propagate_step, IH, <- !app_assoc.
    cbn [app]. now rewrite <- reached_cons.
Qed.

End SpikeDelivery.

(** With distinct keys, [handleSpike] as a map over the store: one queued
    input per outgoing synapse on its target, and one record with the path
    of the spike. *)
Lemma handleSpike_store (st : P.t) (nid : string) :
  NoDup (map N.id (P.allNeurons st)) ->
  P.handleSpike st nid
  = P.set_spikes
      (P.spikes st
       ++ [Spike.mk nid (P.globalTime st) 1
             (nid :: reached (map N.id (P.allNeurons st)) nid
                             (P.synapses st))])
      (P.set_allNeurons
         (map (spikeReceived st nid (P.synapses st)) (P.allNeurons st)) st).
Proof.
  intros Hnd. unfold P.handleSpike.
  pose proof (propagate_fold st nid (P.allNeurons st) Hnd (P.synapses st)
                             [] [nid]) as H.
  rewrite (map_ext _ (fun x => x) (spikeReceived_nil st nid)), map_id in H.
  rewrite H. reflexivity.
Qed.

(* ------------------------------------------------------------------ *)
(** ** The life of a neuron object *)

Lemma Evolves_trans (dt : R) (x y z : N.t) :
  Evolves dt x y -> Evolves dt y z -> Evolves dt x z.
Proof.
  intros Hxy Hyz. induction Hyz; [assumption|now constructor ..].
Qed.

Section Related.

Variable dt : R.

Lemma evolves_refl (l : list N.t) : Forall2 (Evolves dt) l l.
Proof. induction l; constructor; [apply ev_refl|assumption]. Qed.

Lemma evolves_trans (l1 l2 l3 : list N.t) :
  Forall2 (Evolves dt) l1 l2 -> Forall2 (Evolves dt) l2 l3 ->
  Forall2 (Evolves dt) l1 l3.
Proof.
  intros H. revert l3.
  induction H as [|x y l1 l2 Hxy H IH]; intros l3 H';
    inversion H'; subst; constructor.
  - eapply Evolves_trans; eassumption.
  - now apply IH.
Qed.

(** A call on the neuron stored under [i] relates the stores when it
    relates that neuron to its successor. *)
Lemma modify_evolves_first (i : string) (f : N.t -> N.t)
      (store : list N.t) (x0 : N.t) :
  P.getNeuron i store = Some x0 -> Evolves dt x0 (f x0) ->
  Forall2 (Evolves dt) store (P.modify i f store).
Proof.
  unfold P.getNeuron.
  induction store as [|y store IH]; simpl; [discriminate|].
  destruct (String.eqb (N.id y) i).
  - intros [= ->] H. constructor; [exact H|apply evolves_refl].
  - intros H1 H2. constructor; [apply ev_refl|now apply IH].
Qed.

Lemma modify_evolves (i : string) (f : N.t -> N.t) (store : list N.t) :
  (forall x, Evolves dt x (f x)) ->
  Forall2 (Evolves dt) store (P.modify i f store).
Proof.
  intros H. induction store as [|y store IH]; simpl; [constructor|].
  destruct (String.eqb (N.id y) i); constructor;
    auto using evolves_refl, ev_refl.
Qed.

Lemma propagate_evolves (st : P.t) (nid : string)
      (acc : list N.t * list string) (s : Synapse.t) :
  Forall2 (Evolves dt) (fst acc) (fst (P.propagate st nid acc s)).
Proof.
  unfold P.propagate. destruct acc as [store path]. cbn [fst].
  destruct (String.eqb (Synapse.preId s) nid); [|apply evolves_refl].
  destruct (P.getNeuron (Synapse.postId s) store); [|apply evolves_refl].
  cbn [fst]. apply modify_evolves. intros x. apply ev_receive, ev_refl.
Qed.

Lemma propagate_fold_evolves (st : P.t) (nid : string)
      (syns : list Synapse.t) :
  forall acc : list N.t * list string,
    Forall2 (Evolves dt) (fst acc)
            (fst (fold_left (P.propagate st nid) syns acc)).
Proof.
  induction syns as [|s syns IH]; intros acc; cbn [fold_left].
  - apply evolves_refl.
  - eapply evolves_trans; [apply propagate_evolves|apply IH].
Qed.

Lemma handleSpike_evolves (st : P.t) (nid : string) :
  Forall2 (Evolves dt) (P.allNeurons st)
          (P.allNeurons (P.handleSpike st nid)).
Proof.
  unfold P.handleSpike.
  pose proof (propagate_fold_evolves st nid (P.synapses st)
                                     (P.allNeurons st, [nid])) as H.
  destruct (fold_left _ _ _) as [store path]. exact H.
Qed.

Lemma inject_evolves (ids : list string) (st : P.t) (iv : nat * R) :
  Forall2 (Evolves dt) (P.allNeurons st) (P.allNeurons (P.inject ids st iv)).
Proof.
  unfold P.inject. destruct iv as [i value].
  destruct (i <? List.length ids)%nat; [|apply evolves_refl].
  destruct (nth_error ids i) as [nid|]; [|apply evolves_refl].
  cbn [P.set_allNeurons P.allNeurons]. apply modify_evolves.
  intros x. apply ev_receive, ev_refl.
Qed.

Lemma injectInput_evolves (input : list R) (st : P.t) :
  Forall2 (Evolves dt) (P.allNeurons st)
          (P.allNeurons (P.injectInput input st)).
Proof.
  unfold P.injectInput.
  destruct (P.getRegion "sensory_cortex" (P.regions st)) as [r|];
    [|apply evolves_refl].
  generalize (combine (seq 0 (List.length input)) input). intros ivs.
  revert st. induction ivs as [|iv ivs IH]; intros st; cbn [fold_left].
  - apply evolves_refl.
  - eapply evolves_trans; [apply inject_evolves|apply IH].
Qed.

Lemma reset_evolves (l l' : list N.t) :
  Forall2 (Evolves dt) l l' -> Forall2 (Evolves dt) l (map N.reset l').
Proof.
  induction 1; cbn [map]; constructor; [now apply ev_reset|assumption].
Qed.

End Related.

Lemma processNeuron_evolves (step : nat) (thetaMod gammaMod alphaMod : R)
      (st : P.t) (nid : string) :
  Forall2 (Evolves (P.dt st)) (P.allNeurons st)
          (P.allNeurons
             (P.processNeuron step thetaMod gammaMod alphaMod st nid)).
Proof.
  unfold P.processNeuron.
  destruct (P.getNeuron nid (P.allNeurons st)) as [nr0|] eqn:E;
    [|apply evolves_refl].
  destruct (N.updateAdEx _ _ _) as [nr2 spiked] eqn:Eu.
  set (st1 := P.set_allNeurons _ st).
  assert (H1 : Forall2 (Evolves (P.dt st)) (P.allNeurons st)
                       (P.allNeurons st1)).
  { unfold st1; cbn [P.set_allNeurons P.allNeurons].
    apply (modify_evolves_first _ _ _ _ nr0 E).
    change nr2 with (fst (nr2, spiked)). rewrite <- Eu.
    apply ev_update, ev_process, ev_refl. }
  assert (H2 : Forall2 (Evolves (P.dt st)) (P.allNeurons st)
                       (P.allNeurons
                          (if spiked then P.handleSpike st1 nid else st1))).
  { destruct spiked; [|exact H1].
    eapply evolves_trans; [exact H1|apply handleSpike_evolves]. }
  destruct (step mod 10 =? 0)%nat; [|exact H2].
  destruct (P.getNeuron nid
              (P.allNeurons (if spiked then P.handleSpike st1 nid else st1)));
    [|exact H2].
  cbn [P.set_activities P.allNeurons]. exact H2.
Qed.

Lemma forEach_evolves (step : nat) (thetaMod gammaMod alphaMod : R)
      (ids : list string) :
  forall st : P.t,
    incl ids (map N.id (P.allNeurons st)) ->
    Forall2 (Evolves (P.dt st)) (P.allNeurons st)
            (P.allNeurons
               (fold_left (P.processNeuron step thetaMod gammaMod alphaMod)
                          ids st)).
Proof.
  induction ids as [|nid ids IH]; intros st Hincl; cbn [fold_left].
  - apply evolves_refl.
  - assert (Hin : In nid (map N.id (P.allNeurons st)))
      by (apply Hincl; now left).
    destruct (processNeuron_frame step thetaMod gammaMod alphaMod st nid Hin)
      as (V1 & V2 & _).
    apply environment_fields in V2. destruct V2 as (_ & Vdt & _).
    eapply evolves_trans; [apply processNeuron_evolves|].
    rewrite <- Vdt. apply IH.
    rewrite V1. intros x Hx. apply Hincl. now right.
Qed.

Lemma simStep_evolves (st : P.t) (step : nat) :
  Forall2 (Evolves (P.dt st)) (P.allNeurons st)
          (P.allNeurons (P.simStep st step)).
Proof.
  unfold P.simStep.
  set (st2 := P.updateOscillations _).
  cbn [P.updateNeuromodulators P.applySTDP P.set_synapses P.allNeurons].
  change (P.allNeurons st) with (P.allNeurons st2).
  change (P.dt st) with (P.dt st2).
  apply forEach_evolves, incl_refl.
Qed.

Lemma steps_evolves (ks : list nat) :
  forall st : P.t,
    Forall2 (Evolves (P.dt st)) (P.allNeurons st)
            (P.allNeurons (fold_left P.simStep ks st)).
Proof.
  induction ks as [|k ks IH]; intros st; cbn [fold_left].
  - apply evolves_refl.
  - eapply evolves_trans; [apply simStep_evolves|].
    destruct (simStep_environment st k) as (_ & Hdt & _).
    rewrite <- Hdt. apply IH.
Qed.

Lemma reachable_dt (st : P.t) : Reachable st -> P.dt st = 0.1.
Proof.
  induction 1 as [syns|st input k H IH Hk|st r H IH|st l H IH|st l H IH
                  |st H IH]; try exact IH.
  - reflexivity.
  - destruct (episode_environment input st k) as (_ & E & _).
    now rewrite E.
Qed.

(** Every neuron of a reachable state is the neuron that the constructor
    made at its place in the store, after calls of its own methods. *)
Lemma reachable_evolves (st : P.t) :
  Reachable st ->
  Forall2 (Evolves 0.1) (flat_map snd P.initialRegions) (P.allNeurons st).
Proof.
  induction 1 as [syns|st input k H IH Hk|st r H IH|st l H IH|st l H IH
                  |st H IH]; try exact IH.
  - apply evolves_refl.
  - eapply evolves_trans; [exact IH|].
    unfold P.runSteps.
    set (st0 := P.set_spikes [] (P.set_activities [] st)).
    eapply evolves_trans; [apply (injectInput_evolves 0.1 input st0)|].
    destruct (injectInput_frame input st0) as (_ & E & _).
    apply environment_fields in E. destruct E as (_ & Edt & _).
    rewrite <- (reachable_dt st H).
    change (P.dt st) with (P.dt st0). rewrite <- Edt.
    apply steps_evolves.
  - unfold P.reset; cbn [P.allNeurons]. now apply reset_evolves.
Qed.

(* ------------------------------------------------------------------ *)
(** ** What queueing an input leaves alone *)

Section Keeps.

Variables (A : Type) (g : N.t -> A).

(** [g] reads nothing that [receiveInput] writes. *)
Hypothesis g_receive :
  forall weight delay isExcitatory x,
    g (N.receiveInput weight delay isExcitatory x) = g x.

Lemma modify_keeps (i : string) (f : N.t -> N.t) (store : list N.t) :
  (forall x, g (f x) = g x) -> map g (P.modify i f store) = map g store.
Proof.
  intros H. induction store as [|y store IH]; simpl; [reflexivity|].
  destruct (String.eqb (N.id y) i); simpl; [now rewrite H|now rewrite IH].
Qed.

Lemma propagate_fold_keeps (st : P.t) (nid : string)
      (syns : list Synapse.t) :
  forall acc : list N.t * list string,
    map g (fst (fold_left (P.propagate st nid) syns acc)) = map g (fst acc).
Proof.
  induction syns as [|s syns IH]; intros acc; cbn [fold_left];
    [reflexivity|].
  rewrite IH. unfold P.propagate. destruct acc as [store path].
  destruct (String.eqb (Synapse.preId s) nid); [|reflexivity].
  destruct (P.getNeuron (Synapse.postId s) store); [|reflexivity].
  cbn [fst]. apply modify_keeps. intros x. apply g_receive.
Qed.

Lemma handleSpike_keeps (st : P.t) (nid : string) :
  map g (P.allNeurons (P.handleSpike st nid)) = map g (P.allNeurons st).
Proof.
  unfold P.handleSpike.
  pose proof (propagate_fold_keeps st nid (P.synapses st)
                                   (P.allNeurons st, [nid])) as H.
  destruct (fold_left _ _ _) as [store path]. exact H.
Qed.

Lemma injectInput_keeps (input : list R) (st : P.t) :
  map g (P.allNeurons (P.injectInput input st)) = map g (P.allNeurons st).
Proof.
  unfold P.injectInput.
  destruct (P.getRegion "sensory_cortex" (P.regions st)) as [r|];
    [|reflexivity].
  generalize (combine (seq 0 (List.length input)) input). intros ivs.
  revert st. induction ivs as [|iv ivs IH]; intros st; cbn [fold_left];
    [reflexivity|].
  rewrite IH. unfold P.inject. destruct iv as [i value].
  destruct (i <? List.length (P.neurons r))%nat; [|reflexivity].
  destruct (nth_error (P.neurons r) i) as [nid|]; [|reflexivity].
  cbn [P.set_allNeurons P.allNeurons]. apply modify_keeps.
  intros x. apply g_receive.
Qed.

End Keeps.

(* ------------------------------------------------------------------ *)
(** ** The clocks of the neurons *)

Lemma reachable_distinct (st : P.t) :
  Reachable st -> NoDup (map N.id (P.allNeurons st)).
Proof.
  intros H. destruct (reachable_topology st H) as [_ Hn]. rewrite Hn.
  apply distinct_NoDup. vm_compute. reflexivity.
Qed.

Lemma clock_receive (weight delay : R) (isExcitatory : bool) (x : N.t) :
  (N.id (N.receiveInput weight delay isExcitatory x),
   N.currentTime (N.receiveInput weight delay isExcitatory x))
  = (N.id x, N.currentTime x).
Proof. unfold N.receiveInput. now destruct isExcitatory. Qed.

Lemma updateAdEx_clock (dt I_ext : R) (x : N.t) :
  N.id (fst (N.updateAdEx dt I_ext x)) = N.id x
  /\ N.currentTime (fst (N.updateAdEx dt I_ext x)) = N.currentTime x.
Proof. split; reflexivity. Qed.

Lemma processSynapticInputs_clock (t : R) (x : N.t) :
  N.currentTime (N.processSynapticInputs t x) = t.
Proof. now rewrite processSynapticInputs_eq. Qed.

(** The visit of the neuron under [nid] sets its clock to the simulation
    clock and no other clock. *)
Lemma processNeuron_clocks (step : nat) (thetaMod gammaMod alphaMod : R)
      (st : P.t) (nid : string) :
  NoDup (map N.id (P.allNeurons st)) ->
  In nid (map N.id (P.allNeurons st)) ->
  clocks (P.processNeuron step thetaMod gammaMod alphaMod st nid)
  = map (fun p => (fst p, if String.eqb (fst p) nid
                          then P.globalTime st else snd p))
        (clocks st).
Proof.
  intros Hnd Hin. unfold P.processNeuron.
  destruct (getNeuron_in _ _ Hin) as [nr0 E]. rewrite E.
  pose proof (getNeuron_id _ _ _ E) as Hid0.
  destruct (N.updateAdEx _ _ _) as [nr2 spiked] eqn:Eu.
  assert (H2 : N.id nr2 = nid /\ N.currentTime nr2 = P.globalTime st).
  { pose proof (f_equal fst Eu) as F. cbn [fst] in F. rewrite <- F.
    rewrite (proj1 (updateAdEx_clock _ _ _)),
      (proj2 (updateAdEx_clock _ _ _)),
      processSynapticInputs_id, processSynapticInputs_clock.
    now split. }
  destruct H2 as [Hid2 Hclk2].
  set (st1 := P.set_allNeurons _ st).
  assert (H1 : clocks st1
               = map (fun p => (fst p, if String.eqb (fst p) nid
                                       then P.globalTime st else snd p))
                     (clocks st)).
  { unfold clocks, st1; cbn [P.set_allNeurons P.allNeurons].
    rewrite modify_map by exact Hnd. rewrite !map_map.
    apply map_ext. intros x. cbn [fst snd].
    destruct (String.eqb (N.id x) nid) eqn:Ex; [|reflexivity].
    apply String.eqb_eq in Ex. now rewrite Hid2, Hclk2, Ex. }
  assert (Hc : clocks (if spiked then P.handleSpike st1 nid else st1)
               = clocks st1).
  { destruct spiked; [|reflexivity].
    unfold clocks. apply handleSpike_keeps. apply clock_receive. }
  destruct (step mod 10 =? 0)%nat; [|now rewrite Hc].
  destruct (P.getNeuron nid
              (P.allNeurons (if spiked then P.handleSpike st1 nid else st1)));
    [|now rewrite Hc].
  unfold clocks in *. cbn [P.set_activities P.allNeurons].
  now rewrite Hc.
Qed.

Lemma forEach_clocks (step : nat) (thetaMod gammaMod alphaMod : R)
      (ids : list string) :
  forall st : P.t,
    NoDup (map N.id (P.allNeurons st)) ->
    incl ids (map N.id (P.allNeurons st)) ->
    clocks (fold_left (P.processNeuron step thetaMod gammaMod alphaMod)
                      ids st)
    = map (fun p => (fst p, if existsb (String.eqb (fst p)) ids
                            then P.globalTime st else snd p))
          (clocks st).
Proof.
  induction ids as [|nid ids IH]; intros st Hnd Hincl; cbn [fold_left].
  - symmetry. etransitivity; [|apply map_id].
    apply map_ext. now intros [i t].
  - assert (Hin : In nid (map N.id (P.allNeurons st)))
      by (apply Hincl; now left).
    destruct (processNeuron_frame step thetaMod gammaMod alphaMod st nid Hin)
      as (V1 & V2 & _).
    apply environment_fields in V2. destruct V2 as (Vt & _).
    rewrite IH;
      [|rewrite V1; exact Hnd
       |rewrite V1; intros x Hx; apply Hincl; now right].
    rewrite processNeuron_clocks by assumption. rewrite map_map, Vt.
    apply map_ext. intros [i t]. cbn [fst snd existsb].
    destruct (String.eqb i nid), (existsb (String.eqb i) ids); reflexivity.
Qed.

(** A timestep leaves every clock at the simulation time. *)
Lemma simStep_synchronized (st : P.t) (step : nat) :
  NoDup (map N.id (P.allNeurons st)) -> synchronized (P.simStep st step).
Proof.
  intros Hnd. unfold synchronized.
  destruct (simStep_environment st step) as (Ht & _). rewrite Ht.
  unfold P.simStep. set (st2 := P.updateOscillations _).
  cbn [P.updateNeuromodulators P.applySTDP P.set_synapses P.allNeurons].
  pose proof (forEach_clocks step (sin (P.phase (P.theta st2)))
                (sin (P.phase (P.gamma st2))) (sin (P.phase (P.alpha st2)))
                (map N.id (P.allNeurons st2)) st2 Hnd (incl_refl _)) as H.
  apply Forall_forall. intros x Hx.
  apply (in_map (fun y => (N.id y, N.currentTime y))) in Hx.
  change (In (N.id x, N.currentTime x)
             (clocks (fold_left
                (P.processNeuron step (sin (P.phase (P.theta st2)))
                   (sin (P.phase (P.gamma st2)))
                   (sin (P.phase (P.alpha st2))))
                (map N.id (P.allNeurons st2)) st2))) in Hx.
  rewrite H in Hx. apply in_map_iff in Hx. destruct Hx as ([i t] & Hp & Hi).
  cbn [fst snd] in Hp.
  assert (Hex : existsb (String.eqb i) (map N.id (P.allNeurons st2)) = true).
  { apply existsb_exists. exists i. split; [|apply String.eqb_refl].
    unfold clocks in Hi. apply in_map_iff in Hi.
    destruct Hi as (y & Hy & Hy'). injection Hy as <- _. now apply in_map. }
  rewrite Hex in Hp. injection Hp as _ <-. reflexivity.
Qed.

(** The neurons of the constructor. *)
Lemma initial_neuron (x : N.t) :
  In x (flat_map snd P.initialRegions) ->
  exists i ty, x = N.new i ty (P.getPresetForType ty).
Proof.
  unfold P.initialRegions. cbn [flat_map snd]. rewrite !in_app_iff.
  unfold P.regionNeurons, P.inhibitoryNeurons. rewrite !in_map_iff.
  intros H. decompose [or ex and] H; subst;
    try (eexists; eexists; reflexivity).
  - exists ("inhibitory_" ++ JS.string_of_nat x0)%string, interneuron.
    reflexivity.
  - contradiction.
Qed.

Lemma Forall_keeps (A : Type) (g : N.t -> A) (c : A) (l l' : list N.t) :
  map g l' = map g l ->
  Forall (fun x => g x = c) l -> Forall (fun x => g x = c) l'.
Proof.
  revert l'. induction l as [|x l IH]; intros [|y l']; simpl;
    try discriminate; [constructor|].
  intros [= Hy Hl] H. inversion H; subst.
  constructor; [congruence|now apply IH].
Qed.

(** X16.  With distinct keys, a spike of the neuron [nid] leaves every
    neuron as it was except for its two queues.  For each synapse that
    leaves [nid] and whose target is stored, in synapse order, the target's
    queue of the synapse's type gets one input; it arrives at the target's
    own clock plus the synapse's delay, and its amplitude is
    [|weight * factor|] times 50 (excitatory) or 30 (inhibitory), so never
    negative: the sign of a weight does not reach the target.  The spike
    record lists [nid] followed by those targets. *)
Theorem handleSpike_delivers (st : P.t) (nid : string) :
  NoDup (map N.id (P.allNeurons st)) ->
  P.allNeurons (P.handleSpike st nid)
  = map (spikeReceived st nid (P.synapses st)) (P.allNeurons st)
  /\ P.spikes (P.handleSpike st nid)
     = P.spikes st
       ++ [Spike.mk nid (P.globalTime st) 1
             (nid :: reached (map N.id (P.allNeurons st)) nid
                             (P.synapses st))]
  /\ (forall x exc,
         Forall (fun q =>
                   0 <= N.qweight q
                   /\ exists s, In s (P.synapses st)
                                /\ Synapse.preId s = nid
                                /\ Synapse.postId s = N.id x
                                /\ P.isExcitatory (Synapse.type s) = exc
                                /\ N.time q
                                   = N.currentTime x + Synapse.delay s)
                (arriving st nid exc x (P.synapses st))).
Proof.
  intros Hnd. rewrite handleSpike_store by exact Hnd.
  split; [reflexivity|]. split; [reflexivity|].
  intros x exc. unfold arriving. apply Forall_forall. intros q Hq.
  apply in_map_iff in Hq. destruct Hq as (s & <- & Hs).
  cbn [N.qweight N.time]. split.
  - unfold amplitudeOf.
    pose proof (Rabs_pos (Synapse.weight s
                          * P.getNeuromodulationFactor st x)).
    destruct (P.isExcitatory (Synapse.type s)); nra.
  - exists s. unfold incoming in Hs. apply filter_In in Hs.
    destruct Hs as [Hin Hc].
    apply andb_true_iff in Hc. destruct Hc as [Hc H3].
    apply andb_true_iff in Hc. destruct Hc as [H1 H2].
    apply String.eqb_eq in H1, H2. apply Bool.eqb_prop in H3.
    repeat split; auto.
Qed.

Lemma handleSpike_delivers_witness :
  P.allNeurons (P.handleSpike learning "hippocampus_1")
  = map (spikeReceived learning "hippocampus_1" (P.synapses learning))
        (P.allNeurons learning).
Proof.
  destruct (handleSpike_delivers learning "hippocampus_1") as (E & _).
  - apply distinct_NoDup. reflexivity.
  - exact E.
Defined.

(** X17.  Between two calls of the public methods every neuron's clock
    shows the simulation time: each timestep visits every stored neuron and
    sets its clock, [reset] sets both to 0, and queueing inputs touches
    neither. *)
Theorem clocks_synchronized (st : P.t) :
  Reachable st ->
  Forall (fun x => N.currentTime x = P.globalTime st) (P.allNeurons st).
Proof.
  change (Reachable st -> synchronized st).
  induction 1 as [syns|st input k H IH Hk|st r H IH|st l H IH|st l H IH
                  |st H IH]; try exact IH.
  - apply Forall_forall. intros x Hx.
    destruct (initial_neuron x Hx) as (i & ty & ->). reflexivity.
  - destruct k as [|k].
    + unfold P.runSteps; cbn [seq fold_left].
      set (st0 := P.set_spikes [] (P.set_activities [] st)).
      destruct (injectInput_frame input st0) as (_ & E & _).
      apply environment_fields in E. destruct E as (Et & _).
      unfold synchronized. rewrite Et.
      apply (Forall_keeps _ N.currentTime _ (P.allNeurons st0)); [|exact IH].
      apply injectInput_keeps. intros w d e x. now destruct e.
    + unfold P.runSteps. rewrite seq_S, fold_left_app. cbn [fold_left].
      apply simStep_synchronized.
      apply reachable_distinct.
      apply (reach_steps st input k H). lia.
  - unfold synchronized, P.reset; cbn [P.allNeurons P.globalTime].
    apply Forall_forall. intros x Hx. apply in_map_iff in Hx.
    destruct Hx as (y & <- & _). reflexivity.
Qed.

Lemma clocks_synchronized_witness :
  Forall (fun x => N.currentTime x = P.globalTime rewarded)
         (P.allNeurons rewarded).
Proof.
  apply clocks_synchronized.
  apply reach_processInput, reach_applyReward, reach_create.
Defined.

(* ------------------------------------------------------------------ *)
(** ** What the methods of a neuron never change *)

Lemma Evolves_invariants (dt : R) (x y : N.t) :
  0 <= dt -> Evolves dt x y ->
  identity y = identity x
  /\ (0 < N.tau_plus (N.params x) -> 0 <= N.spikeTrace x <= 1 ->
      0 <= N.spikeTrace y <= 1).
Proof.
  intros Hdt H.
  induction H as [|weight delay e y H [IHi IHt]|t y H [IHi IHt]
                  |I_ext y H [IHi IHt]|y H [IHi IHt]].
  - now split.
  - unfold N.receiveInput. destruct e; split; assumption.
  - rewrite processSynapticInputs_eq. split; assumption.
  - split; [exact IHi|]. intros Htau Ht. specialize (IHt Htau Ht).
    assert (Hp : N.params y = N.params x)
      by (unfold identity in IHi; congruence).
    unfold N.updateAdEx; cbn [fst N.spikeTrace]. rewrite Hp.
    pose proof (exp_nonpos _ (decay_exponent dt _ Hdt Htau)) as He.
    destruct (JS.gtb (N.V y) (N.Vpeak (N.params x))); nra.
  - split; [exact IHi|]. intros _ _. unfold N.reset; cbn [N.spikeTrace]. lra.
Qed.

Lemma Forall2_Forall (A : Type) (R0 : A -> A -> Prop) (P0 Q0 : A -> Prop)
      (l l' : list A) :
  (forall a b, R0 a b -> P0 a -> Q0 b) ->
  Forall2 R0 l l' -> Forall P0 l -> Forall Q0 l'.
Proof.
  intros H H2. induction H2; intros HP; [constructor|].
  inversion HP; subst. constructor; eauto.
Qed.

Lemma Forall2_map (A B : Type) (R0 : A -> A -> Prop) (g : A -> B)
      (l l' : list A) :
  (forall a b, R0 a b -> g b = g a) ->
  Forall2 R0 l l' -> map g l' = map g l.
Proof.
  intros H H2. induction H2; cbn [map]; [reflexivity|].
  f_equal; auto.
Qed.

(** X18.  No method changes the key, the type or the parameters of a
    neuron: in every reachable state the store holds, place by place, the
    175 neurons of the constructor with their distinct keys, 51 of them
    interneurons, and the parameters of each are the preset of its type
    after the adjustments of its type. *)
Theorem neurons_keep_identity (st : P.t) :
  Reachable st ->
  map identity (P.allNeurons st)
  = map identity (P.allNeurons (P.create []))
  /\ NoDup (map N.id (P.allNeurons st))
  /\ List.length (P.allNeurons st) = 175%nat
  /\ List.length
       (filter (fun t => P.isInterneuron (snd (fst t)))
               (map identity (P.allNeurons st))) = 51%nat
  /\ Forall (fun x => N.params x
                      = N.adjustByType (N.type x)
                                       (P.getPresetForType (N.type x)))
            (P.allNeurons st).
Proof.
  intros H. pose proof (reachable_evolves st H) as He.
  assert (Hdt : 0 <= 0.1) by lra.
  assert (Hid : map identity (P.allNeurons st)
                = map identity (P.allNeurons (P.create []))).
  { apply (Forall2_map _ _ (Evolves 0.1)); [|exact He].
    intros a b Hab. now apply (Evolves_invariants 0.1 a b Hdt). }
  split; [exact Hid|]. split; [now apply reachable_distinct|].
  split; [|split].
  - rewrite <- (length_map identity), Hid, length_map. reflexivity.
  - rewrite Hid. vm_compute. reflexivity.
  - apply (Forall2_Forall _ (Evolves 0.1)
             (fun x => N.params x
                       = N.adjustByType (N.type x)
                                        (P.getPresetForType (N.type x)))
             _ _ _) with (2 := He).
    + intros a b Hab Ha.
      destruct (Evolves_invariants 0.1 a b Hdt Hab) as [Hi _].
      unfold identity in Hi. injection Hi as _ Ht Hp. now rewrite Hp, Ht.
    + apply Forall_forall. intros x Hx.
      destruct (initial_neuron x Hx) as (i & ty & ->). reflexivity.
Qed.

Lemma neurons_keep_identity_witness :
  map identity (P.allNeurons rewarded)
  = map identity (P.allNeurons (P.create [])).
Proof.
  apply neurons_keep_identity.
  apply reach_processInput, reach_applyReward, reach_create.
Defined.

(** X19.  The spike trace of every neuron stays in [0, 1] in every
    reachable state: a spike sets it to 1, the integrate step multiplies it
    by [exp (- dt / tau_plus)], which is at most 1 as the timestep is 0.1
    and every preset has [tau_plus = 20], and [reset] sets it to 0. *)
Theorem spike_trace_in_unit (st : P.t) :
  Reachable st ->
  Forall (fun x => 0 <= N.spikeTrace x <= 1) (P.allNeurons st).
Proof.
  intros H. pose proof (reachable_evolves st H) as He.
  assert (Hdt : 0 <= 0.1) by lra.
  apply (Forall2_Forall _ (Evolves 0.1)
           (fun x => 0 < N.tau_plus (N.params x)
                     /\ 0 <= N.spikeTrace x <= 1)
           _ _ _) with (2 := He).
  - intros a b Hab [Ht Hs].
    now apply (Evolves_invariants 0.1 a b Hdt Hab).
  - apply Forall_forall. intros x Hx.
    destruct (initial_neuron x Hx) as (i & ty & ->).
    destruct ty; cbn; lra.
Qed.

Lemma spike_trace_in_unit_witness :
  Forall (fun x => 0 <= N.spikeTrace x <= 1) (P.allNeurons rewarded).
Proof.
  apply spike_trace_in_unit.
  apply reach_processInput, reach_applyReward, reach_create.
Defined.

(* ------------------------------------------------------------------ *)
(** ** Regions and ids *)

Lemma test_iff (a : bool) (r s : string) :
  Bool.eqb a (String.eqb r s) = true -> (a = true <-> r = s).
Proof.
  intros H. apply Bool.eqb_prop in H. rewrite H. apply String.eqb_eq.
Qed.

Lemma reachable_regionAgrees (st : P.t) (x : N.t) :
  Reachable st -> In x (P.allNeurons st) ->
  regionAgrees (P.create []) (N.id x) = true
  /\ P.getRegionForNeuron st (N.id x)
     = P.getRegionForNeuron (P.create []) (N.id x).
Proof.
  intros H Hx. destruct (reachable_topology st H) as [Hr Hn].
  assert (Hi : In (N.id x) (map N.id (flat_map snd P.initialRegions)))
    by (rewrite <- Hn; now apply in_map).
  assert (Hall : forallb (regionAgrees (P.create []))
                         (map N.id (flat_map snd P.initialRegions)) = true)
    by (vm_compute; reflexivity).
  rewrite forallb_forall in Hall. split; [now apply Hall|].
  unfold P.getRegionForNeuron. now rewrite Hr.
Qed.

(** X20.  The step loop and the modulation factor pick the neurons of a
    region by a substring test on the id.  For every neuron of a reachable
    state the tests agree with the region that holds the neuron: the
    neuron has a region, ["hippocampus"], ["thalamus"] and
    ["basal_ganglia"] occur in the ids of those regions only,
    ["prefrontal"] in those of the prefrontal cortex only, and ["cortex"]
    in those of the sensory, prefrontal and motor cortex, so that the
    amygdala and the inhibitory network pass none of the tests. *)
Theorem substring_tests_follow_regions (st : P.t) (x : N.t) :
  Reachable st -> In x (P.allNeurons st) ->
  let i := N.id x in
  let r := P.getRegionForNeuron st i in
  r <> "unknown"%string
  /\ (JS.includes i "hippocampus" = true <-> r = "hippocampus"%string)
  /\ (JS.includes i "thalamus" = true <-> r = "thalamus"%string)
  /\ (JS.includes i "basal_ganglia" = true <-> r = "basal_ganglia"%string)
  /\ (JS.includes i "prefrontal" = true <-> r = "prefrontal_cortex"%string)
  /\ (JS.includes i "cortex" = true <->
      r = "sensory_cortex"%string \/ r = "prefrontal_cortex"%string
      \/ r = "motor_cortex"%string).
Proof.
  intros H Hx i r. subst i r.
  destruct (reachable_regionAgrees st x H Hx) as [Hall Hg].
  rewrite Hg. unfold regionAgrees in Hall.
  revert Hall. generalize (P.getRegionForNeuron (P.create []) (N.id x)).
  intros r Hall.
  apply andb_true_iff in Hall. destruct Hall as [Hall H6].
  apply andb_true_iff in Hall. destruct Hall as [Hall H5].
  apply andb_true_iff in Hall. destruct Hall as [Hall H4].
  apply andb_true_iff in Hall. destruct Hall as [Hall H3].
  apply andb_true_iff in Hall. destruct Hall as [H1 H2].
  split; [|split; [|split; [|split; [|split]]]].
  - apply negb_true_iff in H1. now apply String.eqb_neq.
  - now apply test_iff.
  - now apply test_iff.
  - now apply test_iff.
  - now apply test_iff.
  - apply Bool.eqb_prop in H6. rewrite H6, !orb_true_iff, !String.eqb_eq.
    tauto.
Qed.

Lemma substring_tests_follow_regions_witness :
  P.getRegionForNeuron (P.create [])
    (N.id (N.new "amygdala_3" pyramidal N.NeuronPresets.RegularSpiking))
  <> "unknown"%string.
Proof.
  apply (substring_tests_follow_regions (P.create [])
           (N.new "amygdala_3" pyramidal N.NeuronPresets.RegularSpiking)).
  - apply reach_create.
  - unfold P.create, P.initialRegions; cbn [P.allNeurons flat_map snd].
    rewrite !in_app_iff. do 7 right. left.
    unfold P.regionNeurons. apply in_map_iff. exists 3%nat.
    split; [reflexivity|]. apply in_seq. lia.
Defined.

(* ------------------------------------------------------------------ *)
(** ** The conductance-based step *)

Lemma falsy_set (v : R) : v <> 0 -> HH.falsy (Some v) = false.
Proof. intros H. unfold HH.falsy. now destruct (Req_dec_T v 0). Qed.

(** The step in the conductance-based mode, field by field. *)
Lemma hh_step_fields (dt I_ext : R) (x : HH.t) (gNa gK ENa EK : R) :
  HH.channels x = HH.mkChannels (Some gNa) (Some gK) (Some ENa) (Some EK) ->
  gNa <> 0 -> gK <> 0 -> regular x ->
  exists x' s,
    let nr := HH.neuron x in
    let nr' := HH.neuron x' in
    let dv := HH.dV (N.params nr) gNa gK ENa EK (HH.n x') (HH.m x')
                    (HH.h x') (N.V nr) I_ext (N.synapticCurrent nr) in
    HH.updateHodgkinHuxley dt I_ext x = Some (x', s)
    /\ s = JS.ltb (N.V nr) (-20) && JS.leb (-20) (N.V nr') && JS.gtb dv 0
    /\ N.V nr' = N.V nr + dv * dt
    /\ HH.n x' = HH.n x + dt * (HH.alpha_n (N.V nr) * (1 - HH.n x)
                                - HH.beta_n (N.V nr) * HH.n x)
    /\ HH.m x' = HH.m x + dt * (HH.alpha_m (N.V nr) * (1 - HH.m x)
                                - HH.beta_m (N.V nr) * HH.m x)
    /\ HH.h x' = HH.h x + dt * (HH.alpha_h (N.V nr) * (1 - HH.h x)
                                - HH.beta_h (N.V nr) * HH.h x)
    /\ HH.channels x' = HH.channels x
    /\ identity nr' = identity nr
    /\ N.w nr' = N.w nr
    /\ N.synapticCurrent nr' = N.synapticCurrent nr
    /\ N.currentTime nr' = N.currentTime nr
    /\ N.excitatoryInputs nr' = N.excitatoryInputs nr
    /\ N.inhibitoryInputs nr' = N.inhibitoryInputs nr
    /\ N.spikeTrace nr' = (if s then 1 else N.spikeTrace nr)
    /\ N.lastSpikeTime nr'
       = (if s then Finite (N.currentTime nr) else N.lastSpikeTime nr).
Proof.
  intros Hch HNa HK [H55 H40].
  unfold HH.updateHodgkinHuxley. rewrite Hch.
  cbn [HH.g_Na HH.g_K HH.E_Na HH.E_K].
  rewrite (falsy_set gNa HNa), (falsy_set gK HK). cbn [orb].
  destruct (Req_dec_T (N.V (HH.neuron x)) (-55)) as [E|_]; [contradiction|].
  destruct (Req_dec_T (N.V (HH.neuron x)) (-40)) as [E|_]; [contradiction|].
  eexists. eexists. cbn zeta.
  split; [reflexivity|].
  cbn [HH.neuron HH.n HH.m HH.h HH.channels N.V N.w N.synapticCurrent
       N.currentTime N.excitatoryInputs N.inhibitoryInputs N.spikeTrace
       N.lastSpikeTime N.params].
  repeat split; reflexivity.
Qed.

Lemma leb_true (x y : R) : JS.leb x y = true <-> x <= y.
Proof.
  unfold JS.leb; destruct (Rle_dec x y); split; intros; try easy; lra.
Qed.

Lemma hh_defined_regular (dt I_ext : R) (x : HH.t) (gNa gK ENa EK : R)
      (r : HH.t * bool) :
  HH.channels x = HH.mkChannels (Some gNa) (Some gK) (Some ENa) (Some EK) ->
  gNa <> 0 -> gK <> 0 ->
  HH.updateHodgkinHuxley dt I_ext x = Some r -> regular x.
Proof.
  intros Hch HNa HK. unfold HH.updateHodgkinHuxley, regular. rewrite Hch.
  cbn [HH.g_Na HH.g_K HH.E_Na HH.E_K].
  rewrite (falsy_set gNa HNa), (falsy_set gK HK). cbn [orb].
  destruct (Req_dec_T (N.V (HH.neuron x)) (-55)); [discriminate|].
  destruct (Req_dec_T (N.V (HH.neuron x)) (-40)); [discriminate|].
  now split.
Qed.

Lemma clamped_mode : conductanceMode clamped /\ regular clamped.
Proof.
  split.
  - exists 120, 36, (-21), (-21).
    split; [reflexivity|]. split; lra.
  - unfold regular, clamped; simpl. split; lra.
Qed.

(** The clamped cell spikes in that step. *)
Lemma clamped_spikes :
  HH.updateHodgkinHuxley 1 1000 clamped = Some (clampedNext, true).
Proof.
  destruct (hh_step_fields 1 1000 clamped 120 36 (-21) (-21) eq_refl)
    as (x' & s & E & Hs & HV & _); try lra; [apply clamped_mode|].
  assert (Hdv : HH.dV (N.params (HH.neuron clamped)) 120 36 (-21) (-21)
                      (HH.n x') (HH.m x') (HH.h x')
                      (N.V (HH.neuron clamped)) 1000
                      (N.synapticCurrent (HH.neuron clamped)) = 2.55).
  { unfold HH.dV, clamped; simpl. lra. }
  rewrite Hdv in Hs, HV.
  assert (Ht : s = true).
  { rewrite Hs.
    rewrite (proj2 (ltb_true _ _)) by (unfold clamped; simpl; lra).
    rewrite (proj2 (leb_true _ _)) by (rewrite HV; unfold clamped; simpl; lra).
    rewrite (proj2 (gtb_true _ _)) by lra. reflexivity. }
  rewrite Ht in E. unfold clampedNext. rewrite E. reflexivity.
Qed.

(** X22.  In the conductance-based mode, off the two potentials at which a
    rate function is [0 / 0], the step returns, and unlike the integrate
    step of the other mode it resets and decays nothing: the adaptation
    variable, the synaptic current, the clock, the queues and the channel
    parameters are as before, and so are the spike trace and the spike time
    unless the step reports a spike.  A reported spike is an upward
    crossing of -20 mV: the potential was below and is now at or above,
    where the step leaves it. *)
Theorem hh_never_resets (dt I_ext : R) (x : HH.t) :
  conductanceMode x -> regular x ->
  exists x' s,
    HH.updateHodgkinHuxley dt I_ext x = Some (x', s)
    /\ HH.channels x' = HH.channels x
    /\ identity (HH.neuron x') = identity (HH.neuron x)
    /\ N.w (HH.neuron x') = N.w (HH.neuron x)
    /\ N.synapticCurrent (HH.neuron x') = N.synapticCurrent (HH.neuron x)
    /\ N.currentTime (HH.neuron x') = N.currentTime (HH.neuron x)
    /\ N.excitatoryInputs (HH.neuron x') = N.excitatoryInputs (HH.neuron x)
    /\ N.inhibitoryInputs (HH.neuron x') = N.inhibitoryInputs (HH.neuron x)
    /\ (s = true ->
        N.V (HH.neuron x) < -20 <= N.V (HH.neuron x')
        /\ N.spikeTrace (HH.neuron x') = 1
        /\ N.lastSpikeTime (HH.neuron x')
           = Finite (N.currentTime (HH.neuron x)))
    /\ (s = false ->
        N.spikeTrace (HH.neuron x') = N.spikeTrace (HH.neuron x)
        /\ N.lastSpikeTime (HH.neuron x') = N.lastSpikeTime (HH.neuron x)).
Proof.
  intros (gNa & gK & ENa & EK & Hch & HNa & HK) Hreg.
  destruct (hh_step_fields dt I_ext x gNa gK ENa EK Hch HNa HK Hreg)
    as (x' & s & E & Hs & HV & _ & _ & _ & F1 & F2 & F3 & F4 & F5 & F6 & F7
        & F8 & F9).
  exists x', s. repeat (split; [assumption|]). split.
  - intros ->. symmetry in Hs.
    apply andb_true_iff in Hs. destruct Hs as [Hs _].
    apply andb_true_iff in Hs. destruct Hs as [H1 H2].
    apply ltb_true in H1. apply leb_true in H2. repeat split; assumption.
  - intros ->. now split.
Qed.

Lemma hh_never_resets_witness :
  exists x' s,
    HH.updateHodgkinHuxley 1 1000 clamped = Some (x', s)
    /\ HH.channels x' = HH.channels clamped.
Proof.
  destruct (hh_never_resets 1 1000 clamped) as (x' & s & E & Hc & _);
    [apply clamped_mode ..|].
  exists x', s. now split.
Defined.

(** X23.  In the conductance-based mode no two consecutive steps report a
    spike: the step after a reported spike, whatever its timestep and
    current, returns and reports none, as the potential was left at or
    above -20 mV. *)
Theorem hh_no_consecutive_spikes (dt I_ext dt' I_ext' : R) (x x' : HH.t) :
  conductanceMode x ->
  HH.updateHodgkinHuxley dt I_ext x = Some (x', true) ->
  exists x'', HH.updateHodgkinHuxley dt' I_ext' x' = Some (x'', false).
Proof.
  intros (gNa & gK & ENa & EK & Hch & HNa & HK) H.
  pose proof (hh_defined_regular _ _ _ _ _ _ _ _ Hch HNa HK H) as Hreg.
  destruct (hh_step_fields dt I_ext x gNa gK ENa EK Hch HNa HK Hreg)
    as (x0 & s & E & Hs & _ & _ & _ & _ & F1 & _).
  rewrite H in E. injection E as <- <-. symmetry in Hs.
  apply andb_true_iff in Hs. destruct Hs as [Hs _].
  apply andb_true_iff in Hs. destruct Hs as [_ H2]. apply leb_true in H2.
  rewrite Hch in F1.
  destruct (hh_step_fields dt' I_ext' x' gNa gK ENa EK F1 HNa HK)
    as (x'' & s' & E' & Hs' & _); [unfold regular; split; lra|].
  exists x''. rewrite E', Hs'.
  now rewrite (proj2 (ltb_false _ _)) by exact H2.
Qed.

Lemma hh_no_consecutive_spikes_witness :
  exists x'', HH.updateHodgkinHuxley 0.1 500 clampedNext = Some (x'', false).
Proof.
  apply (hh_no_consecutive_spikes 1 1000 0.1 500 clamped clampedNext).
  - apply clamped_mode.
  - apply clamped_spikes.
Defined.

Lemma rate_quotient_pos (u : R) : u <> 0 -> 0 < u / (1 - exp (- u / 10)).
Proof.
  intros Hu. destruct (Rlt_dec 0 u) as [Hp|Hn].
  - assert (H : exp (- u / 10) < exp 0) by (apply exp_increasing; lra).
    rewrite exp_0 in H. apply Rdiv_lt_0_compat; lra.
  - assert (H : exp 0 < exp (- u / 10)) by (apply exp_increasing; lra).
    rewrite exp_0 in H.
    replace (u / (1 - exp (- u / 10)))
      with ((- u) / (exp (- u / 10) - 1)) by (field; lra).
    apply Rdiv_lt_0_compat; lra.
Qed.

(** Off the two singular potentials the six rates are positive. *)
Lemma rates_pos (v : R) :
  v <> -55 -> v <> -40 ->
  0 < HH.alpha_n v /\ 0 < HH.beta_n v /\ 0 < HH.alpha_m v
  /\ 0 < HH.beta_m v /\ 0 < HH.alpha_h v /\ 0 < HH.beta_h v.
Proof.
  intros H55 H40.
  pose proof (rate_quotient_pos (v + 55)) as Hn.
  pose proof (rate_quotient_pos (v + 40)) as Hm.
  pose proof (exp_pos (- (v + 65) / 80)).
  pose proof (exp_pos (- (v + 65) / 18)).
  pose proof (exp_pos (- (v + 65) / 20)).
  pose proof (exp_pos (- (v + 35) / 10)).
  unfold HH.alpha_n, HH.beta_n, HH.alpha_m, HH.beta_m, HH.alpha_h, HH.beta_h.
  replace (0.01 * (v + 55) / (1 - exp (- (v + 55) / 10)))
    with (0.01 * ((v + 55) / (1 - exp (- (v + 55) / 10))))
    by (unfold Rdiv; ring).
  replace (0.1 * (v + 40) / (1 - exp (- (v + 40) / 10)))
    with (0.1 * ((v + 40) / (1 - exp (- (v + 40) / 10))))
    by (unfold Rdiv; ring).
  assert (0 < (v + 55) / (1 - exp (- (v + 55) / 10))) by (apply Hn; lra).
  assert (0 < (v + 40) / (1 - exp (- (v + 40) / 10))) by (apply Hm; lra).
  assert (0 < 1 / (1 + exp (- (v + 35) / 10)))
    by (apply Rdiv_lt_0_compat; lra).
  repeat split; lra.
Qed.

(** An Euler step of a gating variable with a small enough timestep is a
    convex combination. *)
Lemma gate_step (g a b dt : R) :
  0 <= g <= 1 -> 0 <= a -> 0 <= b -> 0 <= dt -> dt * (a + b) <= 1 ->
  0 <= g + dt * (a * (1 - g) - b * g) <= 1.
Proof.
  intros Hg Ha Hb Hdt Hs.
  assert (Hp : 0 <= dt * a) by nra.
  assert (Hq : 0 <= dt * b) by nra.
  assert (Hpq : dt * a + dt * b <= 1) by lra.
  replace (g + dt * (a * (1 - g) - b * g))
    with (g + (dt * a) * (1 - g) - (dt * b) * g) by ring.
  revert Hp Hq Hpq. generalize (dt * a), (dt * b). intros p q Hp Hq Hpq.
  split; nra.
Qed.

(** X24.  In the conductance-based mode the three gating variables stay in
    [0, 1] over a step whose timestep is not negative and small enough for
    the rates at the present potential ([dt * (alpha + beta) <= 1] for each
    of the three), and the step returns. *)
Theorem hh_gating_in_unit (dt I_ext : R) (x : HH.t) :
  conductanceMode x -> regular x -> gated x -> 0 <= dt ->
  dt * (HH.alpha_n (N.V (HH.neuron x)) + HH.beta_n (N.V (HH.neuron x))) <= 1 ->
  dt * (HH.alpha_m (N.V (HH.neuron x)) + HH.beta_m (N.V (HH.neuron x))) <= 1 ->
  dt * (HH.alpha_h (N.V (HH.neuron x)) + HH.beta_h (N.V (HH.neuron x))) <= 1 ->
  exists x' s,
    HH.updateHodgkinHuxley dt I_ext x = Some (x', s) /\ gated x'.
Proof.
  intros (gNa & gK & ENa & EK & Hch & HNa & HK) Hreg (Gn & Gm & Gh) Hdt
         Hn Hm Hh.
  destruct (hh_step_fields dt I_ext x gNa gK ENa EK Hch HNa HK Hreg)
    as (x' & s & E & _ & _ & En & Em & Eh & _).
  destruct Hreg as [H55 H40].
  destruct (rates_pos (N.V (HH.neuron x)) H55 H40)
    as (P1 & P2 & P3 & P4 & P5 & P6).
  exists x', s. split; [exact E|].
  unfold gated. rewrite En, Em, Eh.
  repeat split; apply gate_step; try assumption; lra.
Qed.

(** For a positive argument the quotient of the two activation rates is
    at most the argument plus 10. *)
Lemma rate_quotient_le (u : R) :
  0 < u -> u / (1 - exp (- u / 10)) <= u + 10.
Proof.
  intros Hu. set (x := u / 10).
  assert (Hx : 0 < x) by (unfold x; lra).
  pose proof (exp_ineq1_le x) as HE.
  replace (- u / 10) with (- x) by (unfold x; lra).
  rewrite exp_Ropp.
  assert (Hinv : / exp x <= / (1 + x)) by (apply Rinv_le_contravar; lra).
  assert (Hq : / (1 + x) = 1 - x / (1 + x)) by (field; lra).
  assert (Hpos : 0 < x / (1 + x)) by (apply Rdiv_lt_0_compat; lra).
  assert (Hd : x / (1 + x) <= 1 - / exp x) by lra.
  assert (Hu' : (u + 10) * (x / (1 + x)) = u) by (unfold x; field; lra).
  assert (Hle : u <= (u + 10) * (1 - / exp x)).
  { rewrite <- Hu' at 1. apply Rmult_le_compat_l; lra. }
  unfold Rdiv. apply Rmult_le_reg_r with (1 - / exp x); [lra|].
  rewrite Rmult_assoc, Rinv_l by lra. lra.
Qed.

(** The rates of the cell at -21 mV. *)
Lemma clamped_rates :
  HH.alpha_n (-21) + HH.beta_n (-21) <= 0.565
  /\ HH.alpha_m (-21) + HH.beta_m (-21) <= 6.9
  /\ HH.alpha_h (-21) + HH.beta_h (-21) <= 1.07.
Proof.
  unfold HH.alpha_n, HH.beta_n, HH.alpha_m, HH.beta_m, HH.alpha_h, HH.beta_h.
  replace (-21 + 55) with 34 by lra. replace (-21 + 40) with 19 by lra.
  replace (-21 + 65) with 44 by lra. replace (-21 + 35) with 14 by lra.
  assert (Hn : 34 / (1 - exp (- (34) / 10)) <= 34 + 10)
    by (apply rate_quotient_le; lra).
  assert (Hm : 19 / (1 - exp (- (19) / 10)) <= 19 + 10)
    by (apply rate_quotient_le; lra).
  assert (B1 : exp (- (44) / 80) < 1) by (apply exp_neg_lt_1; lra).
  assert (B2 : exp (- (44) / 18) < 1) by (apply exp_neg_lt_1; lra).
  assert (B3 : exp (- (44) / 20) < 1) by (apply exp_neg_lt_1; lra).
  pose proof (exp_pos (- (14) / 10)) as B4.
  assert (B5 : 1 / (1 + exp (- (14) / 10)) <= 1).
  { unfold Rdiv. rewrite Rmult_1_l. rewrite <- Rinv_1 at 2.
    apply Rinv_le_contravar; lra. }
  replace (0.01 * 34 / (1 - exp (- (34) / 10)))
    with (0.01 * (34 / (1 - exp (- (34) / 10)))) by (unfold Rdiv; ring).
  replace (0.1 * 19 / (1 - exp (- (19) / 10)))
    with (0.1 * (19 / (1 - exp (- (19) / 10)))) by (unfold Rdiv; ring).
  repeat split; lra.
Qed.

(** The timestep 0.1 of the processor is small enough for the cell at
    -21 mV, and the step moves its three gating variables off their initial
    values 0, 0 and 1. *)
Lemma hh_gating_in_unit_witness :
  exists x' s,
    HH.updateHodgkinHuxley 0.1 1000 clamped = Some (x', s)
    /\ gated x'
    /\ 0 < HH.n x' /\ 0 < HH.m x' /\ HH.h x' < 1.
Proof.
  destruct clamped_rates as (Rn & Rm & Rh).
  destruct (rates_pos (-21)) as (P1 & P2 & P3 & P4 & P5 & P6); try lra.
  destruct (hh_gating_in_unit 0.1 1000 clamped) as (x' & s & E & G).
  - apply clamped_mode.
  - apply clamped_mode.
  - unfold gated, clamped; simpl. lra.
  - lra.
  - change (N.V (HH.neuron clamped)) with (-21). lra.
  - change (N.V (HH.neuron clamped)) with (-21). lra.
  - change (N.V (HH.neuron clamped)) with (-21). lra.
  - destruct (hh_step_fields 0.1 1000 clamped 120 36 (-21) (-21) eq_refl)
      as (x0 & s0 & E0 & _ & _ & En & Em & Eh & _);
      try lra; [apply clamped_mode|].
    rewrite E in E0. injection E0 as <- <-.
    exists x', s. split; [exact E|]. split; [exact G|].
    rewrite En, Em, Eh.
    change (N.V (HH.neuron clamped)) with (-21).
    change (HH.n clamped) with 0. change (HH.m clamped) with 0.
    change (HH.h clamped) with 1.
    repeat split; lra.
Defined.

(* ------------------------------------------------------------------ *)
(** ** The layout of the activity history *)

Lemma processNeuron_stamps (step : nat) (thetaMod gammaMod alphaMod : R)
      (st : P.t) (nid : string) :
  In nid (map N.id (P.allNeurons st)) ->
  stamps (P.processNeuron step thetaMod gammaMod alphaMod st nid)
  = stamps st
    ++ (if (step mod 10 =? 0)%nat then [(nid, P.globalTime st)] else []).
Proof.
  intros Hin. unfold P.processNeuron.
  destruct (getNeuron_in _ _ Hin) as [nr0 E]. rewrite E.
  destruct (N.updateAdEx _ _ _) as [nr2 spiked] eqn:Eu.
  assert (Hid : N.id nr2 = nid).
  { pose proof (f_equal fst Eu) as F. cbn [fst] in F. rewrite <- F.
    rewrite (proj1 (updateAdEx_clock _ _ _)), processSynapticInputs_id.
    exact (getNeuron_id _ _ _ E). }
  set (st1 := P.set_allNeurons _ st).
  set (st2 := if spiked then P.handleSpike st1 nid else st1).
  assert (Hids : map N.id (P.allNeurons st2) = map N.id (P.allNeurons st)).
  { unfold st2. destruct spiked; [rewrite handleSpike_ids|];
      unfold st1; cbn [P.set_allNeurons P.allNeurons];
      apply modify_ids; intros; exact Hid. }
  assert (Hact : P.activities st2 = P.activities st
                 /\ P.globalTime st2 = P.globalTime st).
  { unfold st2. destruct spiked; [|now split].
    destruct (handleSpike_frame st1 nid) as [He Ha].
    apply environment_fields in He. destruct He as (Ht & _).
    rewrite Ha, Ht. now split. }
  destruct Hact as [Hact Ht].
  destruct (step mod 10 =? 0)%nat.
  - rewrite <- Hids in Hin. destruct (getNeuron_in _ _ Hin) as [nr3 E3].
    rewrite E3. unfold stamps, P.set_activities. cbn [P.activities].
    rewrite map_app, Hact, Ht. cbn [map NeuronActivity.neuronId
      NeuronActivity.timestamp].
    now rewrite (getNeuron_id _ _ _ E3).
  - unfold stamps. now rewrite Hact, app_nil_r.
Qed.

Lemma forEach_stamps (step : nat) (thetaMod gammaMod alphaMod : R)
      (ids : list string) :
  forall st : P.t,
    incl ids (map N.id (P.allNeurons st)) ->
    stamps (fold_left (P.processNeuron step thetaMod gammaMod alphaMod)
                      ids st)
    = stamps st
      ++ (if (step mod 10 =? 0)%nat then sample ids (P.globalTime st)
          else []).
Proof.
  induction ids as [|nid ids IH]; intros st Hincl; cbn [fold_left].
  - unfold sample; cbn [map]. destruct (step mod 10 =? 0)%nat;
      now rewrite app_nil_r.
  - assert (Hin : In nid (map N.id (P.allNeurons st)))
      by (apply Hincl; now left).
    destruct (processNeuron_frame step thetaMod gammaMod alphaMod st nid Hin)
      as (V1 & V2 & _).
    apply environment_fields in V2. destruct V2 as (Vt & _).
    rewrite IH by (rewrite V1; intros x Hx; apply Hincl; now right).
    rewrite processNeuron_stamps by exact Hin. rewrite Vt.
    unfold sample. destruct (step mod 10 =? 0)%nat; cbn [map];
      now rewrite <- app_assoc.
Qed.

Lemma simStep_stamps (st : P.t) (step : nat) :
  stamps (P.simStep st step)
  = stamps st
    ++ (if (step mod 10 =? 0)%nat
        then sample (map N.id (P.allNeurons st)) (P.globalTime st + P.dt st)
        else []).
Proof.
  unfold P.simStep. set (st2 := P.updateOscillations _).
  unfold stamps at 1.
  cbn [P.updateNeuromodulators P.applySTDP P.set_synapses P.activities].
  apply (forEach_stamps step _ _ _ (map N.id (P.allNeurons st2)) st2).
  apply incl_refl.
Qed.

Lemma flat_map_ext_within (A B : Type) (f g : A -> list B) (l : list A) :
  (forall x, In x l -> f x = g x) -> flat_map f l = flat_map g l.
Proof.
  induction l as [|x l IH]; intros H; cbn [flat_map]; [reflexivity|].
  rewrite (H x) by now left. f_equal. apply IH. intros y Hy. apply H.
  now right.
Qed.

(** The records of the timesteps [a .. a+n-1], the first of which starts at
    the time of [st]. *)
Lemma steps_stamps (n : nat) :
  forall (a : nat) (st : P.t),
    stamps (fold_left P.simStep (seq a n) st)
    = stamps st
      ++ flat_map (fun step =>
                     if (step mod 10 =? 0)%nat
                     then sample (map N.id (P.allNeurons st))
                                 (P.globalTime st
                                  + INR (step - a + 1) * P.dt st)
                     else [])
                  (seq a n).
Proof.
  induction n as [|n IH]; intros a st; cbn [seq fold_left flat_map].
  - now rewrite app_nil_r.
  - rewrite IH, simStep_stamps, <- app_assoc. f_equal.
    destruct (simStep_frame st a) as (S1 & _).
    destruct (simStep_environment st a) as (St & Sdt & _).
    rewrite S1, St, Sdt. f_equal.
    + replace (a - a + 1)%nat with 1%nat by lia. cbn [INR].
      now rewrite Rmult_1_l.
    + apply flat_map_ext_within. intros step Hs. apply in_seq in Hs.
      destruct (step mod 10 =? 0)%nat; [|reflexivity]. f_equal.
      replace (step - a + 1)%nat with (S (step - S a + 1)) by lia.
      rewrite S_INR. lra.
Qed.

Lemma flat_map_filter (A B : Type) (c : A -> bool) (f : A -> list B)
      (l : list A) :
  flat_map (fun x => if c x then f x else []) l = flat_map f (filter c l).
Proof.
  induction l as [|x l IH]; cbn [flat_map filter]; [reflexivity|].
  destruct (c x); cbn [flat_map app]; now rewrite IH.
Qed.

(** X25.  The layout of the array that [processInput] returns: the records
    of the call only, for each tenth timestep (steps 0, 10, ..., 990) one
    record per stored neuron in the order of the store, all with the
    simulation time at which that timestep ends, whatever the input and
    whichever neurons spiked. *)
Theorem activities_layout (input : list R) (st : P.t) :
  stamps (P.processInput input st)
  = flat_map (fun step =>
                sample (map N.id (P.allNeurons st))
                       (P.globalTime st + INR (step + 1) * P.dt st))
             (recorded 1000)
  /\ List.length (recorded 1000) = 100%nat.
Proof.
  split; [|vm_compute; reflexivity].
  unfold P.processInput, P.runSteps, recorded.
  set (st0 := P.set_spikes [] (P.set_activities [] st)).
  destruct (injectInput_frame input st0) as (J1 & J2 & J3 & _).
  apply environment_fields in J2. destruct J2 as (Jt & Jdt & _).
  rewrite steps_stamps. unfold stamps at 1. rewrite J3, J1, Jt, Jdt.
  cbn [st0 P.set_spikes P.set_activities P.activities P.allNeurons
       P.globalTime P.dt map app].
  rewrite <- flat_map_filter. apply flat_map_ext. intros step.
  now rewrite Nat.sub_0_r.
Qed.

(* ------------------------------------------------------------------ *)
(** ** The two histories together *)

Lemma processNeuron_witnessed (step : nat) (thetaMod gammaMod alphaMod : R)
      (st : P.t) (nid : string) :
  In nid (map N.id (P.allNeurons st)) ->
  witnessed st ->
  witnessed (P.processNeuron step thetaMod gammaMod alphaMod st nid).
Proof.
  intros Hin Hw. unfold P.processNeuron.
  destruct (getNeuron_in _ _ Hin) as [nr0 E]. rewrite E.
  destruct (N.updateAdEx _ _ _) as [nr2 spiked] eqn:Eu.
  assert (Hid : N.id nr2 = nid).
  { pose proof (f_equal fst Eu) as F. cbn [fst] in F. rewrite <- F.
    rewrite (proj1 (updateAdEx_clock _ _ _)), processSynapticInputs_id.
    exact (getNeuron_id _ _ _ E). }
  set (st1 := P.set_allNeurons _ st).
  set (st2 := if spiked then P.handleSpike st1 nid else st1).
  assert (Hids : map N.id (P.allNeurons st2) = map N.id (P.allNeurons st)).
  { unfold st2. destruct spiked; [rewrite handleSpike_ids|];
      unfold st1; cbn [P.set_allNeurons P.allNeurons];
      apply modify_ids; intros; exact Hid. }
  assert (Hact : P.activities st2 = P.activities st).
  { unfold st2. destruct spiked; [|reflexivity].
    now rewrite (proj2 (handleSpike_frame st1 nid)). }
  assert (Hold : forall spike, In spike (P.spikes st) ->
                               In spike (P.spikes st2)).
  { intros spike Hs. unfold st2. destruct spiked; [|exact Hs].
    destruct (handleSpike_appends st1 nid) as (sp & -> & _).
    apply in_or_app. now left. }
  assert (Hnew : spiked = true ->
                 exists spike, In spike (P.spikes st2)
                               /\ Spike.neuronId spike = nid
                               /\ Spike.timestamp spike = P.globalTime st2).
  { intros ->. unfold st2.
    destruct (handleSpike_appends st1 nid) as (sp & Hs & Hn & Ht).
    destruct (handleSpike_frame st1 nid) as [He _].
    apply environment_fields in He. destruct He as (Hg & _).
    exists sp. rewrite Hs, Hg. split; [|now split].
    apply in_or_app. right. now left. }
  assert (Hw2 : witnessed st2).
  { intros a Ha Hf. rewrite Hact in Ha.
    destruct (Hw a Ha Hf) as (sp & Hs & Hn & Ht).
    exists sp. split; [now apply Hold|now split]. }
  destruct (step mod 10 =? 0)%nat; [|exact Hw2].
  rewrite <- Hids in Hin. destruct (getNeuron_in _ _ Hin) as [nr3 E3].
  rewrite E3. intros a Ha Hf.
  unfold P.set_activities in *. cbn [P.activities P.spikes] in *.
  apply in_app_or in Ha. destruct Ha as [Ha|[<-|[]]].
  - now apply Hw2.
  - cbn [NeuronActivity.fired NeuronActivity.neuronId
         NeuronActivity.timestamp] in *.
    rewrite (getNeuron_id _ _ _ E3). now apply Hnew.
Qed.

Lemma forEach_witnessed (step : nat) (thetaMod gammaMod alphaMod : R)
      (ids : list string) :
  forall st : P.t,
    incl ids (map N.id (P.allNeurons st)) ->
    witnessed st ->
    witnessed (fold_left (P.processNeuron step thetaMod gammaMod alphaMod)
                         ids st).
Proof.
  induction ids as [|nid ids IH]; intros st Hincl Hw; cbn [fold_left];
    [exact Hw|].
  assert (Hin : In nid (map N.id (P.allNeurons st)))
    by (apply Hincl; now left).
  destruct (processNeuron_frame step thetaMod gammaMod alphaMod st nid Hin)
    as (V1 & _).
  apply IH.
  - rewrite V1. intros x Hx. apply Hincl. now right.
  - now apply processNeuron_witnessed.
Qed.

Lemma simStep_witnessed (st : P.t) (step : nat) :
  witnessed st -> witnessed (P.simStep st step).
Proof.
  intros Hw. unfold P.simStep. set (st2 := P.updateOscillations _).
  pose proof (forEach_witnessed step (sin (P.phase (P.theta st2)))
                (sin (P.phase (P.gamma st2))) (sin (P.phase (P.alpha st2)))
                (map N.id (P.allNeurons st2)) st2 (incl_refl _) Hw) as H.
  exact H.
Qed.

(** A neuron above its peak is recorded as fired on a recorded timestep. *)
Lemma processNeuron_fires (step : nat) (thetaMod gammaMod alphaMod : R)
      (st : P.t) (nid : string) (x : N.t) :
  P.getNeuron nid (P.allNeurons st) = Some x ->
  N.Vpeak (N.params x) < N.V x ->
  (step mod 10 =? 0)%nat = true ->
  exists a,
    In a (P.activities (P.processNeuron step thetaMod gammaMod alphaMod
                                        st nid))
    /\ NeuronActivity.fired a = true.
Proof.
  intros E Hv Hs.
  assert (Hin : In nid (map N.id (P.allNeurons st))).
  { rewrite <- (getNeuron_id _ _ _ E). apply in_map.
    unfold P.getNeuron in E. now apply find_some in E. }
  unfold P.processNeuron. rewrite E, Hs.
  destruct (N.updateAdEx _ _ _) as [nr2 spiked] eqn:Eu.
  assert (Hsp : spiked = true).
  { pose proof (f_equal snd Eu) as F. cbn [snd] in F. rewrite <- F.
    unfold N.updateAdEx; cbn [snd]. rewrite processSynapticInputs_eq.
    cbn [N.V N.params]. now apply gtb_true. }
  assert (Hid : N.id nr2 = nid).
  { pose proof (f_equal fst Eu) as F. cbn [fst] in F. rewrite <- F.
    rewrite (proj1 (updateAdEx_clock _ _ _)), processSynapticInputs_id.
    exact (getNeuron_id _ _ _ E). }
  subst spiked.
  set (st1 := P.set_allNeurons _ st).
  assert (Hids : In nid (map N.id (P.allNeurons (P.handleSpike st1 nid)))).
  { rewrite handleSpike_ids. unfold st1; cbn [P.set_allNeurons P.allNeurons].
    rewrite modify_ids by (intros; exact Hid). exact Hin. }
  destruct (getNeuron_in _ _ Hids) as [nr3 E3]. rewrite E3.
  unfold P.set_activities; cbn [P.activities].
  eexists. split.
  - apply in_or_app. right. left. reflexivity.
  - reflexivity.
Qed.

Lemma alone_fires :
  exists a,
    In a (P.activities
            (P.runSteps 1
               (P.injectInput [1]
                  (P.set_spikes [] (P.set_activities [] alone)))))
    /\ NeuronActivity.fired a = true.
Proof.
  unfold P.runSteps, P.injectInput; cbn [seq fold_left].
  unfold P.simStep.
  set (st2 := P.updateOscillations _).
  cbn [P.updateNeuromodulators P.applySTDP P.set_synapses P.activities].
  change (map N.id (P.allNeurons st2)) with ["hippocampus_1"%string].
  cbn [fold_left].
  apply (processNeuron_fires 0 _ _ _ st2 "hippocampus_1" peaked).
  - reflexivity.
  - unfold peaked; simpl. lra.
  - reflexivity.
Qed.

(** X26.  In the histories that the step loop of [processInput] leaves,
    after any number of its timesteps and so when the call returns, every
    activity record that says [fired] has a spike record of the same neuron
    with the same time stamp.  (The converse fails by construction: a spike
    in a timestep that is not recorded has no activity record.) *)
Theorem fired_records_have_spikes (input : list R) (st : P.t) (k : nat)
        (a : NeuronActivity.t) :
  let st' := P.runSteps k
               (P.injectInput input
                  (P.set_spikes [] (P.set_activities [] st))) in
  In a (P.activities st') ->
  NeuronActivity.fired a = true ->
  exists spike,
    In spike (P.spikes st')
    /\ Spike.neuronId spike = NeuronActivity.neuronId a
    /\ Spike.timestamp spike = NeuronActivity.timestamp a.
Proof.
  intros st'. subst st'. revert a.
  change (witnessed
            (P.runSteps k
               (P.injectInput input
                  (P.set_spikes [] (P.set_activities [] st))))).
  unfold P.runSteps.
  set (st0 := P.set_spikes [] (P.set_activities [] st)).
  assert (H0 : witnessed (P.injectInput input st0)).
  { destruct (injectInput_frame input st0) as (_ & _ & J3 & _).
    intros a Ha. rewrite J3 in Ha. destruct Ha. }
  revert H0. generalize (P.injectInput input st0), (seq 0 k).
  intros st1 ks. revert st1.
  induction ks as [|j ks IH]; intros st1 Hw; cbn [fold_left]; [exact Hw|].
  apply IH. now apply simStep_witnessed.
Qed.

Lemma fired_records_have_spikes_witness :
  exists spike,
    In spike
       (P.spikes
          (P.runSteps 1
             (P.injectInput [1]
                (P.set_spikes [] (P.set_activities [] alone))))).
Proof.
  destruct alone_fires as (a & Ha & Hf).
  destruct (fired_records_have_spikes [1] alone 1 a Ha Hf) as (sp & Hs & _).
  exists sp. exact Hs.
Defined.

(* ------------------------------------------------------------------ *)
(** ** The network state for visualization *)

(** X27.  What [getNetworkState] shows of a reachable state: the 175
    neurons, each with a region that is one of the eight listed region
    names (never ["unknown"]), one connection per synapse, and, when the
    spike history is empty, as after [reset], no active connection. *)
Theorem network_state_reading (st : P.t) :
  Reachable st ->
  let ns := P.getNetworkState st in
  List.length (P.NetworkState.neurons ns) = 175%nat
  /\ P.NetworkState.regions ns
     = ["sensory_cortex"; "hippocampus"; "prefrontal_cortex";
        "motor_cortex"; "thalamus"; "inhibitory_network"; "basal_ganglia";
        "amygdala"]%string
  /\ Forall (fun p => In (snd p) (P.NetworkState.regions ns))
            (P.NetworkState.neurons ns)
  /\ List.length (P.NetworkState.connections ns)
     = List.length (P.synapses st)
  /\ (P.spikes st = [] ->
      Forall (fun c => P.Connection.active c = false)
             (P.NetworkState.connections ns)).
Proof.
  intros H ns. subst ns. unfold P.getNetworkState.
  cbn [P.NetworkState.neurons P.NetworkState.regions
       P.NetworkState.connections].
  destruct (reachable_topology st H) as [Hr Hn].
  assert (Hnames : map P.name (P.regions st)
                   = ["sensory_cortex"; "hippocampus"; "prefrontal_cortex";
                      "motor_cortex"; "thalamus"; "inhibitory_network";
                      "basal_ganglia"; "amygdala"]%string)
    by (rewrite Hr; reflexivity).
  split; [|split; [exact Hnames|split; [|split]]].
  - rewrite length_map, <- (length_map N.id), Hn. reflexivity.
  - apply Forall_forall. intros p Hp. apply in_map_iff in Hp.
    destruct Hp as (x & <- & Hx). cbn [snd].
    destruct (reachable_regionAgrees st x H Hx) as [Hall _].
    unfold P.getRegionForNeuron.
    destruct (find _ (P.regions st)) as [r|] eqn:Ef.
    + apply find_some in Ef. apply in_map. tauto.
    + exfalso. unfold regionAgrees, P.getRegionForNeuron in Hall.
      rewrite Hr in Ef.
      change (P.regions (P.create [])) with (map fst P.initialRegions)
        in Hall.
      rewrite Ef in Hall. discriminate.
  - now rewrite length_map.
  - intros Hs. apply Forall_forall. intros c Hc. apply in_map_iff in Hc.
    destruct Hc as (s & <- & _). cbn [P.Connection.active].
    unfold P.recentlyFired. now rewrite Hs.
Qed.

Lemma network_state_reading_witness :
  List.length (P.NetworkState.neurons (P.getNetworkState rewarded))
  = 175%nat.
Proof.
  apply (network_state_reading rewarded).
  apply reach_processInput, reach_applyReward, reach_create.
Defined.
